(** * content-service: bulk staging ingestion and search-index rotation

  A shallow embedding of

  - [src/routes/staging_content/bulk.js]   (module [Bulk]),
  - [src/routes/staging_content/store.js]  (module [Store]),
  - [src/routes/staging_content/remove.js] (module [Remove]),
  - [src/storage/remote.js]                (module [Remote]),

  together with the parts of the JavaScript runtime and of the [async]
  library these files rely on (modules [Js] and [Async]) and the calls
  the routes make on the storage facade (module [Storage]).  The request
  handlers of [store.js] and [remove.js] are the modules [StoreRoute] and
  [RemoveRoute]; [Archive] and [Listing] hold the vocabulary in which the
  bulk upload is read against its archive and a listing against its
  container.  The properties are proved in the modules [RemoteFacts],
  [BulkFacts], [ArchiveFacts], [DriverFacts] and [RouteFacts].

  Conventions.  Node-style callbacks [(err, result)] become return values:
  [None] is a call of the callback without error, [Some e] a call with the
  error [e].  Requests to external services are logged in the order in
  which they are issued, so that "what was requested" is an observable of
  the model.  Logger calls are not modelled: they have no effect on the
  state the properties below speak about.  Counters are [nat]: they only
  ever count archive entries. *)

From Stdlib Require Import ZArith String Ascii List Lia.
From stdpp Require Import base option gmap sets list strings pretty sorting.

Set Warnings "-register-all,-abstract-large-number,-clear-no-such-hyp".
Open Scope string_scope.

(* ===================================================================== *)
(** * JavaScript values                                                   *)
(* ===================================================================== *)

Module Js.

(** The result of [JSON.parse].  Numbers are restricted to those with an
    integer value; an object is the list of its members in source
    order. *)
Inductive Json : Type :=
| JNull
| JBool (b : bool)
| JNum (n : Z)
| JStr (s : string)
| JArr (items : list Json)
| JObj (members : list (string * Json)).

(** [ToBoolean]. *)
Definition truthy (v : Json) : bool :=
  match v with
  | JNull => false
  | JBool b => b
  | JNum n => negb (n =? 0)%Z
  | JStr s => negb (String.eqb s "")
  | JArr _ | JObj _ => true
  end.

(** Truthiness of a possibly [undefined] value. *)
Definition truthy_opt (v : option Json) : bool :=
  match v with Some x => truthy x | None => false end.

(** Member lookup in a parsed object: with duplicate keys [JSON.parse]
    keeps the last one. *)
Fixpoint member (key : string) (ms : list (string * Json)) : option Json :=
  match ms with
  | [] => None
  | (k, v) :: rest =>
      match member key rest with
      | Some w => Some w
      | None => if String.eqb k key then Some v else None
      end
  end.

(** [v.key] for a key that no built-in prototype defines: [None] is a
    thrown TypeError (property access on [null]), [Some None] is
    [undefined]. *)
Definition get (v : Json) (key : string) : option (option Json) :=
  match v with
  | JNull => None
  | JObj ms => Some (member key ms)
  | _ => Some None
  end.

(** An [Error] object with the two properties the sources inspect. *)
Record Error : Type := mkError {
  message : string;
  statusCode : option Json;
  status : option Json
}.

Definition TypeError (msg : string) : Error := mkError msg None None.
Definition URIError (msg : string) : Error := mkError msg None None.

(** [v === n] for a number literal, [v === s] for a string literal. *)
Definition strict_eq_num (v : option Json) (n : Z) : bool :=
  match v with Some (JNum m) => (m =? n)%Z | _ => false end.

Definition strict_eq_str (v : option Json) (s : string) : bool :=
  match v with Some (JStr t) => String.eqb t s | _ => false end.

(** [err.statusCode = code]. *)
Definition with_statusCode (code : Z) (e : Error) : Error :=
  mkError (message e) (Some (JNum code)) (status e).

(** [s.endsWith(suffix)]. *)
Definition endsWith (s suffix : string) : bool :=
  let n := String.length s in
  let k := String.length suffix in
  (k <=? n)%nat && String.eqb (String.substring (n - k)%nat k s) suffix.

(** [s.split(sep)] for a one-character separator. *)
Fixpoint split (sep : ascii) (s : string) : list string :=
  match s with
  | EmptyString => [""]
  | String c rest =>
      if Ascii.eqb c sep then "" :: split sep rest
      else match split sep rest with
           | [] => [String c ""]
           | w :: ws => String c w :: ws
           end
  end.

(** What the sources take from the Node runtime.  [decodeURIComponent]
    answers [None] where the built-in throws a URIError. *)
Class Runtime : Type := {
  decodeURIComponent : string -> option string;
  encodeURIComponent : string -> string;
  number_to_string : Z -> string;
  path_sep : ascii;
  path_dirname : string -> string;
  path_basename : string -> string;
  path_basename_ext : string -> string -> string
}.

(** The names of the properties every object inherits from
    [Object.prototype]; all of them hold a function or an object. *)
Definition object_prototype : list string :=
  ["constructor"; "__defineGetter__"; "__defineSetter__"; "hasOwnProperty";
   "__lookupGetter__"; "__lookupSetter__"; "isPrototypeOf";
   "propertyIsEnumerable"; "toString"; "valueOf"; "__proto__";
   "toLocaleString"].

Definition inherited (key : string) : bool :=
  existsb (String.eqb key) object_prototype.

Section Conversion.
Context {rt : Runtime}.

(** [ToString], as used when a value becomes a property key; [None] is a
    thrown TypeError.  How a number prints ([Number::toString], the
    shortest numeral that reads back as the same double, in exponent form
    from 10^21 on) is the runtime's [number_to_string].  A parsed object
    prints through the inherited [toString] unless it has a member of
    that name, which is never callable: then neither [toString] nor the
    inherited [valueOf] yields a primitive.  An array prints through
    [join], its elements in order. *)
Fixpoint to_string (v : Json) : option string :=
  match v with
  | JNull => Some "null"
  | JBool true => Some "true"
  | JBool false => Some "false"
  | JNum n => Some (number_to_string n)
  | JStr s => Some s
  | JArr items =>
      (fix join (l : list Json) : option string :=
         match l with
         | [] => Some ""
         | x :: rest =>
             match match x with JNull => Some "" | _ => to_string x end with
             | Some a =>
                 match rest with
                 | [] => Some a
                 | _ => match join rest with
                        | Some b => Some (a ++ "," ++ b)
                        | None => None
                        end
                 end
             | None => None
             end
         end) items
  | JObj ms =>
      if existsb (fun kv => String.eqb kv.1 "toString") ms then None
      else Some "[object Object]"
  end.

End Conversion.

End Js.

(* ===================================================================== *)
(** * The [async] library                                                 *)
(* ===================================================================== *)

Module Async.
Import Js.

(** ** [async.parallel] and [async.each]

    Every task is started at once.  The final callback is called a single
    time: with the first error as soon as one task fails, or without error
    once all tasks have completed successfully.  A group is the list of
    its tasks' states plus the flag behind the callback's [once] guard. *)

Inductive Op : Type :=
| Pending
| Resolved (r : option Error).

Record Group : Type := mkGroup {
  ops : list Op;
  called : bool
}.

Definition start (n : nat) : Group := mkGroup (replicate n Pending) false.

Definition is_pending (o : Op) : bool :=
  match o with Pending => true | Resolved _ => false end.

Definition succeeded (o : Op) : bool :=
  match o with Resolved None => true | _ => false end.

(** Task [i] calls its callback with [r].  The second component, when
    present, is the argument of the final callback, called at this very
    moment. *)
Definition resolve (i : nat) (r : option Error) (g : Group)
  : Group * option (option Error) :=
  let ops' := <[i := Resolved r]> (ops g) in
  if called g then (mkGroup ops' true, None)
  else match r with
       | Some e => (mkGroup ops' true, Some (Some e))
       | None =>
           if forallb succeeded ops' then (mkGroup ops' true, Some None)
           else (mkGroup ops' false, None)
       end.

(** When the tasks' completions are not interleaved with anything else,
    all that matters is the list of their results: the final callback
    receives the first error among them. *)
Fixpoint first_error (results : list (option Error)) : option Error :=
  match results with
  | [] => None
  | Some e :: _ => Some e
  | None :: rest => first_error rest
  end.

(** ** [async.queue(worker, concurrency)]

    [tasks] are the items waiting, [workers] the number of items being
    processed, [drain_armed] tells whether the [drain] property has been
    assigned (it is a no-op until then). *)
Record Queue (T : Type) : Type := mkQueue {
  tasks : list T;
  workers : nat;
  concurrency : nat;
  drain_armed : bool
}.

Arguments mkQueue {T} _ _ _ _.
Arguments tasks {T} _.
Arguments workers {T} _.
Arguments concurrency {T} _.
Arguments drain_armed {T} _.

Definition queue {T : Type} (conc : nat) : Queue T := mkQueue [] 0 conc false.

(** [q.push(task)]: the item is appended; processing is deferred. *)
Definition push {T : Type} (t : T) (q : Queue T) : Queue T :=
  mkQueue (tasks q ++ [t]) (workers q) (concurrency q) (drain_armed q).

(** [q.running()]. *)
Definition running {T : Type} (q : Queue T) : nat := workers q.

(** [q.idle()]. *)
Definition idle {T : Type} (q : Queue T) : bool :=
  (length (tasks q) + workers q =? 0)%nat.

(** [q.drain = f]. *)
Definition arm_drain {T : Type} (q : Queue T) : Queue T :=
  mkQueue (tasks q) (workers q) (concurrency q) true.

(** One turn of [q.process]: hand the first waiting item to a worker if
    one is free. *)
Definition process {T : Type} (q : Queue T) : option (T * Queue T) :=
  match tasks q with
  | [] => None
  | t :: rest =>
      if (workers q <? concurrency q)%nat
      then Some (t, mkQueue rest (S (workers q)) (concurrency q) (drain_armed q))
      else None
  end.

(** A worker calls its callback: the worker is released, and [drain] is
    called (second component) when nothing is waiting or running. *)
Definition next {T : Type} (q : Queue T) : Queue T * bool :=
  let q' := mkQueue (tasks q) (pred (workers q)) (concurrency q) (drain_armed q) in
  (q', idle q').

End Async.

(* ===================================================================== *)
(** * src/storage/remote.js                                               *)
(* ===================================================================== *)

Module Remote.
Import Js.

(** ** The services behind [connection]

    The search engine is a finite map from index names to indices; an
    index carries its aliases, its type mappings and its documents.  The
    content container of the blob store is the list of its object names in
    listing order. *)

Definition Mapping : Type := list (string * (string * string)).

Record Index : Type := mkIndex {
  aliases : gset string;
  mappings : list (string * Mapping);
  docs : gmap string Json
}.

Inductive AliasAction : Type :=
| ActRemove (index alias : string)
| ActAdd (index alias : string).

Inductive Request : Type :=
| ConnectionSetup
| IndicesCreate (index : string) (ignore : option Z)
| IndicesPutMapping (index type : string) (body : Mapping)
| IndicesUpdateAliases (actions : list AliasAction)
| IndicesGet (index : string)
| IndicesDelete (index : string)
| ElasticDelete (index type id : string)
| RemoveFile (container remote : string)
| GetFiles (container : string) (limit : nat) (marker : option string).

Inductive Reply : Type :=
| Failed (e : Error)
| Answered (status : Z) (names : list string).

(** [faults] holds, for each of the coming requests in turn, whether it
    fails before reaching the service, and with which error; [requests] is
    the log of the requests issued so far. *)
Record World : Type := mkWorld {
  elastic : gmap string Index;
  contentContainer : string;
  contentFiles : list string;
  faults : list (option Error);
  requests : list Request
}.

Definition with_elastic (es : gmap string Index) (w : World) : World :=
  mkWorld es (contentContainer w) (contentFiles w) (faults w) (requests w).

Definition with_contentFiles (fs : list string) (w : World) : World :=
  mkWorld (elastic w) (contentContainer w) fs (faults w) (requests w).

(** The errors of the search-engine client carry the HTTP status as a
    string in [status]; those of the blob-store client carry it as a
    number in [statusCode]. *)
Definition elastic_error (code : string) (msg : string) : Error :=
  mkError msg None (Some (JStr code)).

Definition files_error (code : Z) (msg : string) : Error :=
  mkError msg (Some (JNum code)) None.

(** Index expressions: a name, or a prefix followed by [*]. *)
Fixpoint wildcard (pat name : string) : bool :=
  match pat with
  | EmptyString => match name with EmptyString => true | _ => false end
  | String c p' =>
      match p' with
      | EmptyString => if Ascii.eqb c "*" then true
                       else String.eqb (String c "") name
      | _ => match name with
             | EmptyString => false
             | String d n' => Ascii.eqb c d && wildcard p' n'
             end
      end
  end.

(** The indices an expression resolves to: those it names and those that
    hold an alias it names. *)
Definition targets (pat : string) (name : string) (ix : Index) : bool :=
  wildcard pat name || existsb (wildcard pat) (elements (aliases ix)).

Definition resolve (pat : string) (es : gmap string Index) : list string :=
  (map_to_list (filter (fun kv => targets pat kv.1 kv.2 = true) es)).*1.

Definition remove_alias (a : string) (ix : Index) : Index :=
  mkIndex (aliases ix ∖ {[a]}) (mappings ix) (docs ix).

Definition add_alias (a : string) (ix : Index) : Index :=
  mkIndex ({[a]} ∪ aliases ix) (mappings ix) (docs ix).

Definition put_mapping (type : string) (m : Mapping) (ix : Index) : Index :=
  mkIndex (aliases ix) ((type, m) :: mappings ix) (docs ix).

Definition delete_doc (id : string) (ix : Index) : Index :=
  mkIndex (aliases ix) (mappings ix) (delete id (docs ix)).

(** One alias action.  Removing an alias acts on every index the
    expression names; adding one needs the index to exist. *)
Definition alias_action (act : AliasAction) (es : gmap string Index)
  : option (gmap string Index) :=
  match act with
  | ActRemove pat a =>
      Some (map_imap (fun name ix =>
              Some (if wildcard pat name then remove_alias a ix else ix)) es)
  | ActAdd name a =>
      match es !! name with
      | Some ix => Some (<[name := add_alias a ix]> es)
      | None => None
      end
  end.

(** The actions of one request take effect together or not at all. *)
Fixpoint alias_actions (acts : list AliasAction) (es : gmap string Index)
  : option (gmap string Index) :=
  match acts with
  | [] => Some es
  | act :: rest =>
      match alias_action act es with
      | Some es' => alias_actions rest es'
      | None => None
      end
  end.

(** What the services answer to a request that reaches them. *)
Definition serve (r : Request) (w : World) : World * Reply :=
  match r with
  | ConnectionSetup => (w, Answered 200 [])
  | IndicesCreate name ignore =>
      match elastic w !! name with
      | Some _ =>
          match ignore with
          | Some 400%Z => (w, Answered 400 [])
          | _ => (w, Failed (elastic_error "400" "index already exists"))
          end
      | None =>
          (with_elastic (<[name := mkIndex ∅ [] ∅]> (elastic w)) w,
           Answered 200 [])
      end
  | IndicesPutMapping name type body =>
      match elastic w !! name with
      | Some ix =>
          (with_elastic (<[name := put_mapping type body ix]> (elastic w)) w,
           Answered 200 [])
      | None => (w, Failed (elastic_error "404" "no such index"))
      end
  | IndicesUpdateAliases acts =>
      match alias_actions acts (elastic w) with
      | Some es => (with_elastic es w, Answered 200 [])
      | None => (w, Failed (elastic_error "404" "no such index"))
      end
  | IndicesGet pat => (w, Answered 200 (resolve pat (elastic w)))
  | IndicesDelete name =>
      match elastic w !! name with
      | Some _ => (with_elastic (delete name (elastic w)) w, Answered 200 [])
      | None => (w, Failed (elastic_error "404" "no such index"))
      end
  | ElasticDelete target type id =>
      match resolve target (elastic w) with
      | [name] =>
          match elastic w !! name with
          | Some ix =>
              match docs ix !! id with
              | Some _ =>
                  (with_elastic (<[name := delete_doc id ix]> (elastic w)) w,
                   Answered 200 [])
              | None => (w, Failed (elastic_error "404" "Not Found"))
              end
          | None => (w, Failed (elastic_error "404" "no such index"))
          end
      | [] => (w, Failed (elastic_error "404" "no such index"))
      | _ => (w, Failed (elastic_error "400" "alias has more than one index"))
      end
  | RemoveFile container remote =>
      if bool_decide (container = contentContainer w ∧ remote ∈ contentFiles w)
      then (with_contentFiles
              (List.filter (fun n => negb (String.eqb n remote))
                 (contentFiles w)) w,
            Answered 204 [])
      else (w, Failed (files_error 404 "Not Found"))
  | GetFiles container limit marker =>
      if bool_decide (container = contentContainer w)
      then (w, Answered 200
                 (take limit
                    (List.filter (fun n => match marker with
                                           | Some m => String.ltb m n
                                           | None => true
                                           end) (contentFiles w))))
      else (w, Failed (files_error 404 "Not Found"))
  end.

(** Issue a request: it is logged, the next fault is consumed, and unless
    that fault strikes the services answer. *)
Definition popped (r : Request) (w : World) : World :=
  mkWorld (elastic w) (contentContainer w) (contentFiles w)
          (tail (faults w)) (requests w ++ [r]).

Definition perform (r : Request) (w : World) : World * Reply :=
  match faults w with
  | Some e :: _ => (popped r w, Failed e)
  | _ => serve r (popped r w)
  end.

(** The next [n] requests reach the services; all coming requests do. *)
Definition quiet (n : nat) (w : World) : Prop :=
  Forall (fun f => f = None) (take n (faults w)).

Definition calm (w : World) : Prop :=
  Forall (fun f => f = None) (faults w).

(** The alias of the generation in use, and the name [setup] gives to the
    generation it creates at time [now]. *)
Definition active : string := "envelopes_current".

Definition generation (now : N) : string := "envelopes_" ++ pretty now.

(** ** The driver *)

Section Driver.
Context {rt : Runtime}.

(** [RemoteStorage.prototype.createNewIndex] *)
Definition envelopeMapping : Mapping :=
  [("title", ("string", "analyzed"));
   ("body", ("string", "analyzed"));
   ("keywords", ("string", "analyzed"));
   ("categories", ("string", "not_analyzed"))].

Definition createNewIndex (indexName : string) (w : World)
  : World * option Error :=
  let '(w1, r1) := perform (IndicesCreate indexName None) w in
  match r1 with
  | Failed err => (w1, Some err)
  | Answered _ _ =>
      let '(w2, r2) :=
        perform (IndicesPutMapping indexName "envelope" envelopeMapping) w1 in
      match r2 with
      | Failed err => (w2, Some err)
      | Answered _ _ => (w2, None)
      end
  end.

(** [async.each(indexNames, (name, cb) => indices.delete({index: name}, cb),
    callback)]: every deletion is requested; the results are returned in
    the order of the names. *)
Fixpoint delete_each (indexNames : list string) (w : World)
  : World * list (option Error) :=
  match indexNames with
  | [] => (w, [])
  | name :: rest =>
      let '(w1, r) := perform (IndicesDelete name) w in
      let '(w2, rs) := delete_each rest w1 in
      (w2, match r with Failed err => Some err | Answered _ _ => None end :: rs)
  end.

(** [RemoteStorage.prototype.makeIndexActive] *)
Definition makeIndexActive (indexName : string) (w : World)
  : World * option Error :=
  let '(w1, r1) :=
    perform (IndicesUpdateAliases
               [ActRemove "*" "envelopes_current";
                ActAdd indexName "envelopes_current"]) w in
  match r1 with
  | Failed err => (w1, Some err)
  | Answered _ _ =>
      let '(w2, r2) := perform (IndicesGet "envelopes*") w1 in
      match r2 with
      | Failed err => (w2, Some err)
      | Answered _ response =>
          let indexNames :=
            List.filter (fun n => negb (String.eqb n indexName)) response in
          let '(w3, results) := delete_each indexNames w2 in
          (w3, Async.first_error results)
      end
  end.

(** [RemoteStorage.prototype.setup]; [now] is the value of [Date.now()]. *)
Definition setup (now : N) (w : World) : World * option Error :=
  let '(w1, r1) := perform ConnectionSetup w in
  match r1 with
  | Failed err => (w1, Some err)
  | Answered _ _ =>
      let '(w2, r2) := perform (IndicesCreate "latch" (Some 400%Z)) w1 in
      match r2 with
      | Failed err => (w2, Some err)
      | Answered status _ =>
          if (status =? 400)%Z then (w2, None)
          else
            let indexName := "envelopes_" ++ pretty now in
            let '(w3, e3) := createNewIndex indexName w2 in
            match e3 with
            | Some err => (w3, Some err)
            | None => makeIndexActive indexName w3
            end
      end
  end.

(** [RemoteStorage.prototype.deleteContent] *)
Definition deleteContent (contentID : string) (w : World)
  : World * option Error :=
  let '(w1, r) :=
    perform (RemoveFile (contentContainer w) (encodeURIComponent contentID)) w in
  match r with
  | Failed err =>
      if strict_eq_num (statusCode err) 404 then (w1, None)
      else (w1, Some err)
  | Answered _ _ => (w1, None)
  end.

(** [RemoteStorage.prototype.unindexContent] *)
Definition unindexContent (contentID : string) (w : World)
  : World * option Error :=
  let '(w1, r) :=
    perform (ElasticDelete "envelopes_current" "envelope" contentID) w in
  match r with
  | Failed err =>
      if strict_eq_str (status err) "404" then (w1, None)
      else (w1, Some err)
  | Answered _ _ => (w1, None)
  end.

(** [RemoteStorage.prototype.listContent].  What the caller's callback
    receives, in order. *)
Inductive Delivery : Type :=
| Page (fileNames : list string)
| ListFailed (err : Error)
| Thrown (err : Error).

Definition perPage : nat := 10000.

(** [consumer] tells, for a page handed to the callback, whether the
    callback goes on to call [next].  [fuel] bounds the number of pages
    requested; [None] means that the bound was reached. *)
Fixpoint nextPage (fuel : nat) (consumer : list string -> bool)
    (marker : option string) (w : World) : option (World * list Delivery) :=
  match fuel with
  | O => None
  | S fuel' =>
      let '(w1, r) :=
        perform (GetFiles (contentContainer w) perPage marker) w in
      match r with
      | Failed err => Some (w1, [ListFailed err])
      | Answered _ files =>
          match mapM decodeURIComponent files with
          | None => Some (w1, [Thrown (URIError "URI malformed")])
          | Some fileNames =>
              if consumer fileNames then
                if (length fileNames =? 0)%nat then
                  Some (w1, [Page fileNames])
                else if (length fileNames <? perPage)%nat then
                  Some (w1, [Page fileNames; Page []])
                else
                  match nextPage fuel' consumer (last fileNames) w1 with
                  | Some (w2, ds) => Some (w2, Page fileNames :: ds)
                  | None => None
                  end
              else Some (w1, [Page fileNames])
          end
      end
  end.

Definition listContent (fuel : nat) (consumer : list string -> bool)
    (w : World) : option (World * list Delivery) :=
  nextPage fuel consumer None w.

End Driver.

End Remote.

(* ===================================================================== *)
(** * The storage facade, as the routes see it                            *)
(* ===================================================================== *)

Module Storage.
Import Js.

(** The calls the routes make on [require('../../storage')]. *)
Inductive Call : Type :=
| StoreStagingEnvelope (contentID : string) (envelope : Json)
| IndexStagingEnvelope (contentID : string) (envelope : Json)
| DeleteStagingEnvelope (contentID : string)
| BulkDeleteStagingEnvelopes (contentIDs : list string)
| UnindexStagingEnvelope (contentID : string)
| BulkUnindexStagingEnvelopes (contentIDs : list string)
| ListStagingEnvelopes (prefix : Json).

(** How a route function begins an asynchronous operation: by deferring
    its callback with [process.nextTick], or by handing a list of facade
    calls to [async.parallel]. *)
Inductive Started : Type :=
| NextTick
| Parallel (calls : list Call).

Definition calls_of (s : Started) : list Call :=
  match s with
  | NextTick => []
  | Parallel cs => cs
  end.

(** A realization of the facade over some state [S]: what a call does to
    the state and what its callback receives. *)
Definition Facade (S : Type) : Type := Call -> S -> S * option Error.

Fixpoint exec_all {S : Type} (f : Facade S) (cs : list Call) (s : S)
  : S * list (option Error) :=
  match cs with
  | [] => (s, [])
  | c :: rest =>
      let '(s1, r) := f c s in
      let '(s2, rs) := exec_all f rest s1 in
      (s2, r :: rs)
  end.

(** Run a started operation to completion against a facade: the final
    state and the argument of the operation's callback. *)
Definition complete {S : Type} (f : Facade S) (st : Started) (s : S)
  : S * option Error :=
  match st with
  | NextTick => (s, None)
  | Parallel cs =>
      let '(s', rs) := exec_all f cs s in (s', Async.first_error rs)
  end.

End Storage.

(* ===================================================================== *)
(** * src/routes/staging_content/store.js                                 *)
(* ===================================================================== *)

Module Store.
Import Js Storage.

(** [storeStagingEnvelope] *)
Definition storeStagingEnvelope (contentID : string) (envelope : Json)
  : Started :=
  Parallel [StoreStagingEnvelope contentID envelope;
            IndexStagingEnvelope contentID envelope].

End Store.

(* ===================================================================== *)
(** * src/routes/staging_content/remove.js                                *)
(* ===================================================================== *)

Module Remove.
Import Js Storage.

(** [removeStagingEnvelopes] *)
Definition removeStagingEnvelopes (contentIDs : list string) : Started :=
  if (length contentIDs =? 0)%nat then NextTick
  else
    let kvDelete :=
      match contentIDs with
      | [contentID] => DeleteStagingEnvelope contentID
      | _ => BulkDeleteStagingEnvelopes contentIDs
      end in
    let ftsDelete :=
      match contentIDs with
      | [contentID] => UnindexStagingEnvelope contentID
      | _ => BulkUnindexStagingEnvelopes contentIDs
      end in
    Parallel [kvDelete; ftsDelete].

(** The properties the module assigns on [exports]. *)
Inductive Export : Type :=
| Handler
| RemoveStagingEnvelopes.

(** [require('./remove')[name]]; [None] is [undefined]. *)
Definition require (name : string) : option Export :=
  if String.eqb name "handler" then Some Handler
  else if String.eqb name "removeStagingEnvelopes" then Some RemoveStagingEnvelopes
  else None.

End Remove.

(* ===================================================================== *)
(** * src/routes/staging_content/bulk.js                                  *)
(* ===================================================================== *)

Module Bulk.
Import Js Async Storage.

(** [const removeEnvelopes = require('./remove').removeEnvelopes;] *)
Definition removeEnvelopes : option Remove.Export :=
  Remove.require "removeEnvelopes".

(** An item of [uploadQueue]. *)
Record Task : Type := mkTask {
  contentID : string;
  envelope : Json
}.

(** A tar header, as far as the handler reads it. *)
Record Header : Type := mkHeader {
  type : string;
  name : string
}.

(** What [res.send] is given. *)
Inductive Body : Type :=
| Payload (accepted failed deleted : nat)
| ErrorBody (err : Error).

Record Response : Type := mkResponse {
  code : Z;
  body : Body
}.

(** The variables of the handler's closure. *)
Record Vars : Type := mkVars {
  contentIDBase : option Json;
  envelopeCount : nat;
  failureCount : nat;
  deletionCount : nat;
  toKeep : gmap string bool
}.

(** What the handler has done to the outside: responses sent, calls of
    [next], calls on the storage facade, and exceptions that escaped a
    callback. *)
Record Out : Type := mkOut {
  sent : list Response;
  nexts : list (option Error);
  issued : list Call;
  thrown : list Error
}.

(** The archive decoder ([extract]) as the handler sees it: still
    decoding, finished, failed, or still open behind a gunzip stream that
    has failed and will never end it. *)
Inductive Decoder : Type :=
| Decoding
| Finished
| Broken
| Stalled.

(** One request in progress.  [jobs] are the [storeStagingEnvelope]
    operations begun by the workers, in the order they were begun;
    [finishRequests] counts the entries into [finishRequest]. *)
Record State : Type := mkState {
  vars : Vars;
  uploadQueue : Queue Task;
  jobs : list (Task * Group);
  decoder : Decoder;
  out : Out;
  finishRequests : nat
}.

Definition init : State :=
  mkState (mkVars None 0 0 0 ∅) (queue 10) [] Decoding (mkOut [] [] [] []) 0.

Definition with_vars (v : Vars) (st : State) : State :=
  mkState v (uploadQueue st) (jobs st) (decoder st) (out st) (finishRequests st).

Definition with_queue (q : Queue Task) (st : State) : State :=
  mkState (vars st) q (jobs st) (decoder st) (out st) (finishRequests st).

Definition with_jobs (js : list (Task * Group)) (st : State) : State :=
  mkState (vars st) (uploadQueue st) js (decoder st) (out st) (finishRequests st).

Definition with_decoder (d : Decoder) (st : State) : State :=
  mkState (vars st) (uploadQueue st) (jobs st) d (out st) (finishRequests st).

Definition with_out (o : Out) (st : State) : State :=
  mkState (vars st) (uploadQueue st) (jobs st) (decoder st) o (finishRequests st).

Definition send (c : Z) (b : Body) (st : State) : State :=
  with_out (mkOut (sent (out st) ++ [mkResponse c b]) (nexts (out st))
                  (issued (out st)) (thrown (out st))) st.

Definition next (err : option Error) (st : State) : State :=
  with_out (mkOut (sent (out st)) (nexts (out st) ++ [err])
                  (issued (out st)) (thrown (out st))) st.

Definition issue (cs : list Call) (st : State) : State :=
  with_out (mkOut (sent (out st)) (nexts (out st))
                  (issued (out st) ++ cs) (thrown (out st))) st.

Definition throw (err : Error) (st : State) : State :=
  with_out (mkOut (sent (out st)) (nexts (out st))
                  (issued (out st)) (thrown (out st) ++ [err])) st.

(** [failureCount++], [envelopeCount++], [deletionCount = n],
    [contentIDBase = v], [toKeep[key] = true]. *)
Definition count_failure (st : State) : State :=
  let v := vars st in
  with_vars (mkVars (contentIDBase v) (envelopeCount v) (S (failureCount v))
                    (deletionCount v) (toKeep v)) st.

Definition count_envelope (st : State) : State :=
  let v := vars st in
  with_vars (mkVars (contentIDBase v) (S (envelopeCount v)) (failureCount v)
                    (deletionCount v) (toKeep v)) st.

Definition set_deletionCount (n : nat) (st : State) : State :=
  let v := vars st in
  with_vars (mkVars (contentIDBase v) (envelopeCount v) (failureCount v)
                    n (toKeep v)) st.

Definition set_contentIDBase (b : Json) (st : State) : State :=
  let v := vars st in
  with_vars (mkVars (Some b) (envelopeCount v) (failureCount v)
                    (deletionCount v) (toKeep v)) st.

Definition keep (key : string) (st : State) : State :=
  let v := vars st in
  with_vars (mkVars (contentIDBase v) (envelopeCount v) (failureCount v)
                    (deletionCount v) (<[key := true]> (toKeep v))) st.

(** [toKeep[id]], read as a condition.  [toKeep] is a plain object: the
    map holds the keys the handler has assigned, and a key assigned to no
    value is still found, and truthy, when [Object.prototype] has a
    property of that name.  (Assigning [true] to [__proto__] has no
    effect; the key reads as truthy either way.) *)
Definition kept (m : gmap string bool) (id : string) : bool :=
  inherited id
  || match m !! id with
     | Some b => b
     | None => false
     end.

(** [reportError(err, entryPath, description, fatal)] *)
Definition reportError (err : Error) (fatal : bool) (st : State) : State :=
  if fatal then next (Some (with_statusCode 400 err)) st else st.

(** The callback [handleConfigEntry] gives to [jsonFromStream].  A
    TypeError raised by the callback is caught by [jsonFromStream], which
    calls the callback again with it: the error is reported, not fatal. *)
Definition handleConfigEntry (parsed : Error + Json) (st : State) : State :=
  match parsed with
  | inl err => reportError err false st
  | inr config =>
      match get config "contentIDBase" with
      | None => reportError (TypeError "Cannot read property of null") false st
      | Some v =>
          match v with
          | Some base =>
              if truthy base then set_contentIDBase base st
              else reportError (mkError "Missing required key: contentIDBase"
                                  None None) false st
          | None => reportError (mkError "Missing required key: contentIDBase"
                                   None None) false st
          end
      end
  end.

Section Handler.
Context {rt : Runtime}.

(** [keep.keep.forEach((contentID) => { toKeep[contentID] = true; })]: an
    element that cannot become a property key throws; the elements before
    it have been kept, and [jsonFromStream] hands the TypeError back to its
    callback, which reports it. *)
Fixpoint keep_each (ids : list Json) (st : State) : State :=
  match ids with
  | [] => st
  | id :: rest =>
      match to_string id with
      | Some key => keep_each rest (keep key st)
      | None =>
          reportError (TypeError "Cannot convert object to primitive value")
            false st
      end
  end.

(** [handleKeepEntry] *)
Definition handleKeepEntry (parsed : Error + Json) (st : State) : State :=
  match parsed with
  | inl err => reportError err false st
  | inr manifest =>
      match get manifest "keep" with
      | None => reportError (TypeError "Cannot read property of null") false st
      | Some v =>
          if truthy_opt v then
            match v with
            | Some (JArr ids) => keep_each ids st
            | _ => reportError (TypeError "keep.keep.forEach is not a function")
                     false st
            end
          else reportError (mkError "Missing required key: keep" None None)
                 false st
      end
  end.

(** [handleStagingEnvelopeEntry]: the entry's contentID is recorded in
    [toKeep] first; what [jsonFromStream] makes of the body comes after. *)
Definition handleStagingEnvelopeEntry (entryPath : string)
    (parsed : Error + Json) (st : State) : State :=
  let encodedContentID := path_basename_ext entryPath ".json" in
  match decodeURIComponent encodedContentID with
  | None => throw (URIError "URI malformed") st
  | Some contentID =>
      let st1 := keep contentID st in
      match parsed with
      | inl err => reportError err false (count_failure st1)
      | inr envelope =>
          with_queue (push (mkTask contentID envelope) (uploadQueue st1)) st1
      end
  end.

(** The listener of the decoder's [entry] event. *)
Definition on_entry (header : Header) (parsed : Error + Json) (st : State)
  : State :=
  if negb (String.eqb (type header) "file") then st
  else
    let entryPath := name header in
    let dirs := split path_sep (path_dirname entryPath) in
    let bname := path_basename entryPath in
    if match last dirs with
       | Some dname => String.eqb dname "metadata"
       | None => false
       end
    then
      if String.eqb bname "config.json" then handleConfigEntry parsed st
      else if String.eqb bname "keep.json" then handleKeepEntry parsed st
      else st
    else if endsWith bname ".json" then
      handleStagingEnvelopeEntry entryPath parsed st
    else st.

End Handler.

(** [reportCompletion] *)
Definition reportCompletion (st : State) : State :=
  let v := vars st in
  let payload := Payload (envelopeCount v) (failureCount v) (deletionCount v) in
  let statusCode := if (failureCount v =? 0)%nat then 200%Z else 500%Z in
  next None (send statusCode payload st).

(** What the storage facade answers during reconciliation: the contentIDs
    a listing hands over before it ends, or the error it ends with; and the
    result of each deletion call. *)
Record Env : Type := mkEnv {
  listStagingEnvelopes : Json -> Error + list string;
  removal : Call -> option Error
}.

(** The callback [finishRequest] gives to [removeDeletedStagingContent]. *)
Definition reconciled (err : option Error) (st : State) : State :=
  match err with
  | Some e => reportCompletion (reportError e true st)
  | None => reportCompletion st
  end.

(** The filter of [removeDeletedStagingContent]. *)
Definition toDelete (existingContentIDs : list string) (m : gmap string bool)
  : list string :=
  List.filter (fun id => negb (kept m id)) existingContentIDs.

(** [removeDeletedStagingContent], continued by [cb]. *)
Definition removeDeletedStagingContent (env : Env)
    (cb : option Error -> State -> State) (st : State) : State :=
  match contentIDBase (vars st) with
  | None => cb None st
  | Some base =>
      let st1 := issue [ListStagingEnvelopes base] st in
      match listStagingEnvelopes env base with
      | inl err => cb (Some err) st1
      | inr existingContentIDs =>
          let ids := toDelete existingContentIDs (toKeep (vars st1)) in
          let st2 := set_deletionCount (length ids) st1 in
          match removeEnvelopes with
          | Some Remove.RemoveStagingEnvelopes =>
              let started := Remove.removeStagingEnvelopes ids in
              let st3 := issue (calls_of started) st2 in
              cb (first_error (List.map (removal env) (calls_of started))) st3
          | Some Remove.Handler =>
              throw (TypeError "Cannot read property 'id' of undefined") st2
          | None => throw (TypeError "removeEnvelopes is not a function") st2
          end
      end
  end.

(** [finishRequest] *)
Definition finishRequest (env : Env) (st : State) : State :=
  let st' := mkState (vars st) (uploadQueue st) (jobs st) (decoder st)
                     (out st) (S (finishRequests st)) in
  removeDeletedStagingContent env reconciled st'.

(** [envelopeStagingWorker], up to its call of [storeStagingEnvelope]. *)
Definition envelopeStagingWorker (task : Task) : Started :=
  Store.storeStagingEnvelope (contentID task) (envelope task).

(** The callback [envelopeStagingWorker] gives to [storeStagingEnvelope],
    up to and including its call of the queue's [cb]. *)
Definition worker_done (env : Env) (err : option Error) (st : State) : State :=
  let st1 := match err with
             | Some e => reportError e false (count_failure st)
             | None => count_envelope st
             end in
  let '(q, drained) := Async.next (uploadQueue st1) in
  let st2 := with_queue q st1 in
  if drained && drain_armed q then finishRequest env st2 else st2.

(** The listener of the decoder's [finish] event. *)
Definition on_finish (env : Env) (st : State) : State :=
  let st1 := with_decoder Finished st in
  if (0 <? running (uploadQueue st1))%nat
  then with_queue (arm_drain (uploadQueue st1)) st1
  else finishRequest env st1.

(** The listener of the decoder's [error] event. *)
Definition on_error (err : Error) (st : State) : State :=
  next None (send 400 (ErrorBody err) (with_decoder Broken st)).

(** [req.pipe(zlib.createGunzip()).pipe(extract)]: the handler listens for
    [error] on the extractor only.  When the gunzip stream fails, its
    [error] event finds no listener of the handler and is thrown.  The
    stream delivers nothing more and never ends, so the extractor is never
    ended and never emits [finish]; what it was given before the failure
    it may still emit as entries, or fail on. *)
Definition on_gunzip_error (err : Error) (st : State) : State :=
  throw err
    (match decoder st with
     | Decoding => with_decoder Stalled st
     | _ => st
     end).

(** ** The request as a transition system

    What can happen while a request is served: the decoder emits an entry
    (its body read and parsed), fails, or finishes; the gunzip stream in
    front of it fails; the queue hands a waiting task to a worker; one of
    the two writes of a job completes ([op] 0 is the document-store write,
    1 the search-index write).  The gunzip stream can fail once, as long
    as it has not ended, that is before the decoder finishes, also after
    the decoder has failed. *)
Inductive Event : Type :=
| Entry (header : Header) (parsed : Error + Json)
| ArchiveError (err : Error)
| GunzipError (err : Error)
| Finish
| Process
| Settle (job : nat) (op : nat) (r : option Error).

Section Steps.
Context {rt : Runtime}.

Definition step (env : Env) (ev : Event) (st : State) : option State :=
  match ev with
  | Entry header parsed =>
      match decoder st with
      | Decoding | Stalled => Some (on_entry header parsed st)
      | _ => None
      end
  | ArchiveError err =>
      match decoder st with
      | Decoding | Stalled => Some (on_error err st)
      | _ => None
      end
  | GunzipError err =>
      match decoder st with
      | Decoding | Broken => Some (on_gunzip_error err st)
      | _ => None
      end
  | Finish =>
      match decoder st with
      | Decoding => Some (on_finish env st)
      | _ => None
      end
  | Process =>
      match process (uploadQueue st) with
      | Some (task, q) =>
          let started := envelopeStagingWorker task in
          Some (issue (calls_of started)
                  (with_jobs (jobs st ++ [(task, start (length (calls_of started)))])
                     (with_queue q st)))
      | None => None
      end
  | Settle j i r =>
      match jobs st !! j with
      | Some (task, g) =>
          match ops g !! i with
          | Some Pending =>
              let '(g', fired) := resolve i r g in
              let st1 := with_jobs (<[j := (task, g')]> (jobs st)) st in
              match fired with
              | Some err => Some (worker_done env err st1)
              | None => Some st1
              end
          | _ => None
          end
      | None => None
      end
  end.

Fixpoint run (env : Env) (evs : list Event) (st : State) : option State :=
  match evs with
  | [] => Some st
  | ev :: rest =>
      match step env ev st with
      | Some st' => run env rest st'
      | None => None
      end
  end.

(** ** Vocabulary of the properties *)

(** The entries the router hands to [handleStagingEnvelopeEntry], and the
    contentID such an entry stands for. *)
Definition is_record (header : Header) : bool :=
  String.eqb (type header) "file"
  && negb match last (split path_sep (path_dirname (name header))) with
          | Some dname => String.eqb dname "metadata"
          | None => false
          end
  && endsWith (path_basename (name header)) ".json".

Definition record_id (header : Header) : option string :=
  if is_record header
  then decodeURIComponent (path_basename_ext (name header) ".json")
  else None.

(** The events that are a content record whose body does not parse. *)
Definition unparsed (ev : Event) : bool :=
  match ev with
  | Entry header (inl _) =>
      match record_id header with Some _ => true | None => false end
  | _ => false
  end.

End Steps.

(** A job is accepted when both of its writes have succeeded, rejected
    when one of them has failed. *)
Definition failed (o : Op) : bool :=
  match o with Resolved (Some _) => true | _ => false end.

Definition accepted (job : Task * Group) : bool :=
  forallb succeeded (ops job.2).

Definition rejected (job : Task * Group) : bool :=
  existsb failed (ops job.2).

Definition reported (job : Task * Group) : bool := called job.2.

(** The number of writes still in flight. *)
Definition in_flight (js : list (Task * Group)) : nat :=
  sum_list_with (fun job => length (List.filter is_pending (ops job.2))) js.

(** The completion report for given values of the counters. *)
Definition report (v : Vars) : Response :=
  mkResponse (if (failureCount v =? 0)%nat then 200%Z else 500%Z)
             (Payload (envelopeCount v) (failureCount v) (deletionCount v)).

(** "The outcome of every job is reported only after both of its writes
    have resolved." *)
Definition outcome_after_both (st : State) : Prop :=
  forall job, job ∈ jobs st -> reported job = true ->
    Forall (fun o => is_pending o = false) (ops job.2).

(** ** Invariants of a request *)

Definition bit (b : bool) : nat := if b then 1%nat else 0%nat.

(** A job has two writes, and its outcome has been reported exactly when
    both have succeeded or one has failed. *)
Definition job_ok (job : Task * Group) : Prop :=
  length (ops job.2) = 2%nat /\ reported job = accepted job || rejected job.

(** The parts of the state the [entry] listener leaves alone, and those
    [finishRequest] leaves alone. *)
Definition same_control (st st' : State) : Prop :=
  jobs st' = jobs st /\ decoder st' = decoder st
  /\ finishRequests st' = finishRequests st
  /\ workers (uploadQueue st') = workers (uploadQueue st)
  /\ concurrency (uploadQueue st') = concurrency (uploadQueue st)
  /\ drain_armed (uploadQueue st') = drain_armed (uploadQueue st)
  /\ sent (out st') = sent (out st)
  /\ issued (out st') = issued (out st)
  /\ envelopeCount (vars st') = envelopeCount (vars st)
  /\ deletionCount (vars st') = deletionCount (vars st).

Definition same_work (st st' : State) : Prop :=
  uploadQueue st' = uploadQueue st /\ jobs st' = jobs st
  /\ decoder st' = decoder st
  /\ contentIDBase (vars st') = contentIDBase (vars st)
  /\ envelopeCount (vars st') = envelopeCount (vars st)
  /\ failureCount (vars st') = failureCount (vars st)
  /\ toKeep (vars st') = toKeep (vars st).

(** The work left once decoding has ended: each waiting task stands for
    a start and two completions, each write in flight for one. *)
Definition measure (st : State) : nat :=
  (3 * length (tasks (uploadQueue st)) + in_flight (jobs st))%nat.

Section Invariant.
Context {rt : Runtime}.

(** What holds of every state reached by the events [evs]. *)
Record Inv (evs : list Event) (st : State) : Prop := mkInv {
  inv_concurrency : concurrency (uploadQueue st) = 10%nat;
  inv_jobs : Forall job_ok (jobs st);
  inv_workers :
    workers (uploadQueue st)
    = length (List.filter (fun job => negb (reported job)) (jobs st));
  inv_accepted :
    envelopeCount (vars st) = length (List.filter accepted (jobs st));
  inv_failures :
    failureCount (vars st)
    = (length (List.filter unparsed evs)
       + length (List.filter rejected (jobs st)))%nat;
  inv_kept : forall h p cid, Entry h p ∈ evs -> record_id h = Some cid ->
    kept (toKeep (vars st)) cid = true;
  inv_completion :
    match decoder st with
    | Finished =>
        (finishRequests st = 1%nat /\ drain_armed (uploadQueue st) = false)
        \/ (drain_armed (uploadQueue st) = true
            /\ finishRequests st = bit (idle (uploadQueue st)))
    | _ => finishRequests st = 0%nat /\ drain_armed (uploadQueue st) = false
    end;
  inv_sent :
    match decoder st with
    | Broken => exists err, ArchiveError err ∈ evs
                  /\ sent (out st) = [mkResponse 400 (ErrorBody err)]
    | _ => (length (sent (out st)) <= finishRequests st)%nat
    end
}.

End Invariant.

End Bulk.

(* ===================================================================== *)
(** * A runtime and sample data for the worked examples                   *)
(* ===================================================================== *)

Module Example.
Import Js.

Definition hex_value (c : ascii) : option nat :=
  let n := nat_of_ascii c in
  if (48 <=? n)%nat && (n <=? 57)%nat then Some (n - 48)%nat
  else if (65 <=? n)%nat && (n <=? 70)%nat then Some (n - 55)%nat
  else if (97 <=? n)%nat && (n <=? 102)%nat then Some (n - 87)%nat
  else None.

Definition hex_digit (n : nat) : ascii :=
  if (n <? 10)%nat then ascii_of_nat (48 + n) else ascii_of_nat (55 + n).

(** Percent-decoding of escapes below [%80]; anything else that needs
    decoding is refused. *)
Fixpoint decode (s : string) : option string :=
  match s with
  | EmptyString => Some ""
  | String c rest =>
      if Ascii.eqb c "%" then
        match rest with
        | String h (String l rest') =>
            match hex_value h, hex_value l, decode rest' with
            | Some a, Some b, Some t =>
                if (16 * a + b <? 128)%nat
                then Some (String (ascii_of_nat (16 * a + b)) t)
                else None
            | _, _, _ => None
            end
        | _ => None
        end
      else match decode rest with
           | Some t => Some (String c t)
           | None => None
           end
  end.

Definition unreserved (c : ascii) : bool :=
  let n := nat_of_ascii c in
  ((48 <=? n) && (n <=? 57) || (65 <=? n) && (n <=? 90)
   || (97 <=? n) && (n <=? 122))%nat
  || existsb (Ascii.eqb c) ["-"; "_"; "."; "!"; "~"; "*"; "'"; "("; ")"]%char.

Fixpoint encode (s : string) : string :=
  match s with
  | EmptyString => ""
  | String c rest =>
      if unreserved c then String c (encode rest)
      else let n := nat_of_ascii c in
           String "%" (String (hex_digit (n / 16))
                         (String (hex_digit (n mod 16)) (encode rest)))
  end.

(** The part of a path after its last slash, and the part before it. *)
Fixpoint basename (p : string) : string :=
  match p with
  | EmptyString => ""
  | String c rest =>
      if existsb (Ascii.eqb "/") (list_ascii_of_string rest) then basename rest
      else if Ascii.eqb c "/" then rest else p
  end.

Definition dirname (p : string) : string :=
  let n := (String.length p - String.length (basename p))%nat in
  match n with
  | O => "."
  | 1 => "/"
  | S k => String.substring 0 k p
  end.

Definition basename_ext (p ext : string) : string :=
  let b := basename p in
  if endsWith b ext && negb (String.eqb b ext)
  then String.substring 0 (String.length b - String.length ext) b
  else b.

(** Numbers print as decimal numerals, as JavaScript prints the integers
    below 10^21. *)
#[export] Instance posix : Runtime := {|
  decodeURIComponent := decode;
  encodeURIComponent := encode;
  number_to_string := pretty;
  path_sep := "/"%char;
  path_dirname := dirname;
  path_basename := basename;
  path_basename_ext := basename_ext
|}.

Definition digits : list string :=
  ["0"; "1"; "2"; "3"; "4"; "5"; "6"; "7"; "8"; "9"].

(** The names [0000] ... [9999], in ascending order. *)
Definition ten_thousand_names : list string :=
  a ← digits; b ← digits; c ← digits; d ← digits; [a ++ b ++ c ++ d].


(** A search engine with the latch, one generation in use and one freshly
    built, and a content container with one envelope. *)
Definition in_use : Remote.Index :=
  Remote.mkIndex {["envelopes_current"]} [] {["X/a" := JObj []]}.

Definition rotating : Remote.World :=
  Remote.mkWorld
    (<["latch" := Remote.mkIndex ∅ [] ∅]>
       (<["envelopes_1" := in_use]>
          (<["envelopes_2" := Remote.mkIndex ∅ [] ∅]> ∅)))
    "content" ["X%2Fa"] [] [].

(** A search engine and a blob store nobody has set up yet. *)
Definition blank : Remote.World := Remote.mkWorld ∅ "content" [] [] [].

(** An archive with the entries [metadata/config.json] and [X%2Fa.json],
    the storage facade holding [X/a] and [X/c] under the prefix [X], and a
    failure of a write. *)
Definition config_entry : Bulk.Event :=
  Bulk.Entry (Bulk.mkHeader "file" "metadata/config.json")
             (inr (JObj [("contentIDBase", JStr "X")])).

Definition record_header : Bulk.Header := Bulk.mkHeader "file" "X%2Fa.json".

Definition record_entry : Bulk.Event :=
  Bulk.Entry record_header (inr (JObj [("title", JStr "a")])).

Definition facade : Bulk.Env :=
  Bulk.mkEnv (fun _ => inr ["X/a"; "X/c"]) (fun _ => None).

Definition write_failed : Error := mkError "write failed" None None.

End Example.

(* ===================================================================== *)
(** * src/routes/staging_content/store.js: the request handler            *)
(* ===================================================================== *)

Module StoreRoute.
Import Js Storage.

(** What a handler does to its caller, in order: [res.send(code)], and
    [next()] or [next(err)]. *)
Inductive Action : Type :=
| Sent (code : Z)
| Next (err : option Error).

(** [exports.handler].  [results] gives, for each call handed to the
    storage facade, what its callback receives. *)
Definition handler (contentID : string) (envelope : Json)
    (results : Call -> option Error) : list Call * list Action :=
  let started := Store.storeStagingEnvelope contentID envelope in
  (calls_of started,
   match Async.first_error (List.map results (calls_of started)) with
   | Some err => [Next (Some err)]
   | None => [Sent 204; Next None]
   end).

End StoreRoute.

(* ===================================================================== *)
(** * src/routes/staging_content/remove.js: the request handler           *)
(* ===================================================================== *)

Module RemoveRoute.
Import Js Storage StoreRoute.

(** [a || b] on possibly undefined values. *)
Definition or_else (a b : option Json) : option Json :=
  if truthy_opt a then a else b.

(** [handleError], up to its call of [next]:
    [err.statusCode = err.statusCode || err.status || 500]. *)
Definition handleError (err : Error) : Error :=
  mkError (message err)
          (or_else (or_else (statusCode err) (status err)) (Some (JNum 500)))
          (status err).

(** [completeRemoval] *)
Definition completeRemoval (contentIDs : list string)
    (results : Call -> option Error) : list Call * list Action :=
  let started := Remove.removeStagingEnvelopes contentIDs in
  (calls_of started,
   match Async.first_error (List.map results (calls_of started)) with
   | Some err => [Next (Some (handleError err))]
   | None => [Sent 204; Next None]
   end).

(** [exports.handler]: [contentID] is [req.params.id], [prefix] is
    [req.query.prefix]; [listing] is what [storage.listStagingEnvelopes]
    hands over for a prefix. *)
Definition handler (contentID : string) (prefix : option Json)
    (listing : Json -> Error + list string)
    (results : Call -> option Error) : list Call * list Action :=
  if negb (truthy_opt prefix) then completeRemoval [contentID] results
  else
    match listing (JStr contentID) with
    | inl err =>
        ([ListStagingEnvelopes (JStr contentID)], [Next (Some (handleError err))])
    | inr contentIDs =>
        let '(calls, replies) := completeRemoval contentIDs results in
        (ListStagingEnvelopes (JStr contentID) :: calls, replies)
    end.

(** The contentIDs a call removes from the document store, and from the
    search index. *)
Definition deleted_by (c : Call) : list string :=
  match c with
  | DeleteStagingEnvelope contentID => [contentID]
  | BulkDeleteStagingEnvelopes contentIDs => contentIDs
  | _ => []
  end.

Definition unindexed_by (c : Call) : list string :=
  match c with
  | UnindexStagingEnvelope contentID => [contentID]
  | BulkUnindexStagingEnvelopes contentIDs => contentIDs
  | _ => []
  end.

End RemoveRoute.

(* ===================================================================== *)
(** * What an archive asks for                                            *)
(* ===================================================================== *)

Module Archive.
Import Js Async Storage Bulk.

Section Reading.
Context {rt : Runtime}.

(** The entries the router hands to [handleConfigEntry], and to
    [handleKeepEntry]. *)
Definition in_metadata (header : Header) : bool :=
  String.eqb (type header) "file"
  && match last (split path_sep (path_dirname (name header))) with
     | Some dname => String.eqb dname "metadata"
     | None => false
     end.

Definition is_config (header : Header) : bool :=
  in_metadata header && String.eqb (path_basename (name header)) "config.json".

Definition is_keep (header : Header) : bool :=
  in_metadata header && String.eqb (path_basename (name header)) "keep.json".

(** The base an event makes the handler capture, if any. *)
Definition captured (ev : Event) : option Json :=
  match ev with
  | Entry header (inr config) =>
      if is_config header then
        match get config "contentIDBase" with
        | Some (Some base) => if truthy base then Some base else None
        | _ => None
        end
      else None
  | _ => None
  end.

Definition last_base (evs : list Event) : option Json :=
  fold_left (fun acc ev => match captured ev with
                           | Some base => Some base
                           | None => acc
                           end) evs None.

(** The property keys of the elements of a keep list, up to the first
    element that has none. *)
Fixpoint keys (ids : list Json) : list string :=
  match ids with
  | [] => []
  | id :: rest =>
      match to_string id with
      | Some key => key :: keys rest
      | None => []
      end
  end.

(** The contentIDs a keep manifest makes the handler keep. *)
Definition manifest_ids (ev : Event) : list string :=
  match ev with
  | Entry header (inr manifest) =>
      if is_keep header then
        match get manifest "keep" with
        | Some (Some (JArr ids)) => keys ids
        | _ => []
        end
      else []
  | _ => []
  end.

(** The contentIDs an event puts out of reach of reconciliation: that of
    a content record, and those of a keep manifest. *)
Definition protects (ev : Event) : list string :=
  match ev with
  | Entry header _ =>
      match record_id header with
      | Some contentID => [contentID]
      | None => []
      end ++ manifest_ids ev
  | _ => []
  end.

Definition protected (evs : list Event) : list string := flat_map protects evs.

(** The task an event puts on the queue, if any; the content records
    among the events. *)
Definition pushed_by (ev : Event) : list Task :=
  match ev with
  | Entry header (inr envelope) =>
      match record_id header with
      | Some contentID => [mkTask contentID envelope]
      | None => []
      end
  | _ => []
  end.

Definition pushed (evs : list Event) : list Task := flat_map pushed_by evs.

Definition is_record_entry (ev : Event) : bool :=
  match ev with
  | Entry header _ =>
      match record_id header with Some _ => true | None => false end
  | _ => false
  end.

Definition records (evs : list Event) : nat :=
  length (List.filter is_record_entry evs).

End Reading.

(** The two writes of a task. *)
Definition writes (task : Task) : list Call :=
  [StoreStagingEnvelope (contentID task) (envelope task);
   IndexStagingEnvelope (contentID task) (envelope task)].

Definition is_write (c : Call) : bool :=
  match c with
  | StoreStagingEnvelope _ _ | IndexStagingEnvelope _ _ => true
  | _ => false
  end.

End Archive.

(* ===================================================================== *)
(** * The order of a container listing                                    *)
(* ===================================================================== *)

Module Listing.

(** The blob store lists object names in ascending order, each once. *)
Fixpoint ascending (names : list string) : bool :=
  match names with
  | a :: rest =>
      match rest with
      | b :: _ => String.ltb a b && ascending rest
      | [] => true
      end
  | [] => true
  end.

(** The deliveries of a listing: pages, then at most one failure. *)
Definition pages_then_failure (ds : list Remote.Delivery) : Prop :=
  ∃ pages rest,
    ds = (List.map Remote.Page pages ++ rest)%list
    ∧ (rest = [] ∨ ∃ err, rest = [Remote.ListFailed err] ∨ rest = [Remote.Thrown err]).

End Listing.

(* ===================================================================== *)
(** * More sample data                                                    *)
(* ===================================================================== *)

Module Sample.
Import Js.

(** An archive entry [metadata/keep.json] naming [X/b], a config that
    does not parse, a second content record, and one whose name is not a
    valid percent-encoding. *)
Definition keep_entry : Bulk.Event :=
  Bulk.Entry (Bulk.mkHeader "file" "metadata/keep.json")
             (inr (JObj [("keep", JArr [JStr "X/b"])])).

Definition unparsed_config : Bulk.Event :=
  Bulk.Entry (Bulk.mkHeader "file" "metadata/config.json")
             (inl (mkError "Unexpected token" None None)).

Definition second_record : Bulk.Event :=
  Bulk.Entry (Bulk.mkHeader "file" "X%2Fd.json") (inr (JObj [("title", JStr "d")])).

Definition unparsed_record : Bulk.Event :=
  Bulk.Entry (Bulk.mkHeader "file" "X%2Fe.json")
             (inl (mkError "Unexpected end of input" None None)).

(** The error of a gunzip stream given a body that is not gzip data, and
    that of a tar decoder given a block that is no header. *)
Definition bad_gzip : Error := mkError "incorrect header check" None None.

Definition bad_tar : Error := mkError "Invalid tar header" None None.

(** A storage facade whose listing fails. *)
Definition listing_failed : Error := mkError "listing failed" None None.

Definition unlistable : Bulk.Env :=
  Bulk.mkEnv (fun _ => inl listing_failed) (fun _ => None).

(** A container of 10001 names that need no decoding, and one of 10001
    names that are percent-encoded contentIDs. *)
Definition long_container : Remote.World :=
  Remote.mkWorld ∅ "content" (Example.ten_thousand_names ++ ["a"])%list [] [].

Definition encoded_container : Remote.World :=
  Remote.mkWorld ∅ "content"
    (List.map (String.append "X%2F") Example.ten_thousand_names ++ ["X%2Fa"])%list
    [] [].

(** A blank engine whose third request will fail, and a blob store whose
    next request will fail with a server error. *)
Definition engine_down : Error := mkError "connection refused" None None.

Definition failing_third : Remote.World :=
  Remote.mkWorld ∅ "content" [] [None; None; Some engine_down] [].

Definition server_error : Error := Remote.files_error 500 "Internal Server Error".

Definition store_down : Remote.World :=
  Remote.mkWorld ∅ "content" ["X%2Fa"] [Some server_error] [].

End Sample.

(* ===================================================================== *)
(** * Properties of the index rotation and of the storage driver          *)
(* ===================================================================== *)

Open Scope list_scope.

Module RemoteFacts.
Import Js Remote.

(** ** Requests *)

Ltac open_world :=
  unfold popped, with_elastic, with_contentFiles in *;
  cbn [serve elastic contentContainer contentFiles faults requests] in *.

Section RemoteProperties.
Context {rt : Runtime}.

Lemma deleteContent_not_found contentID w err :
  (perform (RemoveFile (contentContainer w) (encodeURIComponent contentID)) w).2 = Failed err ->
  statusCode err = Some (JNum 404) ->
  (deleteContent contentID w).2 = None.
Proof.
  unfold deleteContent. destruct (perform _ w) as [w1 r]. simpl. intros -> ->. done.
Qed.

Lemma unindexContent_not_found contentID w err :
  (perform (ElasticDelete "envelopes_current" "envelope" contentID) w).2 = Failed err ->
  status err = Some (JStr "404") ->
  (unindexContent contentID w).2 = None.
Proof.
  unfold unindexContent. destruct (perform _ w) as [w1 r]. simpl. intros -> ->. done.
Qed.

Lemma quiet_perform n r w :
  quiet (S n) w ->
  perform r w = serve r (popped r w) ∧ quiet n (popped r w).
Proof.
  unfold quiet, perform, popped. destruct (faults w) as [|f fs]; simpl.
  - intros _. split; [done|]. by rewrite take_nil.
  - intros H. apply Forall_cons in H as [-> H]. done.
Qed.

(** ** Deleting twice from the content container *)

Lemma elem_of_filter_neqb (x y : string) l :
  x ∈ List.filter (fun n => negb (String.eqb n y)) l ↔ x ∈ l ∧ x ≠ y.
Proof.
  rewrite !list_elem_of_In, filter_In. rewrite negb_true_iff, String.eqb_neq. done.
Qed.

Lemma filter_neqb_id (y : string) l :
  y ∉ l -> List.filter (fun n => negb (String.eqb n y)) l = l.
Proof.
  induction l as [|x l IH]; simpl; [done|].
  intros H. apply not_elem_of_cons in H as [H1 H2].
  destruct (String.eqb_spec x y); [congruence|]. simpl. by rewrite IH.
Qed.

Lemma deleteContent_quiet n contentID w :
  quiet (S n) w ->
  ∃ w1, deleteContent contentID w = (w1, None)
        ∧ quiet n w1
        ∧ contentContainer w1 = contentContainer w
        ∧ elastic w1 = elastic w
        ∧ contentFiles w1
          = List.filter (fun f => negb (String.eqb f (encodeURIComponent contentID)))
              (contentFiles w).
Proof.
  intros Hq. unfold deleteContent.
  destruct (quiet_perform n (RemoveFile (contentContainer w) (encodeURIComponent contentID)) w Hq)
    as [-> Hq1].
  simpl. case_bool_decide as Hin; simpl.
  - eexists. split; [done|]. done.
  - eexists. split; [done|]. repeat split; try done. simpl.
    rewrite filter_neqb_id; [done|]. intros ?. apply Hin. done.
Qed.

Lemma filter_neqb_twice (y : string) l :
  List.filter (fun n => negb (String.eqb n y))
    (List.filter (fun n => negb (String.eqb n y)) l)
  = List.filter (fun n => negb (String.eqb n y)) l.
Proof.
  apply filter_neqb_id. rewrite elem_of_filter_neqb. by intros [_ ?].
Qed.

Lemma deleteContent_twice contentID w :
  quiet 2 w ->
  (deleteContent contentID w).2 = None
  ∧ (deleteContent contentID (deleteContent contentID w).1).2 = None
  ∧ contentFiles (deleteContent contentID (deleteContent contentID w).1).1
    = contentFiles (deleteContent contentID w).1.
Proof.
  intros Hq.
  destruct (deleteContent_quiet 1 contentID w Hq) as (w1 & E1 & Hq1 & _ & _ & Hf1).
  destruct (deleteContent_quiet 0 contentID w1 Hq1) as (w2 & E2 & _ & _ & _ & Hf2).
  rewrite E1. simpl. rewrite E2. simpl.
  repeat split. rewrite Hf2, Hf1. apply filter_neqb_twice.
Qed.

(** ** Removing twice from the active index *)

Lemma elem_of_resolve pat es name :
  name ∈ resolve pat es ↔ ∃ ix, es !! name = Some ix ∧ targets pat name ix = true.
Proof.
  unfold resolve. rewrite list_elem_of_fmap. split.
  - intros [[k ix] [-> H]]. apply elem_of_map_to_list in H.
    apply map_lookup_filter_Some in H as [H1 H2]. eauto.
  - intros (ix & H1 & H2). exists (name, ix). split; [done|].
    apply elem_of_map_to_list. apply map_lookup_filter_Some. done.
Qed.

Lemma NoDup_resolve pat es : NoDup (resolve pat es).
Proof. unfold resolve. apply NoDup_fst_map_to_list. Qed.

Lemma resolve_insert pat es name ix ix' :
  es !! name = Some ix -> aliases ix' = aliases ix ->
  resolve pat (<[name := ix']> es) ≡ₚ resolve pat es.
Proof.
  intros Hl Ha. apply NoDup_Permutation; try apply NoDup_resolve.
  intros x. rewrite !elem_of_resolve. unfold targets.
  destruct (decide (x = name)) as [->|Hne].
  - rewrite lookup_insert_eq, Hl. split; intros (i & [= <-] & H); eexists; split; try done.
    + by rewrite <- Ha.
    + by rewrite Ha.
  - by rewrite lookup_insert_ne.
Qed.

Lemma unindexContent_twice contentID w :
  quiet 2 w ->
  (unindexContent contentID w).2 = None ->
  (unindexContent contentID (unindexContent contentID w).1).2 = None
  ∧ elastic (unindexContent contentID (unindexContent contentID w).1).1
    = elastic (unindexContent contentID w).1.
Proof.
  intros Hq.
  assert (Hone : ∀ n v, quiet (S n) v ->
    ∃ v1, unindexContent contentID v
          = (v1, (unindexContent contentID v).2)
          ∧ quiet n v1
          ∧ (match resolve "envelopes_current" (elastic v) with
             | [name] =>
                 match elastic v !! name with
                 | Some ix =>
                     match docs ix !! contentID with
                     | Some _ => elastic v1 = <[name := delete_doc contentID ix]> (elastic v)
                                 ∧ (unindexContent contentID v).2 = None
                     | None => elastic v1 = elastic v
                               ∧ (unindexContent contentID v).2 = None
                     end
                 | None => elastic v1 = elastic v
                           ∧ (unindexContent contentID v).2 = None
                 end
             | [] => elastic v1 = elastic v ∧ (unindexContent contentID v).2 = None
             | _ => (unindexContent contentID v).2 ≠ None
             end)).
  { intros n v Hv. unfold unindexContent.
    destruct (quiet_perform n (ElasticDelete "envelopes_current" "envelope" contentID) v Hv)
      as [-> Hv1].
    simpl. destruct (resolve _ (elastic v)) as [|name [|name' l]] eqn:Er; simpl.
    - eexists; split; [done|]. done.
    - destruct (elastic v !! name) as [ix|] eqn:El; simpl.
      + destruct (docs ix !! contentID) eqn:Ed; simpl.
        * eexists; split; [done|]. done.
        * eexists; split; [done|]. done.
      + eexists; split; [done|]. done.
    - eexists; split; [done|]. done. }
  destruct (Hone 1 w Hq) as (w1 & E1 & Hq1 & H1).
  destruct (Hone 0 w1 Hq1) as (w2 & E2 & _ & H2).
  rewrite E1. simpl. intros Hr1. rewrite E2. simpl.
  destruct (resolve _ (elastic w)) as [|name [|name' l]] eqn:Er.
  - destruct H1 as [He _]. rewrite He, Er in H2.
    destruct H2 as [H2a H2b]. split; [done | congruence].
  - destruct (elastic w !! name) as [ix|] eqn:El.
    + destruct (docs ix !! contentID) eqn:Ed.
      * destruct H1 as [He _].
        assert (Er1 : resolve "envelopes_current" (elastic w1) = [name]).
        { apply Permutation_singleton_r. rewrite He, <- Er.
          by apply (resolve_insert _ _ _ ix). }
        rewrite Er1, He, lookup_insert_eq in H2. simpl in H2.
        rewrite lookup_delete_eq in H2.
        destruct H2 as [H2a H2b]. split; [done | congruence].
      * destruct H1 as [He _]. rewrite He, Er, El, Ed in H2.
        destruct H2 as [H2a H2b]. split; [done | congruence].
    + destruct H1 as [He _]. rewrite He, Er, El in H2.
      destruct H2 as [H2a H2b]. split; [done | congruence].
  - done.
Qed.

(** ** Promotion *)

Lemma perform_answered r w w1 s l :
  perform r w = (w1, Answered s l) -> serve r (popped r w) = (w1, Answered s l).
Proof.
  unfold perform, popped. destruct (faults w) as [|[e|] fs]; simpl; try done.
Qed.

Lemma delete_each_ok names : ∀ w w' rs,
  delete_each names w = (w', rs) -> Async.first_error rs = None ->
  elastic w' = foldl (fun es n => delete n es) (elastic w) names
  ∧ requests w' = requests w ++ map IndicesDelete names.
Proof.
  induction names as [|n names IH]; intros w w' rs.
  - simpl. intros [= <- <-] _. by rewrite app_nil_r.
  - simpl. destruct (perform (IndicesDelete n) w) as [w1 r] eqn:E1.
    destruct (delete_each names w1) as [w2 rs'] eqn:E2.
    intros [= <- <-]. destruct r as [e|s l]; simpl; [done|]. intros Hrs.
    destruct (IH _ _ _ E2 Hrs) as [He Hr].
    apply perform_answered in E1. simpl in E1.
    destruct (elastic w !! n) eqn:El; [|done].
    injection E1 as <- <- <-. simpl in *. rewrite He, Hr.
    split; [done|]. by rewrite <- app_assoc.
Qed.

Lemma lookup_foldl_delete (names : list string) : ∀ (es : gmap string Index) k,
  foldl (fun es n => delete n es) es names !! k
  = if bool_decide (k ∈ names) then None else es !! k.
Proof.
  induction names as [|n names IH]; intros es k; simpl; [done|].
  rewrite IH. repeat case_bool_decide; try done.
  - rewrite elem_of_cons in *. naive_solver.
  - rewrite elem_of_cons in *. destruct (decide (k = n)) as [->|]; [|naive_solver].
    apply lookup_delete_eq.
  - rewrite elem_of_cons in *. apply lookup_delete_ne. naive_solver.
Qed.

Lemma makeIndexActive_ok indexName w w' :
  makeIndexActive indexName w = (w', None) ->
  ∃ es1,
    alias_actions [ActRemove "*" active; ActAdd indexName active] (elastic w) = Some es1
    ∧ elastic w' = foldl (fun es n => delete n es) es1
        (List.filter (fun n => negb (String.eqb n indexName)) (resolve "envelopes*" es1))
    ∧ requests w' = requests w
        ++ [IndicesUpdateAliases [ActRemove "*" active; ActAdd indexName active];
            IndicesGet "envelopes*"]
        ++ map IndicesDelete
             (List.filter (fun n => negb (String.eqb n indexName)) (resolve "envelopes*" es1)).
Proof.
  unfold makeIndexActive. fold active.
  destruct (perform (IndicesUpdateAliases _) w) as [w1 r1] eqn:E1.
  destruct r1 as [e|s1 l1]; [done|].
  destruct (perform (IndicesGet _) w1) as [w2 r2] eqn:E2.
  destruct r2 as [e|s2 l2]; [done|].
  destruct (delete_each _ w2) as [w3 rs] eqn:E3.
  intros [= <- Hrs].
  apply perform_answered in E1, E2.
  cbn [serve popped elastic] in E1, E2.
  destruct (alias_actions _ (elastic w)) as [es1|] eqn:Ea; [|done].
  injection E1 as <- <- <-. injection E2 as <- <- <-.
  destruct (delete_each_ok _ _ _ _ E3 Hrs) as [He Hr].
  exists es1. split; [done|]. simpl in *. split; [done|].
  rewrite Hr. by rewrite <- !app_assoc.
Qed.

Lemma promoted indexName (es es1 : gmap string Index) :
  alias_actions [ActRemove "*" active; ActAdd indexName active] es = Some es1 ->
  (∃ ix, es !! indexName = Some ix
         ∧ es1 !! indexName = Some (add_alias active (remove_alias active ix)))
  ∧ (∀ name, name ≠ indexName -> es1 !! name = remove_alias active <$> es !! name).
Proof.
  simpl. rewrite map_lookup_imap.
  destruct (es !! indexName) as [ix|] eqn:El; simpl; [|done].
  intros [= <-]. split.
  - exists ix. by rewrite lookup_insert_eq.
  - intros name Hne. rewrite lookup_insert_ne by done.
    rewrite map_lookup_imap. by destruct (es !! name).
Qed.




Lemma calm_quiet n w : calm w -> quiet n w.
Proof. unfold calm, quiet. intros H. by apply Forall_take. Qed.

Lemma calm_perform r w :
  calm w -> perform r w = serve r (popped r w) ∧ calm (popped r w).
Proof.
  unfold calm, perform, popped. destruct (faults w) as [|f fs]; simpl; [done|].
  intros H. apply Forall_cons in H as [-> H]. done.
Qed.

Lemma makeIndexActive_state indexName w w' :
  makeIndexActive indexName w = (w', None) ->
  (∃ ix, elastic w !! indexName = Some ix
         ∧ elastic w' !! indexName = Some (add_alias active (remove_alias active ix)))
  ∧ (∀ name, name ≠ indexName ->
       elastic w' !! name
       = match elastic w !! name with
         | Some ix => if targets "envelopes*" name (remove_alias active ix)
                      then None else Some (remove_alias active ix)
         | None => None
         end).
Proof.
  intros H. destruct (makeIndexActive_ok _ _ _ H) as (es1 & Ha & He & Hr).
  destruct (promoted _ _ _ Ha) as [(ix0 & Hl0 & Hl1) Hother].
  assert (Hlook : ∀ k, elastic w' !! k
            = if bool_decide (k ∈ List.filter (fun n => negb (String.eqb n indexName))
                                   (resolve "envelopes*" es1))
              then None else es1 !! k).
  { intros k. rewrite He. apply lookup_foldl_delete. }
  split.
  - exists ix0. split; [done|]. rewrite Hlook, bool_decide_eq_false_2; [done|].
    rewrite elem_of_filter_neqb. tauto.
  - intros name Hne. rewrite Hlook, Hother by done.
    destruct (elastic w !! name) as [ix|] eqn:El; simpl.
    + case_bool_decide as Hin.
      * apply elem_of_filter_neqb in Hin as [Hin _].
        apply elem_of_resolve in Hin as (ix' & Hl' & Ht).
        rewrite Hother, El in Hl' by done. injection Hl' as <-. by rewrite Ht.
      * destruct (targets _ name _) eqn:Ht; [|done].
        exfalso. apply Hin. apply elem_of_filter_neqb. split; [|done].
        apply elem_of_resolve. eexists. split; [|exact Ht].
        rewrite Hother by done. by rewrite El.
    + by case_bool_decide.
Qed.

Lemma makeIndexActive_sole indexName w w' :
  makeIndexActive indexName w = (w', None) ->
  (∀ name, is_Some (elastic w' !! name) -> wildcard "envelopes*" name = true ->
     name = indexName)
  ∧ (∃ ix, elastic w' !! indexName = Some ix ∧ active ∈ aliases ix)
  ∧ (∀ name ix, elastic w' !! name = Some ix -> active ∈ aliases ix ->
       name = indexName).
Proof.
  intros H. destruct (makeIndexActive_state _ _ _ H) as [(ix0 & Hl0 & Hl1) Hother].
  split; [|split].
  - intros name [ix Hl] Hw.
    destruct (decide (name = indexName)) as [|Hne]; [done|].
    rewrite Hother in Hl by done.
    destruct (elastic w !! name) as [ix'|]; [|done].
    unfold targets in Hl. by rewrite Hw in Hl.
  - eexists. split; [exact Hl1|]. simpl. set_solver.
  - intros name ix Hl Hin.
    destruct (decide (name = indexName)) as [|Hne]; [done|].
    rewrite Hother in Hl by done.
    destruct (elastic w !! name) as [ix'|]; [|done].
    destruct (targets _ _ _); [done|]. injection Hl as <-.
    simpl in Hin. set_solver.
Qed.

(** C6.  When [makeIndexActive] reports success it has issued a single
    alias request, made of the two actions "remove the active alias from
    every index" and "add it to the new generation", followed by the
    listing of the generations and by one deletion for each generation
    other than the new one; afterwards no index named [envelopes*] other
    than the new generation is left, the new generation exists and holds
    the active alias, and no other index holds it. *)
Theorem promotion_leaves_one_generation (indexName : string) (w w' : World) :
  makeIndexActive indexName w = (w', None) ->
  (∃ retired,
      requests w' = requests w
        ++ [IndicesUpdateAliases [ActRemove "*" "envelopes_current";
                                  ActAdd indexName "envelopes_current"];
            IndicesGet "envelopes*"]
        ++ map IndicesDelete retired
      ∧ ∀ name, name ∈ retired ↔
          name ≠ indexName
          ∧ ∃ ix, elastic w !! name = Some ix
                  ∧ targets "envelopes*" name
                      (remove_alias "envelopes_current" ix) = true)
  ∧ (∀ name, is_Some (elastic w' !! name) -> wildcard "envelopes*" name = true ->
       name = indexName)
  ∧ (∃ ix, elastic w' !! indexName = Some ix ∧ "envelopes_current" ∈ aliases ix)
  ∧ (∀ name ix, elastic w' !! name = Some ix -> "envelopes_current" ∈ aliases ix ->
       name = indexName).
Proof.
  intros H. split; [|exact (makeIndexActive_sole _ _ _ H)].
  destruct (makeIndexActive_ok _ _ _ H) as (es1 & Ha & He & Hr).
  destruct (promoted _ _ _ Ha) as [(ix0 & Hl0 & Hl1) Hother].
  eexists. split; [exact Hr|]. intros name.
  rewrite elem_of_filter_neqb, elem_of_resolve.
  split.
  - intros [(ix & Hl & Ht) Hne]. split; [done|].
    rewrite Hother in Hl by done.
    destruct (elastic w !! name) as [ix'|]; [|done].
    simpl in Hl. injection Hl as <-. eauto.
  - intros [Hne (ix & Hl & Ht)]. split; [|done].
    exists (remove_alias active ix). rewrite Hother by done. by rewrite Hl.
Qed.


Lemma NoDup_filter_bool {A} (f : A -> bool) (l : list A) :
  NoDup l -> NoDup (List.filter f l).
Proof.
  induction 1 as [|x l Hx Hl IH]; simpl; [constructor|].
  destruct (f x); [|done]. constructor; [|done].
  rewrite list_elem_of_In, filter_In, <- list_elem_of_In. tauto.
Qed.

Lemma delete_each_calm names : ∀ w,
  calm w -> NoDup names -> (∀ n, n ∈ names -> is_Some (elastic w !! n)) ->
  Async.first_error (delete_each names w).2 = None.
Proof.
  induction names as [|n names IH]; intros w Hc Hnd Hin; simpl; [done|].
  destruct (calm_perform (IndicesDelete n) w Hc) as [-> Hc1].
  apply NoDup_cons in Hnd as [Hn Hnd].
  cbn [serve popped elastic].
  destruct (Hin n) as [ix ->]; [left|].
  set (w1 := with_elastic _ _).
  specialize (IH w1).
  destruct (delete_each names w1) as [w2 rs] eqn:E2. simpl in *.
  apply IH.
  - done.
  - done.
  - intros m Hm. rewrite lookup_delete_ne.
    + apply Hin. by right.
    + intros ->. done.
Qed.

Lemma makeIndexActive_calm indexName w :
  calm w -> is_Some (elastic w !! indexName) ->
  (makeIndexActive indexName w).2 = None.
Proof.
  intros Hc [ix Hl]. unfold makeIndexActive.
  destruct (calm_perform (IndicesUpdateAliases
              [ActRemove "*" "envelopes_current"; ActAdd indexName "envelopes_current"]) w Hc)
    as [-> Hc1].
  cbn [serve popped elastic].
  destruct (alias_actions _ (elastic w)) as [es1|] eqn:Ea.
  2:{ simpl in Ea. rewrite map_lookup_imap, Hl in Ea. done. }
  set (w1 := with_elastic _ _) in *.
  assert (Hc1' : calm w1) by done.
  destruct (calm_perform (IndicesGet "envelopes*") w1 Hc1') as [-> Hc2].
  cbn [serve popped elastic].
  set (w2 := popped _ w1) in *.
  pose proof (delete_each_calm
    (List.filter (fun n => negb (String.eqb n indexName)) (resolve "envelopes*" (elastic w2)))
    w2 Hc2) as Hd.
  destruct (delete_each _ w2) as [w3 rs]. simpl in *. apply Hd.
  - apply NoDup_filter_bool, NoDup_resolve.
  - intros n Hn. apply elem_of_filter_neqb in Hn as [Hn _].
    apply elem_of_resolve in Hn as (ix' & Hl' & _). eauto.
Qed.


(** ** The latch *)

Lemma generation_inj now now' : generation now' = generation now -> now' = now.
Proof.
  unfold generation. intros H. apply (inj pretty).
  by apply (inj (String.app "envelopes_")) in H.
Qed.

Lemma setup_latched now w :
  quiet 2 w -> is_Some (elastic w !! "latch") ->
  ∃ w', setup now w = (w', None) ∧ elastic w' = elastic w
        ∧ requests w' = requests w ++ [ConnectionSetup; IndicesCreate "latch" (Some 400%Z)].
Proof.
  intros Hq [ix Hl]. unfold setup.
  destruct (quiet_perform 1 ConnectionSetup w Hq) as [-> Hq1].
  cbn [serve].
  destruct (quiet_perform 0 (IndicesCreate "latch" (Some 400%Z)) _ Hq1) as [-> _].
  open_world. rewrite Hl. simpl.
  eexists. split; [done|]. simpl. split; [done|]. by rewrite <- app_assoc.
Qed.

Lemma createNewIndex_ok indexName w w' :
  createNewIndex indexName w = (w', None) ->
  elastic w !! indexName = None
  ∧ elastic w' = <[indexName := mkIndex ∅ [("envelope", envelopeMapping)] ∅]> (elastic w).
Proof.
  unfold createNewIndex.
  destruct (perform (IndicesCreate indexName None) w) as [w1 r1] eqn:E1.
  destruct r1 as [e|s1 l1]; [done|].
  destruct (perform (IndicesPutMapping _ _ _) w1) as [w2 r2] eqn:E2.
  destruct r2 as [e|s2 l2]; [done|].
  apply perform_answered in E1, E2. intros [= <-].
  unfold popped in E1, E2. cbn [serve elastic] in E1, E2.
  destruct (elastic w !! indexName) eqn:El; [done|].
  injection E1 as <- <- <-. cbn [elastic with_elastic] in E2.
  rewrite lookup_insert_eq in E2. injection E2 as <- <- <-.
  split; [done|]. cbn [elastic with_elastic]. by rewrite insert_insert_eq.
Qed.

Lemma setup_acquired now w w' :
  elastic w !! "latch" = None -> setup now w = (w', None) ->
  ∃ w3, makeIndexActive (generation now) w3 = (w', None)
        ∧ elastic w !! generation now = None
        ∧ elastic w3 = <[generation now := mkIndex ∅ [("envelope", envelopeMapping)] ∅]>
                         (<["latch" := mkIndex ∅ [] ∅]> (elastic w)).
Proof.
  intros Hl. unfold setup. fold (generation now).
  destruct (perform ConnectionSetup w) as [w1 r1] eqn:E1.
  destruct r1 as [e|s1 l1]; [done|].
  destruct (perform (IndicesCreate "latch" _) w1) as [w2 r2] eqn:E2.
  destruct r2 as [e|s2 l2]; [done|].
  apply perform_answered in E1, E2.
  unfold popped in E1, E2. cbn [serve elastic] in E1, E2.
  injection E1 as <- <- <-. cbn [elastic] in E2. rewrite Hl in E2.
  injection E2 as <- <- <-. simpl (_ =? _)%Z. cbv iota.
  destruct (createNewIndex _ _) as [w3 [e|]] eqn:E3; [done|].
  apply createNewIndex_ok in E3 as [Hg He]. cbn [elastic with_elastic] in Hg, He.
  assert (generation now ≠ "latch") by done.
  rewrite lookup_insert_ne in Hg by done.
  intros H'. eexists. split; [exact H'|]. done.
Qed.

Lemma createNewIndex_calm indexName w :
  calm w -> elastic w !! indexName = None ->
  ∃ w', createNewIndex indexName w = (w', None) ∧ calm w'
        ∧ is_Some (elastic w' !! indexName).
Proof.
  intros Hc Hl. unfold createNewIndex.
  destruct (calm_perform (IndicesCreate indexName None) w Hc) as [-> Hc1].
  unfold popped at 1. cbn [serve elastic]. rewrite Hl.
  set (w1 := with_elastic _ _) in *.
  assert (Hc1' : calm w1) by done.
  destruct (calm_perform (IndicesPutMapping indexName "envelope" envelopeMapping) w1 Hc1')
    as [-> Hc2].
  unfold popped at 1. cbn [serve elastic with_elastic w1].
  rewrite lookup_insert_eq.
  eexists. split; [done|]. split; [done|].
  cbn [elastic with_elastic]. rewrite lookup_insert_eq. eauto.
Qed.

(** C7.  If the latch index already exists when [setup] tries to create
    it, [setup] reports success having issued nothing but the connection
    setup and that one attempt, and the search engine is as it was: no
    generation was created and no alias changed.  If the latch did not
    exist and [setup] reports success, then the generation
    [envelopes_<now>] did not exist before, exists now with its mapping,
    holds the active alias and is the only generation; with no request
    failing and that name free, [setup] does report success.  Distinct
    times give distinct generation names. *)
Theorem setup_latch (now : N) (w : World) :
  (quiet 2 w -> is_Some (elastic w !! "latch") ->
     ∃ w', setup now w = (w', None) ∧ elastic w' = elastic w
           ∧ requests w' = requests w
               ++ [ConnectionSetup; IndicesCreate "latch" (Some 400%Z)])
  ∧ (elastic w !! "latch" = None -> ∀ w', setup now w = (w', None) ->
       elastic w !! generation now = None
       ∧ is_Some (elastic w' !! "latch")
       ∧ (∃ ix, elastic w' !! generation now = Some ix
                ∧ "envelopes_current" ∈ aliases ix
                ∧ mappings ix = [("envelope", envelopeMapping)])
       ∧ (∀ name, is_Some (elastic w' !! name) -> wildcard "envelopes*" name = true ->
            name = generation now)
       ∧ (∀ name ix, elastic w' !! name = Some ix -> "envelopes_current" ∈ aliases ix ->
            name = generation now))
  ∧ (elastic w !! "latch" = None -> elastic w !! generation now = None -> calm w ->
       (setup now w).2 = None)
  ∧ (∀ now', generation now' = generation now -> now' = now).
Proof.
  split; [apply setup_latched|]. split; [|split; [|apply generation_inj]].
  - intros Hl w' Hs.
    destruct (setup_acquired _ _ _ Hl Hs) as (w3 & Hm & Hfresh & He3).
    destruct (makeIndexActive_state _ _ _ Hm) as [(ix & Hix & Hix') Hother].
    destruct (makeIndexActive_sole _ _ _ Hm) as (Honly & _ & Halias).
    rewrite He3, lookup_insert_eq in Hix. injection Hix as <-.
    split; [done|]. split; [|split; [|done]].
    + rewrite Hother by done. rewrite He3.
      rewrite lookup_insert_ne by done. rewrite lookup_insert_eq.
      replace (targets _ _ _) with false; [done|].
      unfold targets, remove_alias. cbn [aliases].
      replace (∅ ∖ {["envelopes_current"]} : gset string) with (∅ : gset string) by set_solver.
      by rewrite elements_empty.
    + eexists. split; [exact Hix'|]. split; [|done]. simpl. set_solver.
  - intros Hl Hg Hc. unfold setup. fold (generation now).
    destruct (calm_perform ConnectionSetup w Hc) as [-> Hc1]. cbn [serve].
    destruct (calm_perform (IndicesCreate "latch" (Some 400%Z)) _ Hc1) as [-> Hc2].
    unfold popped at 1 2. cbn [serve elastic]. rewrite Hl. simpl (_ =? _)%Z. cbv iota.
    set (w2 := with_elastic _ _) in *.
    assert (Hc2' : calm w2) by done.
    destruct (createNewIndex_calm (generation now) w2 Hc2') as (w3 & -> & Hc3 & Hin).
    { cbn [w2 elastic with_elastic]. by rewrite lookup_insert_ne. }
    by apply makeIndexActive_calm.
Qed.


(** ** Listing *)

Lemma filter_true {A} (l : list A) : List.filter (fun _ => true) l = l.
Proof. induction l; simpl; congruence. Qed.

Lemma perPage_pos : (0 < perPage)%nat.
Proof. apply Nat.ltb_lt. reflexivity. Qed.




(** C9.  [deleteContent] reports success when the blob store answers with
    an error whose [statusCode] is 404, and [unindexContent] when the
    search engine answers with an error whose [status] is ['404'].  So
    deleting is idempotent: deleting a contentID twice from the blob store
    succeeds both times, the second time changing nothing; and whenever a
    first [unindexContent] succeeds, a second one succeeds too, changing
    nothing. *)
Theorem not_found_is_success (contentID : string) (w : World) :
  (∀ err,
     (perform (RemoveFile (contentContainer w) (encodeURIComponent contentID)) w).2
     = Failed err ->
     statusCode err = Some (JNum 404) ->
     (deleteContent contentID w).2 = None)
  ∧ (∀ err,
       (perform (ElasticDelete "envelopes_current" "envelope" contentID) w).2
       = Failed err ->
       status err = Some (JStr "404") ->
       (unindexContent contentID w).2 = None)
  ∧ (quiet 2 w ->
       (deleteContent contentID w).2 = None
       ∧ (deleteContent contentID (deleteContent contentID w).1).2 = None
       ∧ contentFiles (deleteContent contentID (deleteContent contentID w).1).1
         = contentFiles (deleteContent contentID w).1)
  ∧ (quiet 2 w -> (unindexContent contentID w).2 = None ->
       (unindexContent contentID (unindexContent contentID w).1).2 = None
       ∧ elastic (unindexContent contentID (unindexContent contentID w).1).1
         = elastic (unindexContent contentID w).1).
Proof.
  split; [apply deleteContent_not_found|].
  split; [apply unindexContent_not_found|].
  split; [apply deleteContent_twice | apply unindexContent_twice].
Qed.

End RemoteProperties.

(** C10.  Called with no contentIDs, [removeStagingEnvelopes] only defers
    its callback: it makes no call on the storage facade, and run against
    any realization of the facade it leaves the stored state as it was and
    calls back without error. *)
Theorem removeStagingEnvelopes_nil {S : Type} (f : Storage.Facade S) (s : S) :
  Remove.removeStagingEnvelopes [] = Storage.NextTick
  ∧ Storage.calls_of (Remove.removeStagingEnvelopes []) = []
  ∧ Storage.complete f (Remove.removeStagingEnvelopes []) s = (s, None).
Proof. done. Qed.

(** *** Worked instances *)

Lemma quiet_nil n w : faults w = [] -> quiet n w.
Proof. unfold quiet. intros ->. rewrite take_nil. constructor. Qed.

Lemma promotion_leaves_one_generation_witness :
  (makeIndexActive "envelopes_2" Example.rotating).2 = None
  ∧ ∀ name,
      is_Some (elastic (makeIndexActive "envelopes_2" Example.rotating).1 !! name) ->
      wildcard "envelopes*" name = true -> name = "envelopes_2".
Proof.
  assert (E : makeIndexActive "envelopes_2" Example.rotating
              = ((makeIndexActive "envelopes_2" Example.rotating).1, None))
    by (vm_compute; reflexivity).
  split; [by rewrite E|].
  exact (proj1 (proj2 (promotion_leaves_one_generation _ _ _ E))).
Defined.

Lemma setup_latch_witness :
  (∃ w', setup 1478000000000 Example.rotating = (w', None)
         ∧ elastic w' = elastic Example.rotating)
  ∧ (setup 1478000000000 Example.blank).2 = None
  ∧ is_Some (elastic (setup 1478000000000 Example.blank).1 !! "latch").
Proof.
  destruct (setup_latch 1478000000000 Example.rotating) as (Hlatched & _).
  destruct (setup_latch 1478000000000 Example.blank) as (_ & Hacquired & Hcalm & _).
  assert (E : setup 1478000000000 Example.blank
              = ((setup 1478000000000 Example.blank).1, None))
    by (vm_compute; reflexivity).
  split; [|split].
  - destruct Hlatched as (w' & ? & ? & _).
    + by apply quiet_nil.
    + eexists. vm_compute. reflexivity.
    + eauto.
  - apply Hcalm; [reflexivity | reflexivity | constructor].
  - exact (proj1 (proj2 (Hacquired eq_refl _ E))).
Defined.


Lemma not_found_is_success_witness :
  (deleteContent (rt := Example.posix) "X/a" Example.rotating).2 = None
  ∧ (deleteContent (rt := Example.posix) "X/a"
       (deleteContent (rt := Example.posix) "X/a" Example.rotating).1).2 = None
  ∧ (unindexContent "X/a" (unindexContent "X/a" Example.rotating).1).2 = None
  ∧ (deleteContent (rt := Example.posix) "X/c" Example.rotating).2 = None
  ∧ (unindexContent "X/c" Example.rotating).2 = None.
Proof.
  destruct (not_found_is_success (rt := Example.posix) "X/a" Example.rotating)
    as (_ & _ & Hdel & Hunindex).
  destruct (not_found_is_success (rt := Example.posix) "X/c" Example.rotating)
    as (Hgone & Hmissing & _ & _).
  destruct Hdel as (H1 & H2 & _); [by apply quiet_nil|].
  destruct Hunindex as (H3 & _); [by apply quiet_nil | vm_compute; reflexivity|].
  split; [done|]. split; [done|]. split; [done|]. split.
  - eapply Hgone; vm_compute; reflexivity.
  - eapply Hmissing; vm_compute; reflexivity.
Defined.

End RemoteFacts.

(* ===================================================================== *)
(** * Properties of the bulk upload                                       *)
(* ===================================================================== *)

Module BulkFacts.
Import Js Async Storage Bulk.

(** ** One job *)

Lemma resolve_spec t i r g g' fired :
  job_ok (t, g) -> ops g !! i = Some Pending -> resolve i r g = (g', fired) ->
  job_ok (t, g')
  ∧ (length (List.filter is_pending (ops g')) + 1
     = length (List.filter is_pending (ops g)))%nat
  ∧ accepted (t, g) = false
  ∧ match fired with
    | None => reported (t, g') = reported (t, g)
              ∧ accepted (t, g') = false
              ∧ rejected (t, g') = rejected (t, g)
    | Some None => reported (t, g) = false ∧ rejected (t, g) = false
                   ∧ accepted (t, g') = true ∧ rejected (t, g') = false
                   ∧ r = None
                   ∧ Forall (fun o => o = Resolved None) (ops g')
    | Some (Some e) => reported (t, g) = false ∧ rejected (t, g) = false
                       ∧ accepted (t, g') = false ∧ rejected (t, g') = true
                       ∧ r = Some e
    end.
Proof.
  unfold job_ok, reported, accepted, rejected, resolve. simpl.
  destruct g as [[|o1 [|o2 [|o3 os]]] c]; simpl; intros [Hlen Hc]; try done.
  destruct i as [|[|i]]; simpl; intros [= ->]; destruct c, r as [e|];
    repeat match goal with o : Op |- _ => destruct o as [|[?|]] end;
    simpl in *; try done; intros [= <- <-]; simpl; repeat split; try done;
    repeat constructor.
Qed.

(** ** Counting *)

Lemma count_insert {A} (f : A -> bool) (l : list A) j x y :
  l !! j = Some x ->
  (length (List.filter f (<[j := y]> l)) + bit (f x)
   = length (List.filter f l) + bit (f y))%nat.
Proof.
  revert j. induction l as [|a l IH]; intros [|j]; simpl; try done.
  - intros [= ->]. destruct (f x), (f y); simpl; lia.
  - intros H. specialize (IH _ H). destruct (f a); simpl; lia.
Qed.

Lemma count_app {A} (f : A -> bool) (l k : list A) :
  length (List.filter f (l ++ k))
  = (length (List.filter f l) + length (List.filter f k))%nat.
Proof. by rewrite List.filter_app, length_app. Qed.

Lemma count_snoc {A} (f : A -> bool) (l : list A) x :
  length (List.filter f (l ++ [x])) = (length (List.filter f l) + bit (f x))%nat.
Proof. rewrite count_app. simpl. by destruct (f x). Qed.

Lemma in_flight_insert js j (x y : Task * Group) :
  js !! j = Some x ->
  (in_flight (<[j := y]> js) + length (List.filter is_pending (ops x.2))
   = in_flight js + length (List.filter is_pending (ops y.2)))%nat.
Proof.
  unfold in_flight. revert j. induction js as [|a js IH]; intros [|j]; simpl; try done.
  - intros [= ->]. lia.
  - intros H. specialize (IH _ H). lia.
Qed.

Lemma in_flight_app js ks :
  in_flight (js ++ ks) = (in_flight js + in_flight ks)%nat.
Proof. unfold in_flight. apply sum_list_with_app. Qed.

(** ** What each listener changes *)

Ltac unfold_setters :=
  unfold count_failure, count_envelope, set_deletionCount, set_contentIDBase,
    Bulk.keep, send, Bulk.next, issue, throw, reportError,
    with_vars, with_queue, with_jobs, with_decoder, with_out in *.

Ltac fields :=
  cbn [vars uploadQueue jobs decoder out finishRequests
       contentIDBase envelopeCount failureCount deletionCount toKeep
       sent nexts issued thrown
       tasks workers concurrency drain_armed] in *.

Lemma same_control_refl st : same_control st st.
Proof. by repeat split. Qed.

Lemma kept_keep id key st :
  kept (toKeep (vars (Bulk.keep key st))) id
  = if decide (key = id) then true else kept (toKeep (vars st)) id.
Proof.
  unfold Bulk.keep, with_vars, kept. fields. rewrite lookup_insert.
  destruct (decide (key = id)); [by rewrite orb_true_r|done].
Qed.

Section Listeners.
Context {rt : Runtime}.

Lemma keep_fold ids : ∀ st,
  let st' := keep_each ids st in
  same_control st st'
  ∧ uploadQueue st' = uploadQueue st
  ∧ failureCount (vars st') = failureCount (vars st)
  ∧ contentIDBase (vars st') = contentIDBase (vars st)
  ∧ (∀ id, kept (toKeep (vars st)) id = true -> kept (toKeep (vars st')) id = true).
Proof.
  induction ids as [|i ids IH]; intros st; simpl.
  - by repeat split.
  - destruct (to_string i) as [key|]; [|by repeat split].
    destruct (IH (Bulk.keep key st)) as ((?&?&?&?&?&?&?&?&?&?) & ? & ? & ? & Hk).
    assert (Hk' : ∀ id, kept (toKeep (vars st)) id = true ->
              kept (toKeep (vars (keep_each ids (Bulk.keep key st)))) id = true).
    { intros id Hid. apply Hk. rewrite kept_keep. by case_decide. }
    unfold_setters. fields. repeat split; try congruence. done.
Qed.

Lemma handleConfigEntry_effect p st :
  let st' := handleConfigEntry p st in
  same_control st st' ∧ uploadQueue st' = uploadQueue st
  ∧ failureCount (vars st') = failureCount (vars st)
  ∧ toKeep (vars st') = toKeep (vars st).
Proof.
  unfold handleConfigEntry. destruct p as [e|config]; [by repeat split|].
  destruct (get config "contentIDBase") as [[base|]|]; try by repeat split.
  destruct (truthy base); by repeat split.
Qed.

Lemma handleKeepEntry_effect p st :
  let st' := handleKeepEntry p st in
  same_control st st' ∧ uploadQueue st' = uploadQueue st
  ∧ failureCount (vars st') = failureCount (vars st)
  ∧ (∀ id, kept (toKeep (vars st)) id = true -> kept (toKeep (vars st')) id = true).
Proof.
  unfold handleKeepEntry. destruct p as [e|manifest]; [by repeat split|].
  destruct (get manifest "keep") as [v|]; [|by repeat split].
  destruct (truthy_opt v); [|by repeat split].
  destruct v as [[]|]; try by repeat split.
  destruct (keep_fold items st) as (? & ? & ? & ? & ?). done.
Qed.

Lemma handleStagingEnvelopeEntry_effect entryPath p st :
  let st' := handleStagingEnvelopeEntry entryPath p st in
  same_control st st'
  ∧ failureCount (vars st')
    = (failureCount (vars st)
       + bit (match p, decodeURIComponent (path_basename_ext entryPath ".json") with
              | inl _, Some _ => true
              | _, _ => false
              end))%nat
  ∧ (∀ id, kept (toKeep (vars st)) id = true -> kept (toKeep (vars st')) id = true)
  ∧ (∀ cid, decodeURIComponent (path_basename_ext entryPath ".json") = Some cid ->
       kept (toKeep (vars st')) cid = true).
Proof.
  unfold handleStagingEnvelopeEntry.
  destruct (decodeURIComponent _) as [cid|].
  - assert (Hk : ∀ s, toKeep (vars s) = toKeep (vars (Bulk.keep cid st)) ->
        (∀ id, kept (toKeep (vars st)) id = true -> kept (toKeep (vars s)) id = true)
        ∧ (∀ c, Some cid = Some c -> kept (toKeep (vars s)) c = true)).
    { intros s ->. split.
      - intros id Hid. rewrite kept_keep. by case_decide.
      - intros c [= <-]. rewrite kept_keep. by case_decide. }
    destruct p as [e|envelope].
    + destruct (Hk (reportError e false (count_failure (Bulk.keep cid st)))) as [? ?]; [done|].
      unfold_setters. fields. repeat split; try done. simpl. lia.
    + destruct (Hk (with_queue (push (mkTask cid envelope) (uploadQueue (Bulk.keep cid st)))
                      (Bulk.keep cid st))) as [? ?]; [done|].
      unfold_setters. fields. repeat split; try done; try (simpl; lia).
  - unfold_setters. fields. repeat split; try done. destruct p; simpl; lia.
Qed.

Lemma on_entry_effect h p st :
  let st' := on_entry h p st in
  same_control st st'
  ∧ failureCount (vars st')
    = (failureCount (vars st) + bit (unparsed (Entry h p)))%nat
  ∧ (∀ id, kept (toKeep (vars st)) id = true -> kept (toKeep (vars st')) id = true)
  ∧ (∀ cid, record_id h = Some cid -> kept (toKeep (vars st')) cid = true).
Proof.
  assert (Hsame : same_control st st ∧
            failureCount (vars st) = (failureCount (vars st) + 0)%nat ∧
            (∀ id, kept (toKeep (vars st)) id = true -> kept (toKeep (vars st)) id = true))
    by (split; [apply same_control_refl|]; split; [lia|done]).
  unfold on_entry, unparsed, record_id, is_record.
  destruct (String.eqb (type h) "file"); simpl.
  2:{ destruct Hsame as (? & ? & ?). split; [done|]. split; [by destruct p|]. done. }
  destruct (match last _ with Some dname => _ | None => false end); simpl.
  - assert (∀ s, (failureCount (vars s) = failureCount (vars st)) ->
             failureCount (vars s)
             = (failureCount (vars st) + bit match p with inl _ => false | inr _ => false end)%nat)
      as Hf by (intros s ->; destruct p; simpl; lia).
    destruct (String.eqb _ "config.json").
    { destruct (handleConfigEntry_effect p st) as (? & ? & ? & Hk).
      split; [done|]. split; [by apply Hf|]. split; [|done].
      intros id. by rewrite Hk. }
    destruct (String.eqb _ "keep.json").
    { destruct (handleKeepEntry_effect p st) as (? & ? & ? & Hk).
      split; [done|]. split; [by apply Hf|]. done. }
    destruct Hsame as (? & ? & ?). split; [done|]. split; [by apply Hf|]. done.
  - destruct (endsWith _ ".json"); simpl.
    + destruct (handleStagingEnvelopeEntry_effect (name h) p st) as (? & Hf & ? & ?).
      split; [done|]. split; [|done]. rewrite Hf.
      destruct p, (decodeURIComponent _); done.
    + destruct Hsame as (? & ? & ?). split; [done|]. split; [by destruct p|]. done.
Qed.


End Listeners.

(** ** Completion *)

Lemma reportCompletion_effect st :
  let st' := reportCompletion st in
  vars st' = vars st ∧ uploadQueue st' = uploadQueue st ∧ jobs st' = jobs st
  ∧ decoder st' = decoder st ∧ finishRequests st' = finishRequests st
  ∧ sent (out st') = sent (out st) ++ [report (vars st')]
  ∧ issued (out st') = issued (out st) ∧ thrown (out st') = thrown (out st)
  ∧ nexts (out st') = nexts (out st) ++ [None].
Proof. done. Qed.

Lemma finishRequest_effect env st :
  let st' := finishRequest env st in
  same_work st st'
  ∧ finishRequests st' = S (finishRequests st)
  ∧ (sent (out st') = sent (out st)
     ∨ sent (out st') = sent (out st) ++ [report (vars st')]).
Proof.
  unfold finishRequest, removeDeletedStagingContent, reconciled. fields.
  destruct (contentIDBase (vars st)) as [base|] eqn:Eb.
  2:{ split; [by repeat split|]. split; [done|]. by right. }
  destruct (listStagingEnvelopes env base) as [err|existing].
  { split; [by repeat split|]. split; [done|]. by right. }
  change removeEnvelopes with (@None Remove.Export). cbv iota.
  split; [by repeat split|]. split; [done|]. by left.
Qed.

(** Without a captured base nothing is listed or deleted and the report
    is sent; with one, and a listing that succeeds, the deletion set is
    computed and counted, and the call of [removeEnvelopes] throws. *)
Lemma finishRequest_without_base env st :
  contentIDBase (vars st) = None ->
  let st' := finishRequest env st in
  issued (out st') = issued (out st)
  ∧ deletionCount (vars st') = deletionCount (vars st)
  ∧ sent (out st') = sent (out st) ++ [report (vars st)]
  ∧ thrown (out st') = thrown (out st).
Proof.
  intros Hb. unfold finishRequest, removeDeletedStagingContent, reconciled.
  fields. by rewrite Hb.
Qed.

Lemma finishRequest_with_base env st base existingContentIDs :
  contentIDBase (vars st) = Some base ->
  listStagingEnvelopes env base = inr existingContentIDs ->
  let st' := finishRequest env st in
  issued (out st') = issued (out st) ++ [ListStagingEnvelopes base]
  ∧ deletionCount (vars st')
    = length (toDelete existingContentIDs (toKeep (vars st)))
  ∧ sent (out st') = sent (out st)
  ∧ nexts (out st') = nexts (out st)
  ∧ thrown (out st')
    = thrown (out st) ++ [TypeError "removeEnvelopes is not a function"].
Proof.
  intros Hb Hl. unfold finishRequest, removeDeletedStagingContent, reconciled.
  fields. rewrite Hb, Hl. done.
Qed.

Lemma worker_done_effect env err st :
  let st' := worker_done env err st in
  let q' := (Async.next (uploadQueue st)).1 in
  let fire := idle q' && drain_armed q' in
  uploadQueue st' = q' ∧ jobs st' = jobs st ∧ decoder st' = decoder st
  ∧ toKeep (vars st') = toKeep (vars st)
  ∧ envelopeCount (vars st')
    = (envelopeCount (vars st) + bit (bool_decide (err = None)))%nat
  ∧ failureCount (vars st')
    = (failureCount (vars st) + bit (negb (bool_decide (err = None))))%nat
  ∧ finishRequests st' = (finishRequests st + bit fire)%nat
  ∧ (sent (out st') = sent (out st)
     ∨ fire = true ∧ sent (out st') = sent (out st) ++ [report (vars st')]).
Proof.
  unfold worker_done.
  set (st1 := match err with Some e => _ | None => _ end).
  assert (H1 : uploadQueue st1 = uploadQueue st ∧ jobs st1 = jobs st
               ∧ decoder st1 = decoder st ∧ toKeep (vars st1) = toKeep (vars st)
               ∧ envelopeCount (vars st1)
                 = (envelopeCount (vars st) + bit (bool_decide (err = None)))%nat
               ∧ failureCount (vars st1)
                 = (failureCount (vars st) + bit (negb (bool_decide (err = None))))%nat
               ∧ finishRequests st1 = finishRequests st
               ∧ sent (out st1) = sent (out st)).
  { unfold st1. destruct err; unfold_setters; fields; simpl; repeat split; lia. }
  destruct H1 as (Hq & Hj & Hd & Hk & He & Hf & Hn & Hs).
  rewrite Hq. unfold Async.next. simpl.
  set (q' := mkQueue _ _ _ _).
  destruct (idle q' && drain_armed (uploadQueue st)) eqn:Efire.
  - set (st2 := with_queue q' st1).
    assert (H2 : uploadQueue st2 = q' ∧ jobs st2 = jobs st1 ∧ decoder st2 = decoder st1
                 ∧ vars st2 = vars st1 ∧ finishRequests st2 = finishRequests st1
                 ∧ out st2 = out st1) by done.
    destruct H2 as (Hq' & Hj' & Hd' & Hv' & Hn' & Ho').
    destruct (finishRequest_effect env st2)
      as ((Hq2 & Hj2 & Hd2 & _ & He2 & Hf2 & Hk2) & Hn2 & Hs2).
    rewrite Hq2, Hj2, Hd2, Hk2, He2, Hf2, Hn2, Hq', Hj', Hd', Hv', Hn'.
    rewrite Ho' in Hs2.
    rewrite Hs in Hs2.
    repeat split; try done; try (simpl; lia).
    destruct Hs2 as [Hs2|Hs2]; [by left | by right].
  - unfold with_queue. fields. repeat split; try done; try (simpl; lia); try by left.
Qed.

Lemma on_finish_effect env st :
  let st' := on_finish env st in
  jobs st' = jobs st ∧ decoder st' = Finished
  ∧ toKeep (vars st') = toKeep (vars st)
  ∧ envelopeCount (vars st') = envelopeCount (vars st)
  ∧ failureCount (vars st') = failureCount (vars st)
  ∧ tasks (uploadQueue st') = tasks (uploadQueue st)
  ∧ workers (uploadQueue st') = workers (uploadQueue st)
  ∧ concurrency (uploadQueue st') = concurrency (uploadQueue st)
  ∧ (if (0 <? workers (uploadQueue st))%nat
     then drain_armed (uploadQueue st') = true
          ∧ finishRequests st' = finishRequests st
          ∧ sent (out st') = sent (out st)
     else drain_armed (uploadQueue st') = drain_armed (uploadQueue st)
          ∧ finishRequests st' = S (finishRequests st)
          ∧ (sent (out st') = sent (out st)
             ∨ sent (out st') = sent (out st) ++ [report (vars st')])).
Proof.
  unfold on_finish, running.
  change (uploadQueue (with_decoder Finished st)) with (uploadQueue st).
  destruct (0 <? workers (uploadQueue st))%nat.
  - by repeat split.
  - destruct (finishRequest_effect env (with_decoder Finished st))
      as ((Hq2 & Hj2 & Hd2 & _ & He2 & Hf2 & Hk2) & Hn2 & Hs2).
    rewrite Hq2, Hj2, Hd2, Hk2, He2, Hf2, Hn2. by repeat split.
Qed.


(** ** Runs *)

Section BulkProperties.
Context {rt : Runtime}.
Variable env : Env.


Lemma run_app evs1 : ∀ evs2 st,
  run env (evs1 ++ evs2) st
  = match run env evs1 st with
    | Some st1 => run env evs2 st1
    | None => None
    end.
Proof.
  induction evs1 as [|ev evs1 IH]; intros evs2 st; simpl; [done|].
  destruct (step env ev st); [apply IH | done].
Qed.

Lemma run_snoc evs ev st st' :
  run env (evs ++ [ev]) st = Some st' ->
  ∃ st1, run env evs st = Some st1 ∧ step env ev st1 = Some st'.
Proof.
  rewrite run_app. destruct (run env evs st) as [st1|]; [|done].
  simpl. destruct (step env ev st1) eqn:E; [|done]. intros [= <-]. eauto.
Qed.

Lemma sent_snoc (d : Decoder) evs ev (snt : list Response) (n n' : nat) :
  (n <= n')%nat ->
  match d with
  | Broken => ∃ err, ArchiveError err ∈ evs ∧ snt = [mkResponse 400 (ErrorBody err)]
  | _ => (length snt <= n)%nat
  end ->
  match d with
  | Broken => ∃ err, ArchiveError err ∈ evs ++ [ev]
                     ∧ snt = [mkResponse 400 (ErrorBody err)]
  | _ => (length snt <= n')%nat
  end.
Proof.
  intros Hn. destruct d; try lia. intros (err & Hin & ->). exists err.
  split; [|done]. apply elem_of_app. by left.
Qed.

Lemma Inv_init : Inv [] init.
Proof.
  split; simpl; try done.
  intros h p cid H. by apply not_elem_of_nil in H.
Qed.

Lemma Inv_entry evs h p st :
  Inv evs st -> decoder st = Decoding ∨ decoder st = Stalled ->
  Inv (evs ++ [Entry h p]) (on_entry h p st).
Proof.
  intros [Hc Hj Hw Ha Hf Hk Hcomp Hs] Hd.
  destruct (on_entry_effect h p st)
    as ((Ej & Ed & En & Ew & Ec & Ea & Es & Ei & Ee & Edel) & Ef & Hmono & Hnew).
  split.
  - congruence.
  - by rewrite Ej.
  - by rewrite Ew, Ej.
  - by rewrite Ee, Ej.
  - rewrite Ef, Ej, Hf, count_snoc. lia.
  - intros h' p' cid Hin Hid. apply elem_of_app in Hin as [Hin|Hin].
    + apply Hmono. by eapply Hk.
    + apply list_elem_of_singleton in Hin. injection Hin as -> ->. by apply Hnew.
  - rewrite Ed, En, Ea. destruct Hd as [Hd|Hd]; by rewrite Hd in *.
  - rewrite Ed, En, Es. destruct Hd as [Hd|Hd]; by rewrite Hd in *.
Qed.

Lemma Inv_error evs err st :
  Inv evs st -> decoder st = Decoding ∨ decoder st = Stalled ->
  Inv (evs ++ [ArchiveError err]) (on_error err st).
Proof.
  intros [Hc Hj Hw Ha Hf Hk Hcomp Hs] Hd.
  assert (Hcomp' : finishRequests st = 0%nat ∧ drain_armed (uploadQueue st) = false)
    by (destruct Hd as [Hd|Hd]; by rewrite Hd in Hcomp).
  assert (Hs' : (length (sent (out st)) <= finishRequests st)%nat)
    by (destruct Hd as [Hd|Hd]; by rewrite Hd in Hs).
  clear Hcomp Hs. destruct Hcomp' as [Hn Hdr].
  assert (Hs0 : sent (out st) = []).
  { destruct (sent (out st)); [done|]. simpl in Hs'. lia. }
  split; unfold on_error; unfold_setters; fields; try done.
  - rewrite count_snoc. simpl. lia.
  - intros h' p' cid Hin Hid. apply elem_of_app in Hin as [Hin|Hin].
    + by eapply Hk.
    + by apply list_elem_of_singleton in Hin.
  - exists err. rewrite Hs0. split; [|done]. apply elem_of_app. right. by left.
Qed.

Lemma Inv_gunzip evs err st st' :
  Inv evs st -> step env (GunzipError err) st = Some st' ->
  Inv (evs ++ [GunzipError err]) st'.
Proof.
  intros [Hc Hj Hw Ha Hf Hk Hcomp Hs] Hstep. simpl in Hstep.
  unfold on_gunzip_error in Hstep.
  assert (Hkept : ∀ h p cid, Entry h p ∈ evs ++ [GunzipError err] ->
            record_id h = Some cid -> kept (toKeep (vars st)) cid = true).
  { intros h' p' cid Hin Hid. apply elem_of_app in Hin as [Hin|Hin].
    - by eapply Hk.
    - by apply list_elem_of_singleton in Hin. }
  destruct (decoder st) eqn:Hd; try done; injection Hstep as <-;
    split; unfold_setters; fields; rewrite ?Hd; try done.
  - rewrite count_snoc. simpl. lia.
  - rewrite count_snoc. simpl. lia.
  - destruct Hs as (e & Hin & ->). exists e. split; [|done].
    apply elem_of_app. by left.
Qed.

Lemma idle_false_workers {T} (q : Queue T) : (0 < workers q)%nat -> idle q = false.
Proof. unfold idle. intros. apply Nat.eqb_neq. lia. Qed.

Lemma Inv_finish evs st :
  Inv evs st -> decoder st = Decoding -> Inv (evs ++ [Finish]) (on_finish env st).
Proof.
  intros [Hc Hj Hw Ha Hf Hk Hcomp Hs] Hd. rewrite Hd in *.
  destruct Hcomp as [Hn Hdr].
  assert (Hs0 : sent (out st) = []).
  { destruct (sent (out st)); [done|]. simpl in Hs. lia. }
  destruct (on_finish_effect env st) as (Ej & Ed & Ek & Ee & Ef & Et & Ew & Ec & Hcase).
  split.
  - congruence.
  - by rewrite Ej.
  - by rewrite Ew, Ej.
  - by rewrite Ee, Ej.
  - rewrite Ef, Ej, Hf, count_snoc. simpl. lia.
  - intros h' p' cid Hin Hid. rewrite Ek. apply elem_of_app in Hin as [Hin|Hin].
    + by eapply Hk.
    + by apply list_elem_of_singleton in Hin.
  - rewrite Ed. destruct (0 <? workers (uploadQueue st))%nat eqn:E0.
    + destruct Hcase as (Ha' & Hn' & _). right. split; [done|].
      rewrite idle_false_workers; [simpl; congruence|].
      rewrite Ew. by apply Nat.ltb_lt.
    + destruct Hcase as (Ha' & Hn' & _). left. split; congruence.
  - rewrite Ed. destruct (0 <? workers (uploadQueue st))%nat eqn:E0.
    + destruct Hcase as (_ & Hn' & Hs'). rewrite Hs', Hs0. simpl. lia.
    + destruct Hcase as (_ & Hn' & [Hs'|Hs']); rewrite Hs', Hs0, Hn'; simpl; lia.
Qed.

Lemma process_Some (q q' : Queue Task) task :
  process q = Some (task, q') ->
  ∃ rest, tasks q = task :: rest ∧ (workers q < concurrency q)%nat
          ∧ q' = mkQueue rest (S (workers q)) (concurrency q) (drain_armed q).
Proof.
  unfold process. destruct (tasks q) as [|t rest]; [done|].
  destruct (workers q <? concurrency q)%nat eqn:E; [|done].
  intros [= <- <-]. exists rest. apply Nat.ltb_lt in E. done.
Qed.

Lemma Inv_process evs st st' :
  Inv evs st -> step env Process st = Some st' -> Inv (evs ++ [Process]) st'.
Proof.
  intros [Hc Hj Hw Ha Hf Hk Hcomp Hs]. simpl.
  destruct (process (uploadQueue st)) as [[task q]|] eqn:Ep; [|done].
  apply process_Some in Ep as (rest & Et & Hlt & ->).
  intros [= <-]. unfold envelopeStagingWorker, Store.storeStagingEnvelope. simpl.
  assert (Hidle : idle (uploadQueue st) = false).
  { unfold idle. rewrite Et. simpl. done. }
  split; unfold_setters; fields; try done.
  - apply Forall_app. split; [done|]. by repeat constructor.
  - rewrite count_snoc. simpl. lia.
  - rewrite count_snoc. simpl. lia.
  - rewrite !count_snoc. simpl. lia.
  - intros h' p' cid Hin Hid. apply elem_of_app in Hin as [Hin|Hin].
    + by eapply Hk.
    + by apply list_elem_of_singleton in Hin.
  - destruct (decoder st); try done.
    destruct Hcomp as [?|[? Hn]]; [by left|right]. split; [done|].
    rewrite Hn, Hidle, idle_false_workers; [done|]. simpl. lia.
  - by (eapply sent_snoc; [|done]; lia).
Qed.

Lemma Inv_settle evs st st' j i r :
  Inv evs st -> step env (Settle j i r) st = Some st' ->
  Inv (evs ++ [Settle j i r]) st'.
Proof.
  intros [Hc Hj Hw Ha Hf Hk Hcomp Hs]. simpl.
  destruct (jobs st !! j) as [[task g]|] eqn:Ej; [|done].
  destruct (ops g !! i) as [[|?]|] eqn:Ei; try done.
  destruct (resolve i r g) as [g' fired] eqn:Er.
  assert (Hok : job_ok (task, g)).
  { eapply Forall_forall in Hj; [done|]. apply list_elem_of_lookup. eauto. }
  destruct (resolve_spec task i r g g' fired Hok Ei Er) as (Hok' & _ & Hacc & Hfired).
  pose proof (count_insert (fun job => negb (reported job)) _ _ _ (task, g') Ej) as Cw.
  pose proof (count_insert accepted _ _ _ (task, g') Ej) as Ca.
  pose proof (count_insert rejected _ _ _ (task, g') Ej) as Cr.
  rewrite Hacc in Ca. cbv beta in Cw.
  assert (Hjobs : Forall job_ok (<[j := (task, g')]> (jobs st))).
  { by apply Forall_insert. }
  assert (Hkept : ∀ s, toKeep (vars s) = toKeep (vars st) ->
            ∀ h p cid, Entry h p ∈ evs ++ [Settle j i r] -> record_id h = Some cid ->
            kept (toKeep (vars s)) cid = true).
  { intros s -> h' p' cid Hin Hid. apply elem_of_app in Hin as [Hin|Hin].
    - by eapply Hk.
    - by apply list_elem_of_singleton in Hin. }
  destruct fired as [err|].
  - (* the job reports its outcome *)
    intros [= <-]. set (st1 := with_jobs _ st).
    destruct (worker_done_effect env err st1)
      as (Eq & Ejobs & Ed & Ek & Ee & Ef & En & Esent).
    change (uploadQueue st1) with (uploadQueue st) in *.
    change (jobs st1) with (<[j := (task, g')]> (jobs st)) in *.
    change (decoder st1) with (decoder st) in *.
    change (vars st1) with (vars st) in *.
    change (out st1) with (out st) in *.
    change (finishRequests st1) with (finishRequests st) in *.
    assert (Hrep : reported (task, g) = false ∧ reported (task, g') = true)
      by (destruct Hok' as [_ Hr']; rewrite Hr';
          destruct err; destruct Hfired as (H0 & _ & Ha' & Hrj' & _);
          by rewrite Ha', Hrj').
    destruct Hrep as [Hr0 Hr1]. rewrite Hr0, Hr1 in Cw. simpl in Cw.
    assert (Hpos : (0 < workers (uploadQueue st))%nat) by lia.
    assert (Hq' : workers (Async.next (uploadQueue st)).1
                  = length (List.filter (fun job => negb (reported job))
                              (<[j := (task, g')]> (jobs st)))).
    { simpl. lia. }
    assert (Hidle : idle (uploadQueue st) = false) by by apply idle_false_workers.
    split.
    + by rewrite Eq.
    + by rewrite Ejobs.
    + by rewrite Eq, Ejobs.
    + rewrite Ee, Ejobs, Ha. destruct err as [e|]; simpl.
      * destruct Hfired as (_ & _ & Ha' & _). rewrite Ha' in Ca. simpl in Ca. lia.
      * destruct Hfired as (_ & _ & Ha' & _). rewrite Ha' in Ca. simpl in Ca. lia.
    + rewrite Ef, Ejobs, Hf, count_snoc. destruct err as [e|]; simpl.
      * destruct Hfired as (_ & Hr & _ & Hr' & _). rewrite Hr, Hr' in Cr. simpl in Cr. lia.
      * destruct Hfired as (_ & Hr & _ & Hr' & _). rewrite Hr, Hr' in Cr. simpl in Cr. lia.
    + by apply Hkept.
    + rewrite Ed, En, Eq. simpl (drain_armed _).
      destruct (decoder st).
      * destruct Hcomp as [-> ->]. by rewrite andb_false_r.
      * destruct Hcomp as [[-> ->]|[Harm Hn]].
        -- left. by rewrite andb_false_r.
        -- right. split; [done|]. rewrite Hn, Hidle, Harm, andb_true_r. done.
      * destruct Hcomp as [-> ->]. by rewrite andb_false_r.
      * destruct Hcomp as [-> ->]. by rewrite andb_false_r.
    + rewrite Ed, En.
      destruct Esent as [->|[Hfire ->]].
      * by (eapply sent_snoc; [|done]; lia).
      * rewrite Hfire. destruct (decoder st).
        -- rewrite length_app. simpl. lia.
        -- rewrite length_app. simpl. lia.
        -- destruct Hcomp as [_ Hdr]. simpl in Hfire.
           rewrite Hdr, andb_false_r in Hfire. done.
        -- destruct Hcomp as [_ Hdr]. simpl in Hfire.
           rewrite Hdr, andb_false_r in Hfire. done.
  - (* nothing is reported *)
    intros [= <-]. destruct Hfired as (Hr & Ha' & Hrej).
    rewrite Hr in Cw. rewrite Ha' in Ca. rewrite Hrej in Cr.
    split; unfold_setters; fields; try done.
    + lia.
    + lia.
    + rewrite count_snoc. simpl. lia.
    + by apply (Hkept st).
    + by (eapply sent_snoc; [|done]; lia).
Qed.

Lemma Inv_step evs ev st st' :
  Inv evs st -> step env ev st = Some st' -> Inv (evs ++ [ev]) st'.
Proof.
  intros HI. destruct ev.
  - simpl. destruct (decoder st) eqn:Ed; try done; intros [= <-];
      apply Inv_entry; auto.
  - simpl. destruct (decoder st) eqn:Ed; try done; intros [= <-];
      apply Inv_error; auto.
  - by apply Inv_gunzip.
  - simpl. destruct (decoder st) eqn:Ed; try done. intros [= <-]. by apply Inv_finish.
  - by apply Inv_process.
  - by apply Inv_settle.
Qed.

Lemma reachable_Inv evs : ∀ st, run env evs init = Some st -> Inv evs st.
Proof.
  induction evs as [|ev evs IH] using rev_ind; intros st.
  - simpl. intros [= <-]. apply Inv_init.
  - intros H. apply run_snoc in H as (st1 & H1 & H2). eapply Inv_step; eauto.
Qed.


Lemma filter_witness {A} (f : A -> bool) (l : list A) :
  (0 < length (List.filter f l))%nat -> ∃ j x, l !! j = Some x ∧ f x = true.
Proof.
  induction l as [|a l IH]; simpl; [lia|].
  destruct (f a) eqn:E.
  - intros _. by exists 0%nat, a.
  - intros H. destruct (IH H) as (j & x & ? & ?). by exists (S j), x.
Qed.

Lemma unreported_pending (job : Task * Group) :
  job_ok job -> reported job = false -> ∃ i, ops job.2 !! i = Some Pending.
Proof.
  destruct job as [t [[|o1 [|o2 [|o3 os]]] c]];
    unfold job_ok, reported, accepted, rejected; simpl; intros [Hl Hc]; try done.
  intros ->. destruct o1 as [|[|]], o2 as [|[|]]; simpl in Hc; try done;
    first [by exists 0%nat | by exists 1%nat].
Qed.

Lemma resolve_ops i r g : ops (resolve i r g).1 = <[i := Resolved r]> (ops g).
Proof. unfold resolve. destruct (called g), r; simpl; try done. by case_match. Qed.

Lemma step_measure ev st st' :
  decoder st = Finished -> step env ev st = Some st' ->
  decoder st' = decoder st ∧ (measure st' + 1 = measure st)%nat.
Proof.
  intros Hd. destruct ev; simpl; rewrite ?Hd; try done.
  - destruct (process (uploadQueue st)) as [[task q]|] eqn:Ep; [|done].
    apply process_Some in Ep as (rest & Et & Hlt & ->). intros [= <-].
    unfold measure. unfold_setters. fields. rewrite Et, in_flight_app.
    split; [done|]. unfold in_flight. simpl. lia.
  - destruct (jobs st !! job) as [[task g]|] eqn:Ej; [|done].
    destruct (ops g !! op) as [[|?]|] eqn:Ei; try done.
    pose proof (resolve_ops op r g) as Hops.
    destruct (resolve op r g) as [g' fired]. simpl in Hops.
    pose proof (in_flight_insert _ _ _ (task, g') Ej) as Hin. simpl in Hin.
    pose proof (count_insert is_pending _ _ _ (Resolved r) Ei) as Hc. simpl in Hc.
    rewrite <- Hops in Hc.
    destruct fired as [err|]; intros [= <-].
    + destruct (worker_done_effect env err (with_jobs (<[job:=(task, g')]> (jobs st)) st))
        as (Eq & Ejobs & Ed & _).
      unfold measure. rewrite Eq, Ejobs, Ed. unfold_setters. fields. simpl. split; [done|]. lia.
    + unfold measure. unfold_setters. fields. split; [done|]. lia.
Qed.

Lemma run_measure evs : ∀ st st',
  decoder st = Finished -> run env evs st = Some st' ->
  (measure st' + length evs = measure st)%nat.
Proof.
  induction evs as [|ev evs IH]; intros st st' Hd; simpl.
  - intros [= <-]. lia.
  - destruct (step env ev st) as [st1|] eqn:E; [|done].
    destruct (step_measure _ _ _ Hd E) as [Hd1 Hm]. intros H.
    apply IH in H; [lia|]. by rewrite Hd1.
Qed.

(** [finishRequest] is entered once.  In every state a request can reach,
    whatever the order in which entries are decoded, tasks are started,
    writes complete and decoding finishes: [finishRequest] has been entered
    at most once; once decoding has finished and the queue is idle it has
    been entered exactly once; as long as decoding has finished and it has
    not been entered, some task can still be started or some write can
    still complete; and after decoding has finished at most
    [3 * waiting + in flight] further events can occur. *)
Lemma finishRequest_entered_once (evs : list Event) (st : State) :
  run env evs init = Some st ->
  (finishRequests st <= 1)%nat
  ∧ (decoder st = Finished -> idle (uploadQueue st) = true -> finishRequests st = 1%nat)
  ∧ (decoder st = Finished -> finishRequests st = 0%nat ->
       ∃ ev st', step env ev st = Some st')
  ∧ (decoder st = Finished -> ∀ evs' st', run env evs' st = Some st' ->
       (length evs' <= 3 * length (tasks (uploadQueue st)) + in_flight (jobs st))%nat).
Proof.
  intros Hrun. destruct (reachable_Inv _ _ Hrun) as [Hc Hj Hw Ha Hf Hk Hcomp Hs].
  split; [|split; [|split]].
  - destruct (decoder st); try lia.
    destruct Hcomp as [[-> _]|[_ ->]]; [lia|]. destruct (idle _); simpl; lia.
  - intros Hd Hidle. rewrite Hd in Hcomp.
    destruct Hcomp as [[-> _]|[_ ->]]; [done|]. by rewrite Hidle.
  - intros Hd Hn. rewrite Hd in Hcomp.
    destruct Hcomp as [[? _]|[_ Hb]]; [lia|].
    rewrite Hn in Hb. destruct (idle (uploadQueue st)) eqn:Hidle; [done|].
    destruct (process (uploadQueue st)) as [[task q]|] eqn:Ep.
    { exists Process. simpl. rewrite Ep. eauto. }
    assert (Hpos : (0 < workers (uploadQueue st))%nat).
    { unfold idle in Hidle. apply Nat.eqb_neq in Hidle.
      unfold process in Ep. destruct (tasks (uploadQueue st)); [simpl in *; lia|].
      destruct (workers _ <? _)%nat eqn:E; [done|]. apply Nat.ltb_ge in E. lia. }
    rewrite Hw in Hpos. apply filter_witness in Hpos as (j & [task g] & Hjob & Hrep).
    apply negb_true_iff in Hrep.
    assert (Hok : job_ok (task, g)).
    { eapply Forall_forall in Hj; [done|]. apply list_elem_of_lookup. eauto. }
    destruct (unreported_pending _ Hok Hrep) as [i Hi]. simpl in Hi.
    exists (Settle j i None). simpl. rewrite Hjob, Hi.
    destruct (resolve i None g) as [g' [err|]]; eauto.
  - intros Hd evs' st' Hrun'.
    pose proof (run_measure evs' st st') as Hm. unfold measure in Hm.
    rewrite Hd in Hm. specialize (Hm ltac:(done) Hrun'). lia.
Qed.


Lemma on_entry_record h p st :
  is_record h = true -> on_entry h p st = handleStagingEnvelopeEntry (name h) p st.
Proof.
  unfold is_record, on_entry.
  destruct (String.eqb (type h) "file"); [|done]. simpl.
  destruct (match last _ with Some dname => _ | None => false end); [done|]. simpl.
  by intros ->.
Qed.

Lemma toDelete_kept existing m id :
  kept m id = true -> id ∉ toDelete existing m.
Proof.
  intros Hk. unfold toDelete. rewrite list_elem_of_In, filter_In, Hk. simpl.
  intros [_ ?]. done.
Qed.

(** C2.  For every content-record entry of the archive whose file name
    percent-decodes to [contentID]: the [entry] listener puts [contentID]
    into [toKeep] whatever the parsing of the body gives, [contentID] is
    still kept in every state reached after that entry, whatever became of
    the parsing and of the two writes, and so it is in no deletion set that
    reconciliation computes from that state. *)
Theorem batch_ids_survive (evs : list Event) (st : State) (header : Header)
    (parsed : Error + Json) (contentID : string) :
  run env evs init = Some st ->
  Entry header parsed ∈ evs ->
  record_id header = Some contentID ->
  (∀ s body, toKeep (vars (on_entry header body s))
             = <[contentID := true]> (toKeep (vars s)))
  ∧ kept (toKeep (vars st)) contentID = true
  ∧ (∀ existingContentIDs,
       contentID ∉ toDelete existingContentIDs (toKeep (vars st))).
Proof.
  intros Hrun Hin Hid.
  destruct (reachable_Inv _ _ Hrun) as [Hc Hj Hw Ha Hf Hk Hcomp Hs].
  pose proof (Hk _ _ _ Hin Hid) as Hkept.
  split; [|split; [done|]].
  - intros s body. unfold record_id in Hid.
    destruct (is_record header) eqn:Hrec; [|done].
    rewrite on_entry_record by done. unfold handleStagingEnvelopeEntry.
    rewrite Hid. by destruct body.
  - intros existing. by apply toDelete_kept.
Qed.


(** C3, as amended.  Handing a task to a worker issues the document-store
    write and the search-index write together.  In every reachable state
    each job has these two writes, and its outcome has been reported
    exactly when both have succeeded or one has failed; the accepted
    counter is the number of jobs whose two writes have both succeeded, the
    failure counter the number of records that did not parse plus the
    number of jobs with a failed write.  When a write of a job whose
    outcome is still open fails, the outcome is reported at once, whatever
    the state of the other write: the failure counter goes up by one, the
    worker is released and the waiting tasks stay in the queue. *)
Theorem write_outcome (evs : list Event) (st : State) :
  run env evs init = Some st ->
  (∀ task q, process (uploadQueue st) = Some (task, q) ->
     ∃ st', step env Process st = Some st'
            ∧ issued (out st')
              = issued (out st)
                ++ [StoreStagingEnvelope (contentID task) (envelope task);
                    IndexStagingEnvelope (contentID task) (envelope task)]
            ∧ jobs st' = jobs st ++ [(task, mkGroup [Pending; Pending] false)])
  ∧ (∀ j job, jobs st !! j = Some job ->
       length (ops job.2) = 2%nat
       ∧ reported job = accepted job || rejected job)
  ∧ envelopeCount (vars st) = length (List.filter accepted (jobs st))
  ∧ failureCount (vars st)
    = (length (List.filter unparsed evs)
       + length (List.filter rejected (jobs st)))%nat
  ∧ (∀ j i e st' job,
       step env (Settle j i (Some e)) st = Some st' ->
       jobs st !! j = Some job -> reported job = false ->
       failureCount (vars st') = S (failureCount (vars st))
       ∧ envelopeCount (vars st') = envelopeCount (vars st)
       ∧ workers (uploadQueue st') = pred (workers (uploadQueue st))
       ∧ tasks (uploadQueue st') = tasks (uploadQueue st)
       ∧ ∃ job', jobs st' !! j = Some job'
                 ∧ reported job' = true ∧ rejected job' = true
                 ∧ ops job'.2 = <[i := Resolved (Some e)]> (ops job.2)).
Proof.
  intros Hrun. destruct (reachable_Inv _ _ Hrun) as [Hc Hj Hw Ha Hf Hk Hcomp Hs].
  split; [|split; [|split; [done|split; [done|]]]].
  - intros task q Hp. simpl. rewrite Hp. eexists. split; [done|]. done.
  - intros j job Hjob. eapply Forall_forall in Hj; [exact Hj|].
    apply list_elem_of_lookup. eauto.
  - intros j i e st' [task g] Hstep Hjob Hrep. simpl in Hstep.
    rewrite Hjob in Hstep.
    destruct (ops g !! i) as [[|?]|] eqn:Ei; try done.
    assert (Hok : job_ok (task, g)).
    { eapply Forall_forall in Hj; [done|]. apply list_elem_of_lookup. eauto. }
    pose proof (resolve_ops i (Some e) g) as Hops.
    destruct (resolve i (Some e) g) as [g' fired] eqn:Er. simpl in Hops.
    destruct (resolve_spec task i (Some e) g g' fired Hok Ei Er) as ([_ Hok'] & _ & _ & Hfired).
    destruct fired as [[e'|]|].
    + injection Hstep as <-.
      destruct (worker_done_effect env (Some e')
                  (with_jobs (<[j:=(task, g')]> (jobs st)) st))
        as (Eq & Ejobs & Ed & _ & Ee & Ef & _).
      rewrite Eq, Ejobs, Ee, Ef. unfold_setters. fields. simpl.
      split; [lia|]. split; [lia|]. split; [done|]. split; [done|].
      exists (task, g'). split.
      * apply list_lookup_insert_eq. by eapply lookup_lt_Some.
      * destruct Hfired as (_ & _ & Ha' & Hr' & _).
        split; [by rewrite Hok', Ha', Hr'|]. done.
    + by destruct Hfired as (_ & _ & _ & _ & ? & _).
    + destruct Hfired as (Hr & _). unfold reported in *. simpl in *.
      unfold resolve in Er. rewrite Hrep in Er. done.
Qed.

End BulkProperties.

(** C5, at the failing input: an archive with [metadata/config.json]
    naming the base [X] and the record [X/a], uploaded while the store
    holds [X/a] and [X/c].  The deletion set is [X/c], but the binding
    [removeEnvelopes] of bulk.js is [undefined], since remove.js exports
    [removeStagingEnvelopes]: calling it throws, no deletion is requested
    from the storage facade and no response is sent. *)
Theorem reconciliation_throws :
  removeEnvelopes = None
  ∧ ∃ st,
      run (rt := Example.posix) Example.facade
        [Example.config_entry; Example.record_entry; Process;
         Settle 0 0 None; Settle 0 1 None; Finish] init = Some st
      ∧ contentIDBase (vars st) = Some (JStr "X")
      ∧ toDelete ["X/a"; "X/c"] (toKeep (vars st)) = ["X/c"]
      ∧ issued (out st)
        = [StoreStagingEnvelope "X/a" (JObj [("title", JStr "a")]);
           IndexStagingEnvelope "X/a" (JObj [("title", JStr "a")]);
           ListStagingEnvelopes (JStr "X")]
      ∧ thrown (out st) = [TypeError "removeEnvelopes is not a function"]
      ∧ sent (out st) = []
      ∧ nexts (out st) = [].
Proof.
  split; [reflexivity|]. eexists. split; [reflexivity|].
  repeat split; vm_compute; reflexivity.
Qed.

(** *** Worked instances *)

(** C3, as stated, fails: the document-store write of the only task fails
    while its search-index write is still in flight, and the failure is
    counted and the worker released at that moment. *)
Lemma outcome_before_both_resolve :
  ∃ st,
    run (rt := Example.posix) Example.facade
      [Example.record_entry; Process; Settle 0 0 (Some Example.write_failed)] init
    = Some st
    ∧ failureCount (vars st) = 1%nat
    ∧ workers (uploadQueue st) = 0%nat
    ∧ ¬ outcome_after_both st.
Proof.
  eexists. split; [reflexivity|]. split; [reflexivity|]. split; [reflexivity|].
  intros H.
  specialize (H (mkTask "X/a" (JObj [("title", JStr "a")]),
                 mkGroup [Resolved (Some Example.write_failed); Pending] true)).
  assert (Hall : Forall (fun o => is_pending o = false)
                   [Resolved (Some Example.write_failed); Pending]).
  { apply H; [left | reflexivity]. }
  apply Forall_cons in Hall as [_ Hall]. apply Forall_cons in Hall as [Hp _]. done.
Qed.

Lemma batch_ids_survive_witness :
  ∃ st, run (rt := Example.posix) Example.facade
          [Example.config_entry;
           Entry Example.record_header (inl Example.write_failed); Finish] init
        = Some st
        ∧ "X/a" ∉ toDelete ["X/a"; "X/c"] (toKeep (vars st)).
Proof.
  destruct (run (rt := Example.posix) Example.facade
              [Example.config_entry;
               Entry Example.record_header (inl Example.write_failed); Finish] init)
    as [st|] eqn:E; [|by vm_compute in E].
  exists st. split; [done|].
  eapply (batch_ids_survive (rt := Example.posix) _ _ _ Example.record_header).
  - exact E.
  - right. left.
  - vm_compute. reflexivity.
Defined.

Lemma write_outcome_witness :
  ∃ st, run (rt := Example.posix) Example.facade
          [Example.record_entry; Process; Settle 0 1 (Some Example.write_failed)] init
        = Some st
        ∧ envelopeCount (vars st) = length (List.filter accepted (jobs st))
        ∧ failureCount (vars st) = 1%nat.
Proof.
  destruct (run (rt := Example.posix) Example.facade
              [Example.record_entry; Process; Settle 0 1 (Some Example.write_failed)] init)
    as [st|] eqn:E; [|by vm_compute in E].
  exists st. split; [done|].
  destruct (write_outcome (rt := Example.posix) _ _ _ E) as (_ & _ & Ha & _).
  split; [exact Ha|]. vm_compute in E. injection E as <-. reflexivity.
Defined.

End BulkFacts.

(* ===================================================================== *)
(** * The bulk upload, read against the archive                           *)
(* ===================================================================== *)

Module ArchiveFacts.
Import Js Async Storage Bulk Archive BulkFacts.

(** ** What [finishRequest] does, case by case *)

Lemma finishRequest_frame env st :
  let st' := finishRequest env st in
  uploadQueue st' = uploadQueue st ∧ jobs st' = jobs st
  ∧ decoder st' = decoder st
  ∧ contentIDBase (vars st') = contentIDBase (vars st)
  ∧ envelopeCount (vars st') = envelopeCount (vars st)
  ∧ failureCount (vars st') = failureCount (vars st)
  ∧ toKeep (vars st') = toKeep (vars st)
  ∧ finishRequests st' = S (finishRequests st).
Proof.
  destruct (finishRequest_effect env st) as ((?&?&?&?&?&?&?) & ? & _).
  by repeat split.
Qed.

Lemma finishRequest_issued env st :
  issued (out (finishRequest env st))
  = issued (out st)
    ++ match contentIDBase (vars st) with
       | Some base => [ListStagingEnvelopes base]
       | None => []
       end.
Proof.
  unfold finishRequest, removeDeletedStagingContent, reconciled. fields.
  destruct (contentIDBase (vars st)) as [base|].
  2:{ simpl. by rewrite app_nil_r. }
  destruct (listStagingEnvelopes env base) as [err|existing]; [done|].
  change removeEnvelopes with (@None Remove.Export). done.
Qed.

(** The responses, the calls of [next] and the deletion count after
    [finishRequest]. *)
Lemma finishRequest_answer env st :
  let st' := finishRequest env st in
  match contentIDBase (vars st) with
  | None =>
      sent (out st') = sent (out st) ++ [report (vars st)]
      ∧ nexts (out st') = nexts (out st) ++ [None]
      ∧ deletionCount (vars st') = deletionCount (vars st)
      ∧ thrown (out st') = thrown (out st)
  | Some base =>
      match listStagingEnvelopes env base with
      | inl err =>
          sent (out st') = sent (out st) ++ [report (vars st)]
          ∧ nexts (out st')
            = nexts (out st) ++ [Some (with_statusCode 400 err); None]
          ∧ deletionCount (vars st') = deletionCount (vars st)
          ∧ thrown (out st') = thrown (out st)
      | inr existingContentIDs =>
          sent (out st') = sent (out st)
          ∧ nexts (out st') = nexts (out st)
          ∧ deletionCount (vars st')
            = length (toDelete existingContentIDs (toKeep (vars st)))
          ∧ thrown (out st')
            = thrown (out st) ++ [TypeError "removeEnvelopes is not a function"]
      end
  end.
Proof.
  unfold finishRequest, removeDeletedStagingContent, reconciled. fields.
  destruct (contentIDBase (vars st)) as [base|]; [|done].
  destruct (listStagingEnvelopes env base) as [err|existing].
  - unfold reportCompletion. unfold_setters. unfold_setters. fields.
    repeat split; try done. by rewrite <- app_assoc.
  - change removeEnvelopes with (@None Remove.Export). done.
Qed.

(** ** What the router does with an entry *)

Section Router.
Context {rt : Runtime}.

Lemma on_entry_config h p st :
  is_config h = true -> on_entry h p st = handleConfigEntry p st.
Proof.
  unfold is_config, in_metadata, on_entry. intros H.
  apply andb_prop in H as [H Hb]. apply andb_prop in H as [Ht Hd].
  by rewrite Ht, Hd, Hb.
Qed.

Lemma on_entry_keep h p st :
  is_keep h = true -> on_entry h p st = handleKeepEntry p st.
Proof.
  unfold is_keep, in_metadata, on_entry. intros H.
  apply andb_prop in H as [H Hb]. apply andb_prop in H as [Ht Hd].
  rewrite Ht, Hd. simpl. apply String.eqb_eq in Hb. by rewrite Hb.
Qed.

Lemma on_entry_envelope h p st :
  is_record h = true -> on_entry h p st = handleStagingEnvelopeEntry (name h) p st.
Proof.
  unfold is_record, on_entry. intros H.
  apply andb_prop in H as [H He]. apply andb_prop in H as [Ht Hd].
  apply negb_true_iff in Hd. by rewrite Ht, Hd, He.
Qed.

Lemma on_entry_other h p st :
  is_config h = false -> is_keep h = false -> is_record h = false ->
  on_entry h p st = st.
Proof.
  unfold is_config, is_keep, is_record, in_metadata, on_entry.
  destruct (String.eqb (type h) "file"); [|done]. simpl.
  destruct (match last _ with Some dname => _ | None => false end); simpl.
  - intros -> ->. done.
  - intros _ _ ->. done.
Qed.

(** The three kinds exclude each other. *)
Lemma kinds_apart h :
  (is_config h = true -> is_keep h = false ∧ is_record h = false)
  ∧ (is_keep h = true -> is_config h = false ∧ is_record h = false)
  ∧ (is_record h = true -> is_config h = false ∧ is_keep h = false).
Proof.
  unfold is_config, is_keep, is_record, in_metadata.
  destruct (String.eqb (type h) "file"); [|done]. simpl.
  destruct (match last _ with Some dname => _ | None => false end); simpl.
  - split; [|split]; try done.
    + intros ->%String.eqb_eq. done.
    + intros ->%String.eqb_eq. done.
  - done.
Qed.

End Router.

(** ** What an entry adds to the queue, to the keep set and to the base *)

Lemma handleConfigEntry_base p st :
  let st' := handleConfigEntry p st in
  nexts (out st') = nexts (out st)
  ∧ contentIDBase (vars st')
    = match p with
      | inr config =>
          match get config "contentIDBase" with
          | Some (Some base) =>
              if truthy base then Some base else contentIDBase (vars st)
          | _ => contentIDBase (vars st)
          end
      | inl _ => contentIDBase (vars st)
      end.
Proof.
  unfold handleConfigEntry. destruct p as [e|config]; [done|].
  destruct (get config "contentIDBase") as [[base|]|]; try done.
  by destruct (truthy base).
Qed.

Section Entries.
Context {rt : Runtime}.

Lemma keep_each_exact ids : ∀ st,
  let st' := keep_each ids st in
  nexts (out st') = nexts (out st)
  ∧ (∀ id, kept (toKeep (vars st')) id = true
           ↔ kept (toKeep (vars st)) id = true ∨ id ∈ keys ids).
Proof.
  assert (Hnil : ∀ (st : State) (id : string),
    kept (toKeep (vars st)) id = true
    ↔ kept (toKeep (vars st)) id = true ∨ id ∈ @nil string).
  { intros st id. split; [by left|]. intros [?|H]; [done|]. by apply elem_of_nil in H. }
  induction ids as [|i ids IH]; intros st; simpl; [by split|].
  destruct (to_string i) as [key|]; [|by split].
  destruct (IH (Bulk.keep key st)) as (Hn & Hk).
  split; [by rewrite Hn|]. intros id. rewrite Hk, kept_keep.
  rewrite elem_of_cons. case_decide; naive_solver.
Qed.

Lemma handleKeepEntry_exact p st :
  let st' := handleKeepEntry p st in
  nexts (out st') = nexts (out st)
  ∧ contentIDBase (vars st') = contentIDBase (vars st)
  ∧ (∀ id, kept (toKeep (vars st')) id = true
           ↔ kept (toKeep (vars st)) id = true
             ∨ id ∈ match p with
                    | inr manifest =>
                        match get manifest "keep" with
                        | Some (Some (JArr ids)) => keys ids
                        | _ => []
                        end
                    | inl _ => []
                    end).
Proof.
  assert (Hnil : ∀ id : string,
    kept (toKeep (vars st)) id = true
    ↔ kept (toKeep (vars st)) id = true ∨ id ∈ @nil string).
  { intros id. split; [by left|]. intros [?|H]; [done|]. by apply elem_of_nil in H. }
  unfold handleKeepEntry. destruct p as [e|manifest]; [done|].
  destruct (get manifest "keep") as [[v|]|]; try done.
  destruct v; simpl; try done.
  - by destruct b.
  - by destruct (negb (n =? 0)%Z).
  - by destruct (negb (String.eqb s "")).
  - destruct (keep_each_exact items st) as (? & ?).
    destruct (keep_fold items st) as (_ & _ & _ & ? & _). done.
Qed.

Lemma handleStagingEnvelopeEntry_exact entryPath p st :
  let st' := handleStagingEnvelopeEntry entryPath p st in
  let decoded := decodeURIComponent (path_basename_ext entryPath ".json") in
  nexts (out st') = nexts (out st)
  ∧ contentIDBase (vars st') = contentIDBase (vars st)
  ∧ tasks (uploadQueue st')
    = tasks (uploadQueue st)
      ++ match decoded, p with
         | Some contentID, inr envelope => [mkTask contentID envelope]
         | _, _ => []
         end
  ∧ (∀ id, kept (toKeep (vars st')) id = true
           ↔ kept (toKeep (vars st)) id = true
             ∨ id ∈ match decoded with Some contentID => [contentID] | None => [] end).
Proof.
  unfold handleStagingEnvelopeEntry.
  destruct (decodeURIComponent _) as [cid|]; simpl.
  - assert (Hk : ∀ s, toKeep (vars s) = toKeep (vars (Bulk.keep cid st)) ->
        ∀ id, kept (toKeep (vars s)) id = true
              ↔ kept (toKeep (vars st)) id = true ∨ id ∈ [cid]).
    { intros s -> id. rewrite kept_keep, list_elem_of_singleton.
      case_decide; naive_solver. }
    destruct p as [e|envelope].
    + repeat split; try done; try by apply Hk.
      all: try (unfold_setters; fields; by rewrite ?app_nil_r).
      all: by apply Hk.
    + repeat split; try done; try by apply Hk.
      all: by apply Hk.
  - repeat split; try done.
    + by rewrite app_nil_r.
    + by left.
    + intros [?|H]; [done|]. by apply elem_of_nil in H.
Qed.

Lemma on_entry_exact h p st :
  let st' := on_entry h p st in
  nexts (out st') = nexts (out st)
  ∧ contentIDBase (vars st')
    = match captured (Entry h p) with
      | Some base => Some base
      | None => contentIDBase (vars st)
      end
  ∧ tasks (uploadQueue st') = tasks (uploadQueue st) ++ pushed_by (Entry h p)
  ∧ (∀ id, kept (toKeep (vars st')) id = true
           ↔ kept (toKeep (vars st)) id = true ∨ id ∈ protects (Entry h p)).
Proof.
  assert (Hnil : ∀ id : string,
    kept (toKeep (vars st)) id = true
    ↔ kept (toKeep (vars st)) id = true ∨ id ∈ @nil string).
  { intros id. split; [by left|]. intros [?|H]; [done|]. by apply elem_of_nil in H. }
  destruct (kinds_apart h) as (Hc & Hk & Hr).
  unfold captured, pushed_by, protects, manifest_ids, record_id.
  destruct (is_config h) eqn:Ec.
  { destruct (Hc eq_refl) as (-> & ->). rewrite on_entry_config by done.
    destruct (handleConfigEntry_base p st) as (Hn & Hb).
    destruct (handleConfigEntry_effect p st) as (_ & Hq & _ & Ht).
    rewrite Hn, Hb, Hq, Ht. simpl.
    split; [done|]. split.
    { destruct p as [e|config]; [done|].
      destruct (get config "contentIDBase") as [[base|]|]; try done.
      by destruct (truthy base). }
    split; [by destruct p; rewrite app_nil_r|]. by destruct p. }
  destruct (is_keep h) eqn:Ek.
  { destruct (Hk eq_refl) as (_ & ->). rewrite on_entry_keep by done.
    destruct (handleKeepEntry_exact p st) as (Hn & Hb & Hkept).
    destruct (handleKeepEntry_effect p st) as (_ & Hq & _).
    rewrite Hn, Hb, Hq. simpl.
    split; [done|]. split; [by destruct p|].
    split; [by destruct p; rewrite app_nil_r|]. by destruct p. }
  destruct (is_record h) eqn:Er.
  { rewrite on_entry_envelope by done.
    destruct (handleStagingEnvelopeEntry_exact (name h) p st) as (Hn & Hb & Hq & Hkept).
    rewrite Hn, Hb, Hq.
    split; [done|]. split; [by destruct p|].
    split.
    { destruct p, (decodeURIComponent _); done. }
    intros id. rewrite Hkept. destruct p, (decodeURIComponent _); simpl; done. }
  rewrite on_entry_other by done. simpl.
  split; [done|]. split; [by destruct p|].
  split; [by destruct p; rewrite app_nil_r|]. by destruct p.
Qed.

End Entries.

(** ** Steps *)

Lemma worker_done_unfold env err st :
  ∃ st2,
    worker_done env err st
    = (if idle (uploadQueue st2) && drain_armed (uploadQueue st2)
       then finishRequest env st2 else st2)
    ∧ uploadQueue st2 = (Async.next (uploadQueue st)).1
    ∧ jobs st2 = jobs st ∧ decoder st2 = decoder st ∧ out st2 = out st
    ∧ finishRequests st2 = finishRequests st
    ∧ contentIDBase (vars st2) = contentIDBase (vars st)
    ∧ toKeep (vars st2) = toKeep (vars st)
    ∧ deletionCount (vars st2) = deletionCount (vars st).
Proof.
  unfold worker_done.
  set (st1 := match err with Some e => _ | None => _ end).
  assert (H1 : uploadQueue st1 = uploadQueue st ∧ jobs st1 = jobs st
               ∧ decoder st1 = decoder st ∧ out st1 = out st
               ∧ finishRequests st1 = finishRequests st
               ∧ contentIDBase (vars st1) = contentIDBase (vars st)
               ∧ toKeep (vars st1) = toKeep (vars st)
               ∧ deletionCount (vars st1) = deletionCount (vars st)).
  { unfold st1. destruct err; unfold_setters; fields; by repeat split. }
  destruct H1 as (Hq & Hj & Hd & Ho & Hn & Hb & Hk & Hc).
  rewrite Hq. unfold Async.next. cbn [fst snd].
  set (q' := mkQueue _ _ _ _).
  exists (with_queue q' st1). unfold with_queue. fields.
  by repeat split.
Qed.

Section Runs.
Context {rt : Runtime}.
Variable env : Env.

Lemma step_cases ev st st' :
  step env ev st = Some st' ->
  (∃ h p, ev = Entry h p ∧ (decoder st = Decoding ∨ decoder st = Stalled)
          ∧ st' = on_entry h p st)
  ∨ (∃ err, ev = ArchiveError err ∧ (decoder st = Decoding ∨ decoder st = Stalled)
            ∧ st' = on_error err st)
  ∨ (ev = Finish ∧ decoder st = Decoding ∧ st' = on_finish env st)
  ∨ (∃ task rest,
       ev = Process ∧ tasks (uploadQueue st) = task :: rest
       ∧ (workers (uploadQueue st) < concurrency (uploadQueue st))%nat
       ∧ st' = issue (writes task)
                 (with_jobs (jobs st ++ [(task, start 2)])
                    (with_queue (mkQueue rest (S (workers (uploadQueue st)))
                                   (concurrency (uploadQueue st))
                                   (drain_armed (uploadQueue st))) st)))
  ∨ (∃ j i r task g,
       ev = Settle j i r ∧ jobs st !! j = Some (task, g)
       ∧ ops g !! i = Some Pending
       ∧ st' = match (resolve i r g).2 with
               | Some err =>
                   worker_done env err
                     (with_jobs (<[j := (task, (resolve i r g).1)]> (jobs st)) st)
               | None => with_jobs (<[j := (task, (resolve i r g).1)]> (jobs st)) st
               end)
  ∨ (∃ err, ev = GunzipError err
            ∧ (decoder st = Decoding ∨ decoder st = Broken)
            ∧ st' = on_gunzip_error err st).
Proof.
  destruct ev as [h p|err|gerr| | |j i r]; simpl.
  - destruct (decoder st) eqn:Ed; try done; intros [= <-]; left; exists h, p; auto.
  - destruct (decoder st) eqn:Ed; try done; intros [= <-]; right; left; exists err; auto.
  - destruct (decoder st) eqn:Ed; try done; intros [= <-]; do 5 right; exists gerr;
      (split; [done|]); (split; [|done]); [by left|by right].
  - destruct (decoder st) eqn:Ed; try done. intros [= <-]. by right; right; left.
  - destruct (process (uploadQueue st)) as [[task q]|] eqn:Ep; [|done].
    intros [= <-]. apply process_Some in Ep as (rest & Ht & Hw & ->).
    right; right; right; left. by exists task, rest.
  - destruct (jobs st !! j) as [[task g]|] eqn:Ej; [|done].
    destruct (ops g !! i) as [[|?]|] eqn:Ei; try done.
    destruct (resolve i r g) as [g' fired] eqn:Er. intros H.
    right; right; right; right; left. exists j, i, r, task, g.
    repeat split; try done. rewrite Er. simpl. by destruct fired; injection H as <-.
Qed.

Lemma step_entry h p st st' :
  step env (Entry h p) st = Some st' -> st' = on_entry h p st.
Proof. simpl. by destruct (decoder st); intros [= <-]. Qed.

Lemma reachable_ind (P : list Event -> State -> Prop) :
  P [] init ->
  (∀ evs ev st st',
     run env evs init = Some st -> run env (evs ++ [ev]) init = Some st' ->
     step env ev st = Some st' -> P evs st -> P (evs ++ [ev]) st') ->
  ∀ evs st, run env evs init = Some st -> P evs st.
Proof.
  intros H0 Hstep evs. induction evs as [|ev evs IH] using rev_ind; intros st Hrun.
  - simpl in Hrun. by injection Hrun as <-.
  - destruct (run_snoc env _ _ _ _ Hrun) as (st1 & Hrun1 & Hs).
    eapply Hstep; eauto.
Qed.

(** What a step leaves alone.  [finishRequest] touches only the
    outputs, the deletion count and its own counter. *)
Lemma step_frame ev st st' :
  step env ev st = Some st' ->
  (∀ h p, ev ≠ Entry h p) ->
  contentIDBase (vars st') = contentIDBase (vars st)
  ∧ toKeep (vars st') = toKeep (vars st)
  ∧ List.map fst (jobs st') ++ tasks (uploadQueue st')
    = List.map fst (jobs st) ++ tasks (uploadQueue st)
  ∧ (workers (uploadQueue st') <= concurrency (uploadQueue st')
     ∨ workers (uploadQueue st') <= workers (uploadQueue st))%nat
  ∧ concurrency (uploadQueue st') = concurrency (uploadQueue st).
Proof.
  intros Hs Hne.
  destruct (step_cases _ _ _ Hs)
    as [(h & p & -> & _)|[(err & -> & Hd & ->)|[(-> & Hd & ->)|
        [(task & rest & -> & Ht & Hw & ->)|
         [(j & i & r & task & g & -> & Hj & Hi & ->)|(gerr & -> & Hd & ->)]]]]].
  6:{ unfold on_gunzip_error. destruct (decoder st); unfold_setters; fields;
        repeat split; try done; by right. }
  - by destruct (Hne h p).
  - unfold on_error. unfold_setters. unfold_setters. fields. repeat split; try done. by right.
  - unfold on_finish, running.
    change (uploadQueue (with_decoder Finished st)) with (uploadQueue st).
    destruct (0 <? workers (uploadQueue st))%nat.
    + unfold_setters. fields. repeat split; try done. by right.
    + destruct (finishRequest_frame env (with_decoder Finished st))
        as (Hq & Hjb & _ & Hb & _ & _ & Hk & _).
      rewrite Hq, Hjb, Hb, Hk. repeat split; try done. right; simpl; lia.
  - unfold_setters. fields. rewrite Ht. repeat split; try done.
    + rewrite map_app. simpl. by rewrite <- app_assoc.
    + left. lia.
  - set (st1 := with_jobs _ st).
    assert (Hm : List.map fst (jobs st1) = List.map fst (jobs st)).
    { unfold st1, with_jobs. fields.
      change (List.map fst) with (fmap (M := list) (@fst Task Group)).
      rewrite list_fmap_insert. apply list_insert_id.
      rewrite list_lookup_fmap, Hj. done. }
    destruct ((resolve i r g).2) as [err|].
    + destruct (worker_done_unfold env err st1)
        as (st2 & -> & Hq & Hj2 & Hd2 & Ho2 & Hn2 & Hb2 & Hk2 & Hc2).
      assert (Hgoal : contentIDBase (vars st2) = contentIDBase (vars st)
                ∧ toKeep (vars st2) = toKeep (vars st)
                ∧ List.map fst (jobs st2) ++ tasks (uploadQueue st2)
                  = List.map fst (jobs st) ++ tasks (uploadQueue st)
                ∧ (workers (uploadQueue st2) <= concurrency (uploadQueue st2)
                   ∨ workers (uploadQueue st2) <= workers (uploadQueue st))%nat
                ∧ concurrency (uploadQueue st2) = concurrency (uploadQueue st)).
      { rewrite Hb2, Hk2, Hj2, Hq, Hm. unfold st1, with_jobs, Async.next. fields.
        simpl. repeat split; try done. right; lia. }
      destruct (_ && _); [|done].
      destruct (finishRequest_frame env st2) as (Hq' & Hjb' & _ & Hb' & _ & _ & Hk' & _).
      by rewrite Hq', Hjb', Hb', Hk'.
    + rewrite Hm. unfold st1, with_jobs. fields. repeat split; try done. right; lia.
Qed.

(** ** The queue *)

Lemma workers_within evs st :
  run env evs init = Some st ->
  (workers (uploadQueue st) <= concurrency (uploadQueue st))%nat.
Proof.
  revert evs st. apply reachable_ind; [simpl; lia|].
  intros evs ev st st' Hrun Hrun' Hs IH.
  destruct ev as [h p| | | | |].
  - apply step_entry in Hs as ->.
    destruct (on_entry_effect h p st) as ((_&_&_&Hw&Hc&_) & _).
    rewrite Hw, Hc. done.
  - destruct (step_frame _ _ _ Hs) as (_ & _ & _ & [?|?] & Hc); [done|done|].
    rewrite Hc. lia.
  - destruct (step_frame _ _ _ Hs) as (_ & _ & _ & [?|?] & Hc); [done|done|].
    rewrite Hc. lia.
  - destruct (step_frame _ _ _ Hs) as (_ & _ & _ & [?|?] & Hc); [done|done|].
    rewrite Hc. lia.
  - destruct (step_frame _ _ _ Hs) as (_ & _ & _ & [?|?] & Hc); [done|done|].
    rewrite Hc. lia.
  - destruct (step_frame _ _ _ Hs) as (_ & _ & _ & [?|?] & Hc); [done|done|].
    rewrite Hc. lia.
Qed.

(** X1.  The queue never has more than ten records being written: in
    every state a request can reach, at most ten workers are busy, and
    at most ten jobs are still waiting for their outcome. *)
Theorem at_most_ten_workers (evs : list Event) (st : State) :
  run env evs init = Some st ->
  (workers (uploadQueue st) <= 10)%nat
  ∧ (length (List.filter (fun job => negb (reported job)) (jobs st)) <= 10)%nat.
Proof.
  intros Hrun. pose proof (workers_within _ _ Hrun) as Hw.
  destruct (reachable_Inv env _ _ Hrun) as [Hc _ Hu _ _ _ _ _].
  rewrite <- Hu, <- Hc. done.
Qed.

Lemma pushed_snoc evs ev : pushed (evs ++ [ev]) = pushed evs ++ pushed_by ev.
Proof. unfold pushed. rewrite flat_map_app. simpl. by rewrite app_nil_r. Qed.

Lemma queue_order evs st :
  run env evs init = Some st ->
  List.map fst (jobs st) ++ tasks (uploadQueue st) = pushed evs.
Proof.
  revert evs st. apply reachable_ind; [done|].
  intros evs ev st st' Hrun Hrun' Hs IH. rewrite pushed_snoc.
  destruct ev as [h p|err|gerr| | |j i r].
  - apply step_entry in Hs as ->.
    destruct (on_entry_effect h p st) as ((Hj&_) & _).
    destruct (on_entry_exact h p st) as (_ & _ & Ht & _).
    rewrite Hj, Ht, app_assoc, IH. done.
  - destruct (step_frame _ _ _ Hs) as (_ & _ & H & _); [done|].
    rewrite H, IH. simpl. by rewrite app_nil_r.
  - destruct (step_frame _ _ _ Hs) as (_ & _ & H & _); [done|].
    rewrite H, IH. simpl. by rewrite app_nil_r.
  - destruct (step_frame _ _ _ Hs) as (_ & _ & H & _); [done|].
    rewrite H, IH. simpl. by rewrite app_nil_r.
  - destruct (step_frame _ _ _ Hs) as (_ & _ & H & _); [done|].
    rewrite H, IH. simpl. by rewrite app_nil_r.
  - destruct (step_frame _ _ _ Hs) as (_ & _ & H & _); [done|].
    rewrite H, IH. simpl. by rewrite app_nil_r.
Qed.

(** X2.  The records whose body parses are handed to the workers in the
    order of the archive, each one once: the tasks started so far,
    followed by those still waiting, are the tasks of the archive's
    records in order. *)
Theorem records_started_in_order (evs : list Event) (st : State) :
  run env evs init = Some st ->
  List.map fst (jobs st) ++ tasks (uploadQueue st) = pushed evs.
Proof. apply queue_order. Qed.

(** ** Counting *)

Lemma accepted_not_rejected (job : Task * Group) :
  accepted job = true -> rejected job = false.
Proof.
  unfold accepted, rejected. induction (ops job.2) as [|o os IH]; [done|].
  simpl. intros [Ho Hos]%andb_prop. rewrite (IH Hos).
  by destruct o as [|[e|]].
Qed.

Lemma jobs_partition (js : list (Task * Group)) :
  Forall job_ok js ->
  length js
  = (length (List.filter accepted js) + length (List.filter rejected js)
     + length (List.filter (fun job => negb (reported job)) js))%nat.
Proof.
  induction 1 as [|job js [_ Hr] _ IH]; [done|]. simpl. rewrite Hr.
  destruct (accepted job) eqn:Ea.
  - rewrite (accepted_not_rejected _ Ea). simpl. lia.
  - destruct (rejected job); simpl; lia.
Qed.

Lemma records_split evs :
  records evs = (length (List.filter unparsed evs) + length (pushed evs))%nat.
Proof.
  unfold records. induction evs as [|ev evs IH]; [done|].
  change (pushed (ev :: evs)) with (pushed_by ev ++ pushed evs).
  rewrite length_app. simpl.
  destruct ev as [h [e|envelope]| | | | |]; simpl; try done.
  - destruct (record_id h); simpl; lia.
  - destruct (record_id h); simpl; lia.
Qed.

(** X3.  No record is lost from the count: at any moment the records
    accepted, those failed, those waiting in the queue and those being
    written add up to the number of content records the archive has
    delivered; once the queue is idle, accepted and failed alone do. *)
Theorem every_record_accounted (evs : list Event) (st : State) :
  run env evs init = Some st ->
  (envelopeCount (vars st) + failureCount (vars st)
   + length (tasks (uploadQueue st)) + workers (uploadQueue st)
   = records evs)%nat
  ∧ (idle (uploadQueue st) = true ->
     (envelopeCount (vars st) + failureCount (vars st) = records evs)%nat).
Proof.
  intros Hrun.
  assert (H : (envelopeCount (vars st) + failureCount (vars st)
               + length (tasks (uploadQueue st)) + workers (uploadQueue st)
               = records evs)%nat).
  { destruct (reachable_Inv env _ _ Hrun) as [_ Hj Hw Ha Hf _ _ _].
    pose proof (queue_order _ _ Hrun) as Hp.
    apply (f_equal length) in Hp. rewrite length_app, length_map in Hp.
    rewrite records_split, <- Hp, Ha, Hf, Hw, (jobs_partition _ Hj). lia. }
  split; [done|]. unfold idle. intros Hi%Nat.eqb_eq. lia.
Qed.

(** ** The keep set and the base *)

Lemma protected_snoc evs ev : protected (evs ++ [ev]) = protected evs ++ protects ev.
Proof. unfold protected. rewrite flat_map_app. simpl. by rewrite app_nil_r. Qed.

Lemma kept_protected evs st :
  run env evs init = Some st ->
  ∀ id, kept (toKeep (vars st)) id = true ↔ inherited id = true ∨ id ∈ protected evs.
Proof.
  revert evs st.
  apply (reachable_ind
           (fun evs st => ∀ id, kept (toKeep (vars st)) id = true
                                ↔ inherited id = true ∨ id ∈ protected evs)).
  { intros id. unfold kept. simpl. rewrite lookup_empty, orb_false_r.
    split; [by left|]. intros [?|H]; [done|]. by apply elem_of_nil in H. }
  intros evs ev st st' Hrun Hrun' Hs IH id. rewrite protected_snoc, elem_of_app.
  destruct ev as [h p|err|gerr| | |j i r].
  1:{ apply step_entry in Hs as ->.
      destruct (on_entry_exact h p st) as (_ & _ & _ & Hk). rewrite Hk, IH.
      tauto. }
  all: destruct (step_frame _ _ _ Hs) as (_ & -> & _); [done|].
  all: rewrite IH; split; [intros [?|?]; [by left|by right; left]|].
  all: intros [?|[?|H]]; [by left|by right|by apply elem_of_nil in H].
Qed.

(** X4.  The keep set is what the archive names, on top of what every
    JavaScript object answers to: [toKeep[id]] is truthy if and only if
    [id] is a property name that [Object.prototype] supplies, or the
    archive held a content record for [id], or a keep manifest listed it
    before any element that has no string conversion.  The deletion set
    computed from a listing is therefore the listed ids that are none of
    these. *)
Theorem keep_set_is_archive (evs : list Event) (st : State) :
  run env evs init = Some st ->
  (∀ id, kept (toKeep (vars st)) id = true
         ↔ inherited id = true ∨ id ∈ protected evs)
  ∧ (∀ existingContentIDs,
       toDelete existingContentIDs (toKeep (vars st))
       = List.filter (fun id => negb (inherited id)
                                && negb (bool_decide (id ∈ protected evs)))
           existingContentIDs).
Proof.
  intros Hrun. pose proof (kept_protected _ _ Hrun) as Hk. split; [done|].
  intros existing. unfold toDelete. apply filter_ext. intros id.
  rewrite <- negb_orb. f_equal.
  destruct (kept (toKeep (vars st)) id) eqn:E.
  - symmetry. apply orb_true_iff. destruct (proj1 (Hk id) E) as [?|?]; [by left|].
    right. by apply bool_decide_eq_true.
  - symmetry. apply orb_false_iff. split.
    + destruct (inherited id) eqn:Ei; [|done].
      rewrite (proj2 (Hk id) (or_introl Ei)) in E. done.
    + apply bool_decide_eq_false. intros H.
      rewrite (proj2 (Hk id) (or_intror H)) in E. done.
Qed.

Lemma last_base_snoc evs ev :
  last_base (evs ++ [ev])
  = match captured ev with
    | Some base => Some base
    | None => last_base evs
    end.
Proof. unfold last_base. by rewrite fold_left_app. Qed.

Lemma base_captured evs st :
  run env evs init = Some st ->
  contentIDBase (vars st) = last_base evs.
Proof.
  revert evs st. apply reachable_ind; [done|].
  intros evs ev st st' Hrun Hrun' Hs IH. rewrite last_base_snoc.
  destruct ev as [h p|err|gerr| | |j i r].
  - apply step_entry in Hs as ->.
    destruct (on_entry_exact h p st) as (_ & -> & _). by rewrite IH.
  - by destruct (step_frame _ _ _ Hs) as (-> & _).
  - by destruct (step_frame _ _ _ Hs) as (-> & _).
  - by destruct (step_frame _ _ _ Hs) as (-> & _).
  - by destruct (step_frame _ _ _ Hs) as (-> & _).
  - by destruct (step_frame _ _ _ Hs) as (-> & _).
Qed.

(** X5.  The base used for reconciliation is the [contentIDBase] of the
    last [metadata/config.json] that carries a truthy one; a config that
    does not parse, is [null], or lacks the key leaves the base of an
    earlier config in place. *)
Theorem base_is_last_config (evs : list Event) (st : State) :
  run env evs init = Some st ->
  contentIDBase (vars st) = last_base evs.
Proof. apply base_captured. Qed.

(** ** What the handler does to the outside *)

(** A step is a change of the request's own state, possibly followed by
    [finishRequest]. *)
Lemma step_core ev st st' :
  step env ev st = Some st' ->
  ∃ st2,
    (st' = st2 ∨ st' = finishRequest env st2)
    ∧ finishRequests st2 = finishRequests st
    ∧ deletionCount (vars st2) = deletionCount (vars st)
    ∧ sent (out st2)
      = sent (out st) ++ match ev with
                         | ArchiveError err => [mkResponse 400 (ErrorBody err)]
                         | _ => []
                         end
    ∧ nexts (out st2)
      = nexts (out st) ++ match ev with ArchiveError _ => [None] | _ => [] end
    ∧ issued (out st2)
      = issued (out st) ++ match ev with
                           | Process => flat_map writes (take 1 (tasks (uploadQueue st)))
                           | _ => []
                           end
    ∧ List.map fst (jobs st2)
      = List.map fst (jobs st) ++ match ev with
                                  | Process => take 1 (tasks (uploadQueue st))
                                  | _ => []
                                  end
    ∧ decoder st2 = match ev with
                    | ArchiveError _ => Broken
                    | GunzipError _ =>
                        match decoder st with Decoding => Stalled | d => d end
                    | Finish => Finished
                    | _ => decoder st
                    end
    ∧ (decoder st2 = Finished ->
       contentIDBase (vars st2) = contentIDBase (vars st)
       ∧ toKeep (vars st2) = toKeep (vars st)).
Proof.
  intros Hs.
  destruct (step_cases _ _ _ Hs)
    as [(h & p & -> & Hd & ->)|[(err & -> & Hd & ->)|[(-> & Hd & ->)|
        [(task & rest & -> & Ht & Hw & ->)|
         [(j & i & r & task & g & -> & Hj & Hi & ->)|(gerr & -> & Hd & ->)]]]]].
  6:{ exists (on_gunzip_error gerr st). split; [by left|].
      unfold on_gunzip_error.
      destruct Hd as [Hd|Hd]; rewrite Hd; unfold_setters; fields;
        rewrite ?Hd, !app_nil_r; by repeat split. }
  - exists (on_entry h p st). split; [by left|].
    destruct (on_entry_effect h p st) as ((Hjb&Hdc&Hn&_&_&_&Hsn&Hi&_&Hdl) & _).
    destruct (on_entry_exact h p st) as (Hnx & _).
    rewrite Hjb, Hdc, Hn, Hsn, Hi, Hdl, Hnx, !app_nil_r.
    destruct Hd as [Hd|Hd]; repeat split; try done; congruence.
  - exists (on_error err st). split; [by left|].
    unfold on_error. unfold_setters. unfold_setters. fields.
    rewrite !app_nil_r. repeat split; try done.
  - unfold on_finish, running.
    change (uploadQueue (with_decoder Finished st)) with (uploadQueue st).
    destruct (0 <? workers (uploadQueue st))%nat.
    + exists (with_queue (arm_drain (uploadQueue st)) (with_decoder Finished st)).
      split; [by left|]. unfold_setters. fields. rewrite !app_nil_r. by repeat split.
    + exists (with_decoder Finished st). split; [by right|].
      unfold_setters. fields. rewrite !app_nil_r. by repeat split.
  - eexists. split; [by left|]. unfold_setters. fields. rewrite Ht. simpl.
    rewrite !app_nil_r, map_app. by repeat split.
  - set (st1 := with_jobs _ st).
    assert (Hm : List.map fst (jobs st1) = List.map fst (jobs st)).
    { unfold st1, with_jobs. fields.
      change (List.map fst) with (fmap (M := list) (@fst Task Group)).
      rewrite list_fmap_insert. apply list_insert_id.
      rewrite list_lookup_fmap, Hj. done. }
    destruct ((resolve i r g).2) as [err|].
    + destruct (worker_done_unfold env err st1)
        as (st2 & -> & Hq & Hj2 & Hd2 & Ho2 & Hn2 & Hb2 & Hk2 & Hc2).
      exists st2. split; [destruct (_ && _); [by right|by left]|].
      rewrite Hn2, Hc2, Ho2, Hj2, Hd2, Hm, Hb2, Hk2, !app_nil_r. by repeat split.
    + exists st1. split; [by left|]. rewrite Hm, !app_nil_r. by repeat split.
Qed.

Lemma finishRequests_bound evs st :
  run env evs init = Some st ->
  (finishRequests st <= 1)%nat
  ∧ (0 < finishRequests st -> decoder st = Finished)%nat.
Proof.
  intros Hrun. destruct (reachable_Inv env _ _ Hrun) as [_ _ _ _ _ _ Hc _].
  destruct (decoder st).
  - destruct Hc as [-> _]. split; [lia|]. lia.
  - split; [|done]. destruct Hc as [[-> _]|[_ ->]]; [lia|].
    destruct (idle _); simpl; lia.
  - destruct Hc as [-> _]. split; [lia|]. lia.
  - destruct Hc as [-> _]. split; [lia|]. lia.
Qed.

Lemma issued_inv evs st :
  run env evs init = Some st ->
  List.filter is_write (issued (out st)) = flat_map writes (List.map fst (jobs st))
  ∧ List.filter (fun c => negb (is_write c)) (issued (out st))
    = if (finishRequests st =? 0)%nat then []
      else match contentIDBase (vars st) with
           | Some base => [ListStagingEnvelopes base]
           | None => []
           end.
Proof.
  revert evs st.
  apply (reachable_ind (fun evs st =>
    List.filter is_write (issued (out st)) = flat_map writes (List.map fst (jobs st))
    ∧ List.filter (fun c => negb (is_write c)) (issued (out st))
      = if (finishRequests st =? 0)%nat then []
        else match contentIDBase (vars st) with
             | Some base => [ListStagingEnvelopes base]
             | None => []
             end)); [done|].
  intros evs ev st st' Hrun Hrun' Hs [IHw IHo].
  destruct (finishRequests_bound _ _ Hrun) as [Hle Hfin].
  destruct (finishRequests_bound _ _ Hrun') as [Hle' _].
  destruct (step_core _ _ _ Hs) as (st2 & Hst' & Hn & _ & _ & _ & Hi & Hj & Hd & Hb).
  assert (H2 : List.filter is_write (issued (out st2))
               = flat_map writes (List.map fst (jobs st2))
               ∧ List.filter (fun c => negb (is_write c)) (issued (out st2))
                 = if (finishRequests st2 =? 0)%nat then []
                   else match contentIDBase (vars st2) with
                        | Some base => [ListStagingEnvelopes base]
                        | None => []
                        end).
  { rewrite Hi, Hj, Hn, !List.filter_app, flat_map_app, IHw, IHo.
    destruct (finishRequests st =? 0)%nat eqn:E0.
    - destruct ev; simpl; rewrite ?app_nil_r; try done.
      destruct (tasks (uploadQueue st)) as [|task rest]; simpl; by rewrite ?app_nil_r.
    - apply Nat.eqb_neq in E0.
      assert (Hf : decoder st = Finished) by (apply Hfin; lia).
      destruct ev; simpl in Hs; rewrite ?Hf in Hs; try done.
      + rewrite Hf in Hd. destruct (Hb Hd) as [-> _]. simpl.
        destruct (tasks (uploadQueue st)) as [|task rest]; simpl; by rewrite ?app_nil_r.
      + rewrite Hf in Hd. destruct (Hb Hd) as [-> _]. simpl. by rewrite !app_nil_r. }
  destruct Hst' as [->| ->]; [done|].
  destruct H2 as [H2w H2o].
  destruct (finishRequest_frame env st2) as (_ & Hjb & _ & Hbs & _ & _ & _ & Hfr).
  rewrite Hfr in Hle'. assert (H0 : finishRequests st2 = 0%nat) by lia.
  rewrite H0 in H2o. simpl in H2o.
  rewrite finishRequest_issued, !List.filter_app, H2w, H2o, Hjb, Hfr, Hbs. simpl.
  destruct (contentIDBase (vars st2)); simpl; by rewrite ?app_nil_r.
Qed.

(** X6.  The writes issued are the document-store write and the index
    write of each record started, in the order the records were started;
    the only other call the handler ever issues is one listing under the
    captured base, once [finishRequest] has been entered.  No deletion
    call is issued in any run. *)
Theorem calls_issued (evs : list Event) (st : State) :
  run env evs init = Some st ->
  List.filter is_write (issued (out st)) = flat_map writes (List.map fst (jobs st))
  ∧ List.filter (fun c => negb (is_write c)) (issued (out st))
    = if (finishRequests st =? 0)%nat then []
      else match last_base evs with
           | Some base => [ListStagingEnvelopes base]
           | None => []
           end.
Proof.
  intros Hrun. rewrite <- (base_captured _ _ Hrun). exact (issued_inv _ _ Hrun).
Qed.

Lemma answer_inv evs st :
  run env evs init = Some st ->
  match decoder st with
  | Decoding =>
      sent (out st) = [] ∧ nexts (out st) = [] ∧ deletionCount (vars st) = 0%nat
  | Broken => nexts (out st) = [None] ∧ deletionCount (vars st) = 0%nat
  | Stalled =>
      sent (out st) = [] ∧ nexts (out st) = [] ∧ deletionCount (vars st) = 0%nat
  | Finished =>
      if (finishRequests st =? 0)%nat
      then sent (out st) = [] ∧ nexts (out st) = []
           ∧ deletionCount (vars st) = 0%nat
      else
        match contentIDBase (vars st) with
        | None =>
            (∃ a f, sent (out st)
                    = [mkResponse (if (f =? 0)%nat then 200%Z else 500%Z)
                         (Payload a f 0)])
            ∧ nexts (out st) = [None]
            ∧ deletionCount (vars st) = 0%nat
        | Some base =>
            match listStagingEnvelopes env base with
            | inl err =>
                (∃ a f, sent (out st)
                        = [mkResponse (if (f =? 0)%nat then 200%Z else 500%Z)
                             (Payload a f 0)])
                ∧ nexts (out st) = [Some (with_statusCode 400 err); None]
                ∧ deletionCount (vars st) = 0%nat
            | inr existingContentIDs =>
                sent (out st) = [] ∧ nexts (out st) = []
                ∧ deletionCount (vars st)
                  = length (toDelete existingContentIDs (toKeep (vars st)))
            end
        end
  end.
Proof.
  revert evs st.
  apply (reachable_ind (fun evs st =>
    match decoder st with
    | Decoding =>
        sent (out st) = [] ∧ nexts (out st) = [] ∧ deletionCount (vars st) = 0%nat
    | Broken => nexts (out st) = [None] ∧ deletionCount (vars st) = 0%nat
    | Stalled =>
        sent (out st) = [] ∧ nexts (out st) = [] ∧ deletionCount (vars st) = 0%nat
    | Finished =>
        if (finishRequests st =? 0)%nat
        then sent (out st) = [] ∧ nexts (out st) = []
             ∧ deletionCount (vars st) = 0%nat
        else
          match contentIDBase (vars st) with
          | None =>
              (∃ a f, sent (out st)
                      = [mkResponse (if (f =? 0)%nat then 200%Z else 500%Z)
                           (Payload a f 0)])
              ∧ nexts (out st) = [None]
              ∧ deletionCount (vars st) = 0%nat
          | Some base =>
              match listStagingEnvelopes env base with
              | inl err =>
                  (∃ a f, sent (out st)
                          = [mkResponse (if (f =? 0)%nat then 200%Z else 500%Z)
                               (Payload a f 0)])
                  ∧ nexts (out st) = [Some (with_statusCode 400 err); None]
                  ∧ deletionCount (vars st) = 0%nat
              | inr existingContentIDs =>
                  sent (out st) = [] ∧ nexts (out st) = []
                  ∧ deletionCount (vars st)
                    = length (toDelete existingContentIDs (toKeep (vars st)))
              end
          end
    end)); [done|].
  intros evs ev st st' Hrun Hrun' Hs IH.
  destruct (finishRequests_bound _ _ Hrun) as [Hle Hfin].
  destruct (finishRequests_bound _ _ Hrun') as [Hle' Hfin'].
  destruct (reachable_Inv env _ _ Hrun) as [_ _ _ _ _ _ Hcompl _].
  destruct (step_core _ _ _ Hs)
    as (st2 & Hst' & Hn & Hdl & Hsn & Hnx & _ & _ & Hd & Hb).
  assert (H2 :
    match decoder st2 with
    | Decoding =>
        sent (out st2) = [] ∧ nexts (out st2) = [] ∧ deletionCount (vars st2) = 0%nat
    | Broken => nexts (out st2) = [None] ∧ deletionCount (vars st2) = 0%nat
    | Stalled =>
        sent (out st2) = [] ∧ nexts (out st2) = [] ∧ deletionCount (vars st2) = 0%nat
    | Finished =>
        if (finishRequests st2 =? 0)%nat
        then sent (out st2) = [] ∧ nexts (out st2) = []
             ∧ deletionCount (vars st2) = 0%nat
        else
          match contentIDBase (vars st2) with
          | None =>
              (∃ a f, sent (out st2)
                      = [mkResponse (if (f =? 0)%nat then 200%Z else 500%Z)
                           (Payload a f 0)])
              ∧ nexts (out st2) = [None]
              ∧ deletionCount (vars st2) = 0%nat
          | Some base =>
              match listStagingEnvelopes env base with
              | inl err =>
                  (∃ a f, sent (out st2)
                          = [mkResponse (if (f =? 0)%nat then 200%Z else 500%Z)
                               (Payload a f 0)])
                  ∧ nexts (out st2) = [Some (with_statusCode 400 err); None]
                  ∧ deletionCount (vars st2) = 0%nat
              | inr existingContentIDs =>
                  sent (out st2) = [] ∧ nexts (out st2) = []
                  ∧ deletionCount (vars st2)
                    = length (toDelete existingContentIDs (toKeep (vars st2)))
              end
          end
    end).
  { destruct ev as [h p|err|gerr| | |j i r]; simpl in Hs.
    - destruct (decoder st) eqn:Ed; try done;
        rewrite Hd, Hsn, Hnx, Hdl, !app_nil_r; done.
    - destruct (decoder st) eqn:Ed; try done;
        rewrite Hd, Hnx, Hdl; destruct IH as (_ & -> & ->); done.
    - destruct (decoder st) eqn:Ed; try done;
        rewrite Hd, ?Hsn, Hnx, Hdl, !app_nil_r; done.
    - destruct (decoder st) eqn:Ed; try done. rewrite Hd, Hn, Hsn, Hnx, Hdl, !app_nil_r.
      destruct Hcompl as [-> _]. done.
    - rewrite Hd, Hn, Hsn, Hnx, Hdl, !app_nil_r.
      destruct (decoder st) eqn:Ed; try done.
      destruct (Hb Hd) as [-> ->]. done.
    - rewrite Hd, Hn, Hsn, Hnx, Hdl, !app_nil_r.
      destruct (decoder st) eqn:Ed; try done.
      destruct (Hb Hd) as [-> ->]. done. }
  destruct Hst' as [->| ->]; [done|].
  destruct (finishRequest_frame env st2) as (_ & _ & Hdc & Hbs & _ & _ & Hk & Hfr).
  rewrite Hfr in Hle', Hfin'. assert (H0 : finishRequests st2 = 0%nat) by lia.
  assert (Hf : decoder st2 = Finished) by (rewrite <- Hdc; apply Hfin'; lia).
  rewrite Hf, H0 in H2. simpl in H2. destruct H2 as (Hs2 & Hn2 & Hd2).
  rewrite Hdc, Hf, Hfr, Hbs, Hk. simpl.
  pose proof (finishRequest_answer env st2) as Ha. simpl in Ha.
  destruct (contentIDBase (vars st2)) as [base|].
  - destruct (listStagingEnvelopes env base) as [err|existing].
    + destruct Ha as (-> & -> & -> & _). rewrite Hs2, Hn2, Hd2. simpl.
      split; [|done]. unfold report. rewrite Hd2. eauto.
    + destruct Ha as (-> & -> & -> & _). done.
  - destruct Ha as (-> & -> & -> & _). rewrite Hs2, Hn2, Hd2. simpl.
    split; [|done]. unfold report. rewrite Hd2. eauto.
Qed.

(** X7.  How a request ends once [finishRequest] has been entered.
    Without a base the report is sent with [deleted] 0 and [next] is
    called once.  With a base whose listing fails, the error is passed to
    [next] with status 400, and the report is sent all the same, followed
    by a second call of [next].  With a base whose listing succeeds, the
    deletion count is set, but no response is ever sent and [next] is
    never called. *)
Theorem reconciliation_outcome (evs : list Event) (st : State) :
  run env evs init = Some st ->
  finishRequests st = 1%nat ->
  match last_base evs with
  | None =>
      (∃ a f, sent (out st)
              = [mkResponse (if (f =? 0)%nat then 200%Z else 500%Z) (Payload a f 0)])
      ∧ nexts (out st) = [None]
  | Some base =>
      match listStagingEnvelopes env base with
      | inl err =>
          (∃ a f, sent (out st)
                  = [mkResponse (if (f =? 0)%nat then 200%Z else 500%Z)
                       (Payload a f 0)])
          ∧ nexts (out st) = [Some (with_statusCode 400 err); None]
      | inr existingContentIDs =>
          sent (out st) = [] ∧ nexts (out st) = []
          ∧ deletionCount (vars st)
            = length (toDelete existingContentIDs (toKeep (vars st)))
      end
  end.
Proof.
  intros Hrun H1. pose proof (answer_inv _ _ Hrun) as H.
  destruct (finishRequests_bound _ _ Hrun) as [_ Hf].
  rewrite Hf, H1 in H by lia. simpl in H.
  rewrite <- (base_captured _ _ Hrun).
  destruct (contentIDBase (vars st)) as [base|].
  - destruct (listStagingEnvelopes env base); [|done]. by destruct H as (? & ? & _).
  - by destruct H as (? & ? & _).
Qed.

Lemma gunzip_stalls evs st :
  run env evs init = Some st ->
  (∃ err, GunzipError err ∈ evs) -> decoder st = Stalled ∨ decoder st = Broken.
Proof.
  revert evs st.
  apply (reachable_ind (fun evs st =>
    (∃ err, GunzipError err ∈ evs) -> decoder st = Stalled ∨ decoder st = Broken)).
  { intros [err H]. by apply elem_of_nil in H. }
  intros evs ev st st' Hrun Hrun' Hs IH [gerr Hin].
  destruct (step_core _ _ _ Hs) as (st2 & Hst' & _ & _ & _ & _ & _ & _ & Hd & _).
  assert (Hd' : decoder st' = decoder st2).
  { destruct Hst' as [->| ->]; [done|].
    by destruct (finishRequest_frame env st2) as (_ & _ & -> & _). }
  rewrite Hd', Hd.
  apply elem_of_app in Hin as [Hin|Hin].
  - specialize (IH (ex_intro _ gerr Hin)).
    destruct ev; simpl in Hs; try done.
    + by right.
    + destruct IH as [->| ->]; auto.
    + destruct IH as [E|E]; rewrite E in Hs; done.
  - apply list_elem_of_singleton in Hin as <-. simpl in Hs.
    destruct (decoder st); try done; auto.
Qed.

Lemma broken_by_decoder evs st :
  run env evs init = Some st ->
  (∀ err, ArchiveError err ∉ evs) -> decoder st ≠ Broken.
Proof.
  intros Hrun Hne Hd.
  destruct (reachable_Inv env _ _ Hrun) as [_ _ _ _ _ _ _ Hsent].
  rewrite Hd in Hsent. destruct Hsent as (err & Hin & _). by apply (Hne err).
Qed.

(** With a base whose listing succeeds, nothing is ever signaled. *)
Lemma listed_base_unanswered evs st base existingContentIDs :
  run env evs init = Some st ->
  last_base evs = Some base ->
  listStagingEnvelopes env base = inr existingContentIDs ->
  (∀ err, ArchiveError err ∉ evs) ->
  sent (out st) = [] ∧ nexts (out st) = [].
Proof.
  intros Hrun Hb Hl Hne.
  pose proof (answer_inv _ _ Hrun) as Ha.
  pose proof (broken_by_decoder _ _ Hrun Hne) as Hnb.
  rewrite (base_captured _ _ Hrun), Hb, Hl in Ha.
  destruct (decoder st); [| |done|].
  - by destruct Ha as (? & ? & _).
  - destruct (finishRequests st =? 0)%nat; by destruct Ha as (? & ? & _).
  - by destruct Ha as (? & ? & _).
Qed.

(** What has been signaled once decoding has finished and the queue is
    idle. *)
Lemma signal_when_idle evs st :
  run env evs init = Some st ->
  decoder st = Finished ->
  idle (uploadQueue st) = true ->
  match last_base evs with
  | None =>
      (∃ a f, sent (out st)
              = [mkResponse (if (f =? 0)%nat then 200%Z else 500%Z) (Payload a f 0)])
      ∧ nexts (out st) = [None]
  | Some base =>
      match listStagingEnvelopes env base with
      | inl err =>
          (∃ a f, sent (out st)
                  = [mkResponse (if (f =? 0)%nat then 200%Z else 500%Z)
                       (Payload a f 0)])
          ∧ nexts (out st) = [Some (with_statusCode 400 err); None]
      | inr _ => sent (out st) = [] ∧ nexts (out st) = []
      end
  end.
Proof.
  intros Hrun Hd Hidle.
  pose proof (answer_inv _ _ Hrun) as Ha.
  destruct (reachable_Inv env _ _ Hrun) as [_ _ _ _ _ _ Hcompl _].
  rewrite Hd in Hcompl.
  assert (H1 : finishRequests st = 1%nat).
  { destruct Hcompl as [[? _]|[_ ->]]; [done|]. by rewrite Hidle. }
  rewrite Hd, H1, (base_captured _ _ Hrun) in Ha. simpl in Ha.
  destruct (last_base evs) as [base|].
  - destruct (listStagingEnvelopes env base).
    + by destruct Ha as (? & ? & _).
    + by destruct Ha as (? & ? & _).
  - by destruct Ha as (? & ? & _).
Qed.

(** The decoder fails at most once, and then the request is answered with
    the status 400 and the decoder's error, for good. *)
Lemma decoder_error_answered evs st :
  run env evs init = Some st ->
  ∀ err, ArchiveError err ∈ evs ->
    decoder st = Broken ∧ sent (out st) = [mkResponse 400 (ErrorBody err)].
Proof.
  revert evs st.
  apply (reachable_ind (fun evs st =>
    ∀ err, ArchiveError err ∈ evs ->
      decoder st = Broken ∧ sent (out st) = [mkResponse 400 (ErrorBody err)])).
  { intros err H. by apply elem_of_nil in H. }
  intros evs ev st st' Hrun Hrun' Hs IH err Hin.
  destruct (finishRequests_bound _ _ Hrun') as [_ Hfin'].
  destruct (step_core _ _ _ Hs) as (st2 & Hst' & _ & _ & Hsn & _ & _ & _ & Hd & _).
  apply elem_of_app in Hin as [Hin|Hin].
  - destruct (IH err Hin) as [Hb Hsent].
    assert (Hd2 : decoder st2 = Broken).
    { rewrite Hd, Hb. destruct ev; simpl in Hs; rewrite ?Hb in Hs; done. }
    assert (Hs2 : sent (out st2) = [mkResponse 400 (ErrorBody err)]).
    { rewrite Hsn, Hsent.
      destruct ev; simpl in Hs; rewrite ?Hb in Hs; try done. }
    destruct Hst' as [->| ->]; [done|].
    destruct (finishRequest_frame env st2) as (_ & _ & Hdc & _ & _ & _ & _ & Hfr).
    rewrite Hfr, Hdc, Hd2 in Hfin'. discriminate Hfin'. lia.
  - apply list_elem_of_singleton in Hin as <-.
    pose proof (answer_inv _ _ Hrun) as Ha.
    assert (Hs0 : sent (out st) = []).
    { simpl in Hs. destruct (decoder st); try done; by destruct Ha as (? & _). }
    assert (Hd2 : decoder st2 = Broken) by by rewrite Hd.
    assert (Hs2 : sent (out st2) = [mkResponse 400 (ErrorBody err)])
      by by rewrite Hsn, Hs0.
    destruct Hst' as [->| ->]; [done|].
    destruct (finishRequest_frame env st2) as (_ & _ & Hdc & _ & _ & _ & _ & Hfr).
    rewrite Hfr, Hdc, Hd2 in Hfin'. discriminate Hfin'. lia.
Qed.

Lemma decoder_error_is_final evs st err :
  run env evs init = Some st ->
  ArchiveError err ∈ evs ->
  sent (out st) = [mkResponse 400 (ErrorBody err)]
  ∧ nexts (out st) = [None]
  ∧ finishRequests st = 0%nat.
Proof.
  intros Hrun Hin.
  destruct (decoder_error_answered _ _ Hrun err Hin) as [Hb Hsent].
  pose proof (answer_inv _ _ Hrun) as Ha.
  destruct (reachable_Inv env _ _ Hrun) as [_ _ _ _ _ _ Hcompl _].
  rewrite Hb in Ha, Hcompl.
  split; [done|]. split; [by destruct Ha|by destruct Hcompl].
Qed.

(** Once the gunzip stream has failed, and unless the decoder fails too,
    the request gets no answer and the decoder never finishes. *)
Lemma gunzip_unanswered evs st err :
  run env evs init = Some st ->
  GunzipError err ∈ evs ->
  (∀ e, ArchiveError e ∉ evs) ->
  sent (out st) = [] ∧ nexts (out st) = []
  ∧ finishRequests st = 0%nat ∧ step env Finish st = None.
Proof.
  intros Hrun Hin Hne.
  pose proof (answer_inv _ _ Hrun) as Ha.
  destruct (reachable_Inv env _ _ Hrun) as [_ _ _ _ _ _ Hcompl _].
  destruct (gunzip_stalls _ _ Hrun (ex_intro _ err Hin)) as [Hd|Hd].
  - rewrite Hd in Ha, Hcompl. simpl. rewrite Hd.
    destruct Ha as (? & ? & _). by destruct Hcompl as [? _].
  - by destruct (broken_by_decoder _ _ Hrun Hne).
Qed.

Lemma filter_none {A} (f : A -> bool) (l : list A) :
  List.filter (fun x => negb (f x)) l = [] -> Forall (fun x => f x = true) l.
Proof.
  induction l as [|x l IH]; simpl; [by constructor|].
  destruct (f x) eqn:E; simpl; [|done]. intros H. constructor; [done|by apply IH].
Qed.

(** X8.  A corrupted archive does not stop the uploads already
    queued.  After the decoder's error the request has been answered with
    400 and [next] has been called once, and that is all the caller ever
    sees; nothing is listed or deleted; but every record queued before
    the error is still handed to a worker as soon as one is free, and its
    two writes are issued. *)
Theorem corrupted_archive_keeps_writing (evs : list Event) (st : State) :
  run env evs init = Some st ->
  decoder st = Broken ->
  (∃ err, ArchiveError err ∈ evs ∧ sent (out st) = [mkResponse 400 (ErrorBody err)])
  ∧ nexts (out st) = [None]
  ∧ Forall (fun c => is_write c = true) (issued (out st))
  ∧ deletionCount (vars st) = 0%nat
  ∧ (∀ task rest,
       tasks (uploadQueue st) = task :: rest ->
       (workers (uploadQueue st) < 10)%nat ->
       ∃ st', step env Process st = Some st'
              ∧ decoder st' = Broken
              ∧ issued (out st') = issued (out st) ++ writes task).
Proof.
  intros Hrun Hd.
  destruct (reachable_Inv env _ _ Hrun) as [Hc _ _ _ _ _ Hcompl Hsent].
  pose proof (answer_inv _ _ Hrun) as Ha.
  destruct (issued_inv _ _ Hrun) as [_ Hi].
  rewrite Hd in Hcompl, Hsent, Ha. destruct Hcompl as [H0 _]. destruct Ha as [Hn Hdel].
  rewrite H0 in Hi. simpl in Hi.
  split; [done|]. split; [done|]. split; [by apply filter_none|]. split; [done|].
  intros task rest Ht Hw. simpl. unfold process. rewrite Ht, Hc.
  replace (workers (uploadQueue st) <? 10)%nat with true
    by (symmetry; by apply Nat.ltb_lt).
  eexists. split; [done|]. unfold_setters. fields. done.
Qed.

End Runs.

(** ** Where the handler does not answer as specified *)

(** C1, where the code departs from it.  [finishRequest] is entered once,
    but the completion it starts is not signaled exactly once.  When the
    archive names a base and the facade lists it, the handler calls
    [removeEnvelopes]; the binding is [undefined], the call throws inside
    the callback of the listing and [reportCompletion] is never reached:
    unless the decoder fails, no state of such a request has a response
    sent or [next] called.  Once decoding has finished and the queue is
    idle, what has been signaled depends on the base alone: without one,
    the report and one call of [next]; with one whose listing fails, the
    report and two calls of [next], the first with the error; with one
    that is listed, nothing.  Three requests show the three ends: an
    archive with a config only, against a facade that lists and against
    one that does not, and an archive with one record and no config. *)
Theorem completion_lost_or_repeated :
  (∀ (rt : Runtime) (env : Env) evs st base existingContentIDs,
     run env evs init = Some st ->
     last_base evs = Some base ->
     listStagingEnvelopes env base = inr existingContentIDs ->
     (∀ err, ArchiveError err ∉ evs) ->
     sent (out st) = [] ∧ nexts (out st) = [])
  ∧ (∀ (rt : Runtime) (env : Env) evs st,
       run env evs init = Some st ->
       decoder st = Finished ->
       idle (uploadQueue st) = true ->
       match last_base evs with
       | None =>
           (∃ a f, sent (out st)
                   = [mkResponse (if (f =? 0)%nat then 200%Z else 500%Z)
                        (Payload a f 0)])
           ∧ nexts (out st) = [None]
       | Some base =>
           match listStagingEnvelopes env base with
           | inl err =>
               (∃ a f, sent (out st)
                       = [mkResponse (if (f =? 0)%nat then 200%Z else 500%Z)
                            (Payload a f 0)])
               ∧ nexts (out st) = [Some (with_statusCode 400 err); None]
           | inr _ => sent (out st) = [] ∧ nexts (out st) = []
           end
       end)
  ∧ (∃ st,
       run (rt := Example.posix) Example.facade [Example.config_entry; Finish] init
       = Some st
       ∧ decoder st = Finished
       ∧ idle (uploadQueue st) = true
       ∧ issued (out st) = [ListStagingEnvelopes (JStr "X")]
       ∧ thrown (out st) = [TypeError "removeEnvelopes is not a function"]
       ∧ sent (out st) = []
       ∧ nexts (out st) = []
       ∧ ∀ ev, step (rt := Example.posix) Example.facade ev st = None)
  ∧ (∃ st,
       run (rt := Example.posix) Sample.unlistable [Example.config_entry; Finish] init
       = Some st
       ∧ decoder st = Finished
       ∧ idle (uploadQueue st) = true
       ∧ sent (out st) = [mkResponse 200 (Payload 0 0 0)]
       ∧ nexts (out st) = [Some (with_statusCode 400 Sample.listing_failed); None])
  ∧ (∃ st,
       run (rt := Example.posix) Example.facade
         [Example.record_entry; Process; Settle 0 0 None; Settle 0 1 None; Finish] init
       = Some st
       ∧ decoder st = Finished
       ∧ idle (uploadQueue st) = true
       ∧ thrown (out st) = []
       ∧ sent (out st) = [mkResponse 200 (Payload 1 0 0)]
       ∧ nexts (out st) = [None]).
Proof.
  split; [|split; [|split; [|split]]].
  - intros rt env evs st base existing. apply listed_base_unanswered.
  - intros rt env evs st. apply signal_when_idle.
  - eexists. split; [reflexivity|]. repeat split; try (vm_compute; reflexivity).
    intros ev. by destruct ev.
  - eexists. split; [reflexivity|]. repeat split; vm_compute; reflexivity.
  - eexists. split; [reflexivity|]. repeat split; vm_compute; reflexivity.
Qed.

(** C4, where the code departs from it.  The body of the request passes
    through [zlib.createGunzip()] before it reaches the tar decoder, and
    the handler listens for the errors of the decoder only.  An upload
    that is not gzip data, or that stops being gzip data, makes the gunzip
    stream fail: its error is thrown, the decoder never finishes, and
    unless the decoder fails as well no response is ever sent, neither the
    status 400 nor a report, and [next] is never called.  Only a failure
    of the tar decoder itself is answered as specified: from then on the
    one response is the status 400 with the decoder's error, [next] has
    been called once and no report follows.  Two requests show the
    failure, one whose body is no gzip data at all and one whose gzip data
    breaks off after a record has been stored; a third shows the decoder's
    error. *)
Theorem gunzip_failure_unanswered :
  (∀ (rt : Runtime) (env : Env) evs st err,
     run env evs init = Some st ->
     GunzipError err ∈ evs ->
     (∀ e, ArchiveError e ∉ evs) ->
     sent (out st) = [] ∧ nexts (out st) = []
     ∧ finishRequests st = 0%nat ∧ step env Finish st = None)
  ∧ (∀ (rt : Runtime) (env : Env) evs st err,
       run env evs init = Some st ->
       ArchiveError err ∈ evs ->
       sent (out st) = [mkResponse 400 (ErrorBody err)]
       ∧ nexts (out st) = [None]
       ∧ finishRequests st = 0%nat)
  ∧ (∃ st,
       run (rt := Example.posix) Example.facade [GunzipError Sample.bad_gzip] init
       = Some st
       ∧ thrown (out st) = [Sample.bad_gzip]
       ∧ issued (out st) = []
       ∧ sent (out st) = []
       ∧ nexts (out st) = [])
  ∧ (∃ st,
       run (rt := Example.posix) Example.facade
         [Example.record_entry; Process; Settle 0 0 None; Settle 0 1 None;
          GunzipError Sample.bad_gzip] init
       = Some st
       ∧ envelopeCount (vars st) = 1%nat
       ∧ idle (uploadQueue st) = true
       ∧ thrown (out st) = [Sample.bad_gzip]
       ∧ sent (out st) = []
       ∧ nexts (out st) = [])
  ∧ (∃ st,
       run (rt := Example.posix) Example.facade [ArchiveError Sample.bad_tar] init
       = Some st
       ∧ sent (out st) = [mkResponse 400 (ErrorBody Sample.bad_tar)]
       ∧ nexts (out st) = [None]).
Proof.
  split; [|split; [|split; [|split]]].
  - intros rt env evs st err. apply gunzip_unanswered.
  - intros rt env evs st err. apply decoder_error_is_final.
  - eexists. split; [reflexivity|]. repeat split; vm_compute; reflexivity.
  - eexists. split; [reflexivity|]. repeat split; vm_compute; reflexivity.
  - eexists. split; [reflexivity|]. repeat split; vm_compute; reflexivity.
Qed.

(** *** Worked instances *)

Lemma at_most_ten_workers_witness :
  ∃ st, run (rt := Example.posix) Example.facade
          [Example.record_entry; Sample.second_record; Process; Process] init = Some st
        ∧ (workers (uploadQueue st) <= 10)%nat.
Proof.
  destruct (run (rt := Example.posix) Example.facade
              [Example.record_entry; Sample.second_record; Process; Process] init)
    as [st|] eqn:E; [|by vm_compute in E].
  exists st. split; [done|].
  exact (proj1 (at_most_ten_workers (rt := Example.posix) Example.facade _ _ E)).
Defined.

Lemma records_started_in_order_witness :
  ∃ st, run (rt := Example.posix) Example.facade
          [Example.record_entry; Sample.unparsed_record; Sample.second_record;
           Process] init = Some st
        ∧ List.map fst (jobs st) ++ tasks (uploadQueue st)
          = [mkTask "X/a" (JObj [("title", JStr "a")]);
             mkTask "X/d" (JObj [("title", JStr "d")])].
Proof.
  destruct (run (rt := Example.posix) Example.facade
              [Example.record_entry; Sample.unparsed_record; Sample.second_record;
               Process] init)
    as [st|] eqn:E; [|by vm_compute in E].
  exists st. split; [done|].
  exact (records_started_in_order (rt := Example.posix) Example.facade _ _ E).
Defined.

Lemma every_record_accounted_witness :
  ∃ st, run (rt := Example.posix) Example.facade
          [Example.record_entry; Sample.unparsed_record; Sample.second_record;
           Process; Settle 0 1 (Some Example.write_failed)] init = Some st
        ∧ (envelopeCount (vars st) + failureCount (vars st)
           + length (tasks (uploadQueue st)) + workers (uploadQueue st) = 3)%nat.
Proof.
  destruct (run (rt := Example.posix) Example.facade
              [Example.record_entry; Sample.unparsed_record; Sample.second_record;
               Process; Settle 0 1 (Some Example.write_failed)] init)
    as [st|] eqn:E; [|by vm_compute in E].
  exists st. split; [done|].
  exact (proj1 (every_record_accounted (rt := Example.posix) Example.facade _ _ E)).
Defined.

Lemma keep_set_is_archive_witness :
  ∃ st, run (rt := Example.posix) Example.facade
          [Sample.keep_entry; Example.record_entry] init = Some st
        ∧ toDelete ["X/a"; "X/b"; "X/c"; "constructor"] (toKeep (vars st))
          = ["X/c"].
Proof.
  destruct (run (rt := Example.posix) Example.facade
              [Sample.keep_entry; Example.record_entry] init)
    as [st|] eqn:E; [|by vm_compute in E].
  exists st. split; [done|].
  rewrite (proj2 (keep_set_is_archive (rt := Example.posix) Example.facade _ _ E)).
  reflexivity.
Defined.

Lemma base_is_last_config_witness :
  ∃ st, run (rt := Example.posix) Example.facade
          [Example.config_entry; Sample.unparsed_config] init = Some st
        ∧ contentIDBase (vars st) = Some (JStr "X").
Proof.
  destruct (run (rt := Example.posix) Example.facade
              [Example.config_entry; Sample.unparsed_config] init)
    as [st|] eqn:E; [|by vm_compute in E].
  exists st. split; [done|].
  exact (base_is_last_config (rt := Example.posix) Example.facade _ _ E).
Defined.

Lemma calls_issued_witness :
  ∃ st, run (rt := Example.posix) Sample.unlistable
          [Example.config_entry; Example.record_entry; Process;
           Settle 0 0 None; Settle 0 1 None; Finish] init = Some st
        ∧ List.filter (fun c => negb (is_write c)) (issued (out st))
          = [ListStagingEnvelopes (JStr "X")].
Proof.
  destruct (run (rt := Example.posix) Sample.unlistable
              [Example.config_entry; Example.record_entry; Process;
               Settle 0 0 None; Settle 0 1 None; Finish] init)
    as [st|] eqn:E; [|by vm_compute in E].
  exists st. split; [done|].
  assert (H1 : (finishRequests st =? 0)%nat = false)
    by (vm_compute in E; injection E as <-; reflexivity).
  pose proof (proj2 (calls_issued (rt := Example.posix) Sample.unlistable _ _ E)) as H.
  rewrite H1 in H. exact H.
Defined.

Lemma reconciliation_outcome_witness :
  ∃ st, run (rt := Example.posix) Sample.unlistable
          [Example.config_entry; Example.record_entry; Process;
           Settle 0 0 None; Settle 0 1 None; Finish] init = Some st
        ∧ nexts (out st) = [Some (with_statusCode 400 Sample.listing_failed); None].
Proof.
  destruct (run (rt := Example.posix) Sample.unlistable
              [Example.config_entry; Example.record_entry; Process;
               Settle 0 0 None; Settle 0 1 None; Finish] init)
    as [st|] eqn:E; [|by vm_compute in E].
  exists st. split; [done|].
  assert (H1 : finishRequests st = 1%nat)
    by (vm_compute in E; injection E as <-; reflexivity).
  exact (proj2 (reconciliation_outcome (rt := Example.posix) Sample.unlistable _ _ E H1)).
Defined.

Lemma corrupted_archive_keeps_writing_witness :
  ∃ st, run (rt := Example.posix) Example.facade
          [Example.record_entry; ArchiveError Example.write_failed; Process] init
        = Some st
        ∧ nexts (out st) = [None]
        ∧ issued (out st)
          = [StoreStagingEnvelope "X/a" (JObj [("title", JStr "a")]);
             IndexStagingEnvelope "X/a" (JObj [("title", JStr "a")])].
Proof.
  destruct (run (rt := Example.posix) Example.facade
              [Example.record_entry; ArchiveError Example.write_failed; Process] init)
    as [st|] eqn:E; [|by vm_compute in E].
  exists st. split; [done|].
  assert (Hd : decoder st = Broken)
    by (vm_compute in E; injection E as <-; reflexivity).
  destruct (corrupted_archive_keeps_writing (rt := Example.posix) Example.facade _ _ E Hd)
    as (_ & Hn & _). split; [done|].
  vm_compute in E. injection E as <-. reflexivity.
Defined.

End ArchiveFacts.

(* ===================================================================== *)
(** * The storage driver: listing, promotion and removal in general       *)
(* ===================================================================== *)

Module DriverFacts.
Import Js Remote Listing RemoteFacts.

(** ** The order of names *)

Lemma ascii_compare_trans a b c :
  Ascii.compare a b = Lt -> Ascii.compare b c = Lt -> Ascii.compare a c = Lt.
Proof.
  unfold Ascii.compare. rewrite !N.compare_lt_iff. lia.
Qed.

Lemma compare_trans : ∀ a b c,
  String.compare a b = Lt -> String.compare b c = Lt -> String.compare a c = Lt.
Proof.
  induction a as [|x a IH]; intros [|y b] [|z c]; simpl; try done.
  destruct (Ascii.compare x y) eqn:Exy; try done.
  - apply Ascii.compare_eq_iff in Exy as ->.
    destruct (Ascii.compare y z); try done. apply IH.
  - destruct (Ascii.compare y z) eqn:Eyz; try done.
    + apply Ascii.compare_eq_iff in Eyz as <-. by rewrite Exy.
    + by rewrite (ascii_compare_trans _ _ _ Exy Eyz).
Qed.

Lemma ltb_trans a b c :
  String.ltb a b = true -> String.ltb b c = true -> String.ltb a c = true.
Proof.
  unfold String.ltb.
  destruct (String.compare a b) eqn:Eab; try done.
  destruct (String.compare b c) eqn:Ebc; try done.
  by rewrite (compare_trans _ _ _ Eab Ebc).
Qed.

Lemma compare_refl : ∀ a, String.compare a a = Eq.
Proof.
  induction a as [|x a IH]; [done|]. simpl.
  unfold Ascii.compare. by rewrite N.compare_refl.
Qed.

Lemma ltb_irrefl a : String.ltb a a = false.
Proof. unfold String.ltb. by rewrite compare_refl. Qed.

Lemma ltb_asym a b : String.ltb a b = true -> String.ltb b a = false.
Proof.
  unfold String.ltb. rewrite (String.compare_antisym a b).
  by destruct (String.compare b a).
Qed.

Lemma ascending_sorted names :
  ascending names = true ->
  StronglySorted (fun a b => String.ltb a b = true) names.
Proof.
  intros H. apply Sorted.Sorted_StronglySorted.
  { intros a b c. apply ltb_trans. }
  induction names as [|a [|b rest] IH]; [constructor|by repeat constructor|].
  simpl in H. apply andb_prop in H as [Hab Hr].
  constructor; [by apply IH|by constructor].
Qed.

Lemma filter_above_last pre rest m :
  StronglySorted (fun a b => String.ltb a b = true) (pre ++ rest) ->
  last pre = Some m ->
  List.filter (fun n => String.ltb m n) (pre ++ rest) = rest.
Proof.
  intros Hs [pre' ->]%last_Some.
  rewrite List.filter_app.
  assert (Hpre : List.filter (fun n => String.ltb m n) (pre' ++ [m]) = []).
  { rewrite List.filter_app. simpl. rewrite ltb_irrefl.
    rewrite app_nil_r. apply StronglySorted_app_1_l in Hs.
    induction pre' as [|x pre' IH]; [done|]. simpl.
    rewrite ltb_asym.
    - apply IH. by inversion Hs.
    - apply (StronglySorted_app_1_elem_of _ [x] (pre' ++ [m]) x m Hs).
      + by apply list_elem_of_singleton.
      + apply elem_of_app. right. by apply list_elem_of_singleton. }
  rewrite Hpre. simpl.
  assert (Hr : Forall (fun n => String.ltb m n = true) rest).
  { apply Forall_forall. intros n Hn.
    apply (StronglySorted_app_1_elem_of _ _ _ m n Hs); [|done].
    apply elem_of_app. right. by apply list_elem_of_singleton. }
  clear Hs Hpre. induction Hr as [|n rest Hn _ IH]; [done|].
  simpl. by rewrite Hn, IH.
Qed.

Lemma filter_marker pre rest :
  StronglySorted (fun a b => String.ltb a b = true) (pre ++ rest) ->
  List.filter (fun n => match last pre with
                        | Some m => String.ltb m n
                        | None => true
                        end) (pre ++ rest) = rest.
Proof.
  intros Hs. destruct (last pre) as [m|] eqn:El.
  - by apply filter_above_last.
  - apply last_None in El as ->. apply filter_true.
Qed.

Section Pages.
Context {rt : Runtime}.

Lemma mapM_self (names : list string) :
  Forall (fun n => decodeURIComponent n = Some n) names ->
  mapM decodeURIComponent names = Some names.
Proof. intros H. apply mapM_Some. by apply Forall_Forall2_diag. Qed.

Lemma self_mapM (names : list string) :
  mapM decodeURIComponent names = Some names ->
  Forall (fun n => decodeURIComponent n = Some n) names.
Proof.
  intros H%mapM_Some. induction names as [|n names IH]; [done|].
  inversion H; subst. constructor; [done|by apply IH].
Qed.

(** One page request that reaches the blob store. *)
Lemma page_served n marker w :
  quiet (S n) w ->
  ∃ w1,
    perform (GetFiles (contentContainer w) perPage marker) w
    = (w1, Answered 200
             (take perPage
                (List.filter (fun n => match marker with
                                       | Some m => String.ltb m n
                                       | None => true
                                       end) (contentFiles w))))
    ∧ faults w1 = tail (faults w)
    ∧ quiet n w1
    ∧ contentFiles w1 = contentFiles w
    ∧ contentContainer w1 = contentContainer w
    ∧ elastic w1 = elastic w
    ∧ requests w1 = requests w ++ [GetFiles (contentContainer w) perPage marker].
Proof.
  intros Hq.
  destruct (quiet_perform n (GetFiles (contentContainer w) perPage marker) w Hq)
    as [-> Hq1].
  set (w1 := popped _ w).
  assert (Hc1 : contentContainer w1 = contentContainer w) by done.
  assert (Hf1 : contentFiles w1 = contentFiles w) by done.
  exists w1. cbn [serve]. rewrite Hc1, Hf1, bool_decide_eq_true_2 by done.
  by repeat split.
Qed.

Lemma calm_tail w w1 : calm w -> faults w1 = tail (faults w) -> calm w1.
Proof. unfold calm. intros H ->. by apply Forall_tail. Qed.

Lemma pages_walk (consumer : list string -> bool) : ∀ fuel pre rest w,
  calm w ->
  (∀ p, p ≠ [] -> consumer p = true) ->
  contentFiles w = pre ++ rest ->
  StronglySorted (fun a b => String.ltb a b = true) (pre ++ rest) ->
  Forall (fun n => decodeURIComponent n = Some n) rest ->
  (length rest / perPage < fuel)%nat ->
  ∃ w' pages,
    nextPage fuel consumer (last pre) w = Some (w', List.map Page pages ++ [Page []])
    ∧ concat pages = rest
    ∧ Forall (fun p => (0 < length p <= perPage)%nat) pages
    ∧ length (requests w')
      = (length (requests w) + length rest / perPage + 1)%nat
    ∧ contentFiles w' = contentFiles w
    ∧ elastic w' = elastic w.
Proof.
  pose proof perPage_pos as Hpos.
  induction fuel as [|fuel IH]; intros pre rest w Hcalm Hcons Hfiles Hsort Hdec Hfuel;
    [lia|].
  cbn [nextPage].
  destruct (page_served 0 (last pre) w (calm_quiet 1 w Hcalm))
    as (w1 & -> & Hfl & _ & Hf1 & Hc1 & He1 & Hr1).
  pose proof (calm_tail _ _ Hcalm Hfl) as Hcalm1.
  rewrite Hfiles, (filter_marker _ _ Hsort).
  rewrite (mapM_self (take perPage rest)) by (by apply Forall_take).
  destruct (decide (rest = [])) as [->|Hne].
  { rewrite take_nil. exists w1, []. simpl.
    split; [by destruct (consumer [])|].
    rewrite Hr1, length_app. simpl. repeat split; try done; try lia. congruence. }
  assert (Hpne : take perPage rest ≠ []).
  { destruct rest as [|x rest]; [done|]. intros H. apply (f_equal length) in H.
    rewrite length_take in H. simpl in H. lia. }
  rewrite (Hcons _ Hpne).
  replace (length (take perPage rest) =? 0)%nat with false.
  2:{ symmetry. apply Nat.eqb_neq. intros H. by apply nil_length_inv in H. }
  destruct (decide (length rest < perPage)%nat) as [Hlt|Hge].
  - rewrite take_ge by lia.
    replace (length rest <? perPage)%nat with true by (symmetry; by apply Nat.ltb_lt).
    exists w1, [rest]. cbn [List.map concat app]. rewrite app_nil_r, Hr1, length_app.
    rewrite Nat.div_small by done. cbn [length].
    assert (0 < length rest)%nat by (destruct rest; [done|simpl; lia]).
    repeat split; try done; try lia; try congruence. constructor; [lia|done].
  - assert (Hlen : length (take perPage rest) = perPage) by (rewrite length_take; lia).
    rewrite Hlen.
    replace (perPage <? perPage)%nat with false by (symmetry; apply Nat.ltb_ge; lia).
    assert (Hlast : last (take perPage rest) = last (pre ++ take perPage rest)).
    { rewrite last_app. destruct (last (take perPage rest)) eqn:E; [done|].
      by apply last_None in E. }
    rewrite Hlast.
    assert (Hsplit : pre ++ rest = (pre ++ take perPage rest) ++ drop perPage rest).
    { by rewrite <- app_assoc, take_drop. }
    assert (Hdiv : (length rest / perPage
                    = 1 + length (drop perPage rest) / perPage)%nat).
    { rewrite length_drop.
      replace (length rest) with (1 * perPage + (length rest - perPage))%nat at 1 by lia.
      rewrite Nat.div_add_l by lia. done. }
    destruct (IH (pre ++ take perPage rest) (drop perPage rest) w1)
      as (w' & pages & -> & Hcat & Hall & Hreq & Hf' & He'); try done.
    + by rewrite Hf1, Hfiles.
    + by rewrite <- Hsplit.
    + by apply Forall_drop.
    + lia.
    + exists w', (take perPage rest :: pages). cbn [List.map concat app].
      rewrite Hcat, take_drop, Hreq, Hr1, length_app, Hf', He', Hdiv. cbn [length].
      repeat split; try done; try lia; try congruence. constructor; [lia|done].
Qed.

(** X9.  Against a container whose names are listed in ascending order
    and need no decoding, [listContent] hands over every name exactly
    once and in order, in pages of at most [perPage] names, then the
    empty page; it takes one request per full page plus one, and leaves
    the container as it was.  The caller has to call [next] on every
    page that is not empty. *)
Theorem listContent_enumerates (w : World) (consumer : list string -> bool)
    (fuel : nat) :
  calm w ->
  ascending (contentFiles w) = true ->
  mapM decodeURIComponent (contentFiles w) = Some (contentFiles w) ->
  (∀ p, p ≠ [] -> consumer p = true) ->
  (length (contentFiles w) / perPage < fuel)%nat ->
  ∃ w' pages,
    listContent fuel consumer w = Some (w', List.map Page pages ++ [Page []])
    ∧ concat pages = contentFiles w
    ∧ Forall (fun p => (0 < length p <= perPage)%nat) pages
    ∧ length (requests w')
      = (length (requests w) + length (contentFiles w) / perPage + 1)%nat
    ∧ contentFiles w' = contentFiles w.
Proof.
  intros Hcalm Hasc Hdec Hcons Hfuel.
  destruct (pages_walk consumer fuel [] (contentFiles w) w)
    as (w' & pages & H & Hcat & Hall & Hreq & Hf & _); try done.
  - by apply ascending_sorted.
  - by apply self_mapM.
  - by exists w', pages.
Qed.

(** ** Listing under faults *)

Lemma getFiles_frame c n m w :
  let w1 := (perform (GetFiles c n m) w).1 in
  contentFiles w1 = contentFiles w ∧ elastic w1 = elastic w
  ∧ contentContainer w1 = contentContainer w
  ∧ requests w1 = requests w ++ [GetFiles c n m].
Proof.
  unfold perform. destruct (faults w) as [|[e|] fs]; cbn [serve]; try done.
  - by destruct (bool_decide _).
  - by destruct (bool_decide _).
Qed.

Lemma pages_then_failure_cons p ds :
  pages_then_failure ds -> pages_then_failure (Page p :: ds).
Proof. intros (pages & rest & -> & H). by exists (p :: pages), rest. Qed.

Lemma nextPage_frame (consumer : list string -> bool) : ∀ fuel marker w w' ds,
  nextPage fuel consumer marker w = Some (w', ds) ->
  contentFiles w' = contentFiles w ∧ elastic w' = elastic w
  ∧ contentContainer w' = contentContainer w
  ∧ (∃ markers,
       requests w'
       = requests w
         ++ List.map (GetFiles (contentContainer w) perPage) (marker :: markers)
       ∧ (length markers < length ds)%nat)
  ∧ pages_then_failure ds.
Proof.
  induction fuel as [|fuel IH]; intros marker w w' ds; [done|].
  cbn [nextPage].
  destruct (getFiles_frame (contentContainer w) perPage marker w) as (Hf & He & Hc & Hr).
  destruct (perform _ w) as [w1 r]. cbn [fst] in *.
  assert (Hone : ∀ d, pages_then_failure [d] ->
            Some (w1, [d]) = Some (w', ds) ->
            contentFiles w' = contentFiles w ∧ elastic w' = elastic w
            ∧ contentContainer w' = contentContainer w
            ∧ (∃ markers,
                 requests w'
                 = requests w
                   ++ List.map (GetFiles (contentContainer w) perPage) (marker :: markers)
                 ∧ (length markers < length ds)%nat)
            ∧ pages_then_failure ds).
  { intros d Hd [= <- <-]. repeat split; try done. exists []. simpl. split; [done|lia]. }
  assert (Hpage : ∀ p, pages_then_failure [Page p])
    by (intros p; exists [p], []; split; [done|by left]).
  destruct r as [err|status files].
  { apply Hone. exists [], [ListFailed err]. split; [done|]. right. exists err. by left. }
  destruct (mapM decodeURIComponent files) as [fileNames|].
  2:{ apply Hone. exists [], [Thrown (URIError "URI malformed")].
      split; [done|]. right. eexists. by right. }
  destruct (consumer fileNames); [|by apply Hone].
  destruct (length fileNames =? 0)%nat; [by apply Hone|].
  destruct (length fileNames <? perPage)%nat.
  { intros [= <- <-]. repeat split; try done.
    - exists []. simpl. split; [done|lia].
    - exists [fileNames; []], []. split; [done|by left]. }
  destruct (nextPage fuel consumer (last fileNames) w1) as [[w2 ds2]|] eqn:En; [|done].
  intros [= <- <-].
  destruct (IH _ _ _ _ En) as (Hf2 & He2 & Hc2 & (markers & Hr2 & Hl2) & Hp2).
  rewrite Hf2, He2, Hc2, Hr2, Hr, Hc. repeat split; try done.
  - exists (last fileNames :: markers). simpl. rewrite <- app_assoc. split; [done|lia].
  - by apply pages_then_failure_cons.
Qed.

(** X10.  Listing reads and never writes: whatever fails and whatever
    the caller does with the pages, [listContent] leaves the container and
    the search engine as they were, issues nothing but page requests of
    [perPage] names on the content container, the first without marker,
    and never more requests than it makes deliveries; only its last
    delivery can be a failure. *)
Theorem listContent_reads_only (w w' : World) (consumer : list string -> bool)
    (fuel : nat) (ds : list Delivery) :
  listContent fuel consumer w = Some (w', ds) ->
  contentFiles w' = contentFiles w ∧ elastic w' = elastic w
  ∧ (∃ markers,
       requests w'
       = requests w
         ++ List.map (GetFiles (contentContainer w) perPage) (None :: markers)
       ∧ (length markers < length ds)%nat)
  ∧ pages_then_failure ds.
Proof.
  intros H. destruct (nextPage_frame _ _ _ _ _ _ H) as (? & ? & _ & ? & ?). done.
Qed.

(** X11.  The marker of a page request is the decoded last name of the
    page before.  When the first page is full and no stored name lies
    above the decoded last name of that page, the second request comes
    back empty and the enumeration ends there: whatever the container
    holds beyond its first [perPage] names is never handed over. *)
Theorem listContent_stops_at_decoded_marker (w : World)
    (consumer : list string -> bool) (fuel : nat) (ids : list string) (m : string) :
  quiet 2 w ->
  (perPage <= length (contentFiles w))%nat ->
  mapM decodeURIComponent (take perPage (contentFiles w)) = Some ids ->
  last ids = Some m ->
  Forall (fun n => String.ltb m n = false) (contentFiles w) ->
  consumer ids = true ->
  (2 <= fuel)%nat ->
  ∃ w', listContent fuel consumer w = Some (w', [Page ids; Page []])
        ∧ requests w' = requests w
            ++ [GetFiles (contentContainer w) perPage None;
                GetFiles (contentContainer w) perPage (Some m)]
        ∧ contentFiles w' = contentFiles w.
Proof.
  intros Hq Hlen Hdec Hlast Hbelow Hcons Hfuel.
  pose proof perPage_pos as Hpos.
  destruct fuel as [|[|fuel]]; [lia|lia|].
  pose proof (length_mapM _ _ _ Hdec) as Hl. rewrite length_take in Hl.
  assert (Hids : length ids = perPage) by lia.
  unfold listContent. cbn [nextPage].
  destruct (page_served 1 None w Hq) as (w1 & -> & Hfl & Hq2 & Hf1 & Hc1 & He1 & Hr1).
  rewrite filter_true, Hdec, Hcons, Hids.
  replace (perPage =? 0)%nat with false by (symmetry; apply Nat.eqb_neq; lia).
  replace (perPage <? perPage)%nat with false by (symmetry; apply Nat.ltb_ge; lia).
  rewrite Hlast. cbn [nextPage].
  destruct (page_served 0 (Some m) w1 Hq2) as (w2 & Hp2 & _ & _ & Hf2 & Hc2 & He2 & Hr2).
  rewrite Hc1 in Hr2. rewrite Hp2, Hf1.
  assert (Hnone : List.filter (fun n => String.ltb m n) (contentFiles w) = []).
  { clear -Hbelow. induction Hbelow as [|n l Hn _ IH]; [done|]. simpl. by rewrite Hn. }
  rewrite Hnone, take_nil. cbn [mapM mret option_ret mbind option_bind].
  exists w2. split; [by destruct (consumer [])|].
  rewrite Hr2, Hr1, <- app_assoc, Hf2, Hf1. done.
Qed.

End Pages.

(** ** What the index requests leave alone *)

Lemma create_lookup name ignore w k :
  k ≠ name -> elastic (perform (IndicesCreate name ignore) w).1 !! k = elastic w !! k.
Proof.
  intros Hne. unfold perform.
  destruct (faults w) as [|[e|] fs]; cbn [serve]; try done; open_world.
  - destruct (elastic w !! name); [by destruct ignore as [[]|]; repeat case_match|].
    simpl. by rewrite lookup_insert_ne.
  - destruct (elastic w !! name); [by destruct ignore as [[]|]; repeat case_match|].
    simpl. by rewrite lookup_insert_ne.
Qed.

Lemma putMapping_lookup name type body w k :
  k ≠ name ->
  elastic (perform (IndicesPutMapping name type body) w).1 !! k = elastic w !! k.
Proof.
  intros Hne. unfold perform.
  destruct (faults w) as [|[e|] fs]; cbn [serve]; try done; open_world.
  - destruct (elastic w !! name); [|done]. simpl. by rewrite lookup_insert_ne.
  - destruct (elastic w !! name); [|done]. simpl. by rewrite lookup_insert_ne.
Qed.

Lemma delete_lookup name w k :
  k ≠ name -> elastic (perform (IndicesDelete name) w).1 !! k = elastic w !! k.
Proof.
  intros Hne. unfold perform.
  destruct (faults w) as [|[e|] fs]; cbn [serve]; try done; open_world.
  - destruct (elastic w !! name); [|done]. simpl. by rewrite lookup_delete_ne.
  - destruct (elastic w !! name); [|done]. simpl. by rewrite lookup_delete_ne.
Qed.

Lemma delete_each_lookup names : ∀ w k,
  k ∉ names -> elastic (delete_each names w).1 !! k = elastic w !! k.
Proof.
  induction names as [|name names IH]; intros w k Hk; [done|].
  apply not_elem_of_cons in Hk as [Hne Hk]. simpl.
  pose proof (delete_lookup name w k Hne) as Hd.
  destruct (perform (IndicesDelete name) w) as [w1 r].
  pose proof (IH w1 k Hk) as Hi.
  destruct (delete_each names w1) as [w2 rs]. simpl in *. congruence.
Qed.

Section Rotation.
Context {rt : Runtime}.

Lemma createNewIndex_lookup indexName w k :
  k ≠ indexName -> elastic (createNewIndex indexName w).1 !! k = elastic w !! k.
Proof.
  intros Hne. unfold createNewIndex.
  pose proof (create_lookup indexName None w k Hne) as H1.
  destruct (perform (IndicesCreate indexName None) w) as [w1 [e|s l]]; [done|].
  pose proof (putMapping_lookup indexName "envelope" envelopeMapping w1 k Hne) as H2.
  destruct (perform (IndicesPutMapping _ _ _) w1) as [w2 [e|s2 l2]]; simpl in *; congruence.
Qed.

(** What [makeIndexActive] can have done to the engine when it calls
    back, with or without error. *)
Lemma makeIndexActive_cases indexName w :
  elastic (makeIndexActive indexName w).1 = elastic w
  ∨ ∃ es1,
      alias_actions [ActRemove "*" active; ActAdd indexName active] (elastic w)
      = Some es1
      ∧ ∀ k, k ∉ List.filter (fun n => negb (String.eqb n indexName))
                   (resolve "envelopes*" es1) ->
             elastic (makeIndexActive indexName w).1 !! k = es1 !! k.
Proof.
  unfold makeIndexActive. fold active.
  destruct (perform (IndicesUpdateAliases _) w) as [w1 r1] eqn:E1.
  destruct r1 as [e|s1 l1].
  { left. unfold perform in E1. destruct (faults w) as [|[e'|] fs]; cbn [serve] in E1.
    - open_world. destruct (alias_actions _ _); by injection E1 as <-.
    - by injection E1 as <-.
    - open_world. destruct (alias_actions _ _); by injection E1 as <-. }
  apply perform_answered in E1. cbn [serve] in E1. open_world.
  destruct (alias_actions _ (elastic w)) as [es1|] eqn:Ea; [|done].
  injection E1 as <- _ _. right. exists es1. split; [done|]. intros k Hk.
  set (w1 := mkWorld es1 _ _ _ _).
  destruct (perform (IndicesGet "envelopes*") w1) as [w2 r2] eqn:E2.
  destruct r2 as [e|s2 response].
  { unfold perform in E2. destruct (faults w1) as [|[e'|] fs]; cbn [serve] in E2;
      by injection E2 as <-. }
  apply perform_answered in E2. cbn [serve] in E2. open_world.
  injection E2 as <- _ <-.
  set (names := List.filter _ _) in *.
  pose proof (delete_each_lookup names (popped (IndicesGet "envelopes*") w1) k Hk) as Hd.
  destruct (delete_each names _) as [w3 results]. simpl in *. done.
Qed.

Lemma promotion_keeps indexName w k ix :
  elastic w !! k = Some ix ->
  k = indexName ∨ targets "envelopes*" k (remove_alias active ix) = false ->
  ∃ ix', elastic (makeIndexActive indexName w).1 !! k = Some ix'
         ∧ docs ix' = docs ix ∧ mappings ix' = mappings ix.
Proof.
  intros Hk Hsafe.
  destruct (makeIndexActive_cases indexName w) as [->|(es1 & Ha & Hkeep)].
  { by exists ix. }
  destruct (promoted _ _ _ Ha) as ((ix0 & Hix0 & Hnew) & Hothers).
  assert (Hes1 : ∃ ix', es1 !! k = Some ix' ∧ docs ix' = docs ix
                        ∧ mappings ix' = mappings ix
                        ∧ (k ≠ indexName -> ix' = remove_alias active ix)).
  { destruct (decide (k = indexName)) as [->|Hne].
    - rewrite Hk in Hix0. injection Hix0 as <-. eexists. by split.
    - rewrite (Hothers _ Hne), Hk. eexists. by split. }
  destruct Hes1 as (ix' & Hl & Hd & Hm & Hr).
  exists ix'. split; [|done]. rewrite Hkeep; [done|].
  rewrite elem_of_filter_neqb. intros [Hin Hne].
  apply elem_of_resolve in Hin as (ix'' & Hl' & Ht).
  destruct Hsafe as [->|Hsafe]; [done|].
  rewrite Hl in Hl'. injection Hl' as <-. rewrite (Hr Hne) in Ht. congruence.
Qed.

(** X12.  Promotion never destroys the index it promotes, nor any index
    outside the [envelopes*] family: whatever fails on the way, the
    promoted index, and every index that neither is named [envelopes*]
    nor would still carry an [envelopes*] alias once the active alias is
    taken from it, is there afterwards with its documents and mappings. *)
Theorem promotion_spares (indexName : string) (w : World) (k : string) (ix : Index) :
  elastic w !! k = Some ix ->
  k = indexName ∨ targets "envelopes*" k (remove_alias active ix) = false ->
  ∃ ix', elastic (makeIndexActive indexName w).1 !! k = Some ix'
         ∧ docs ix' = docs ix ∧ mappings ix' = mappings ix.
Proof. apply promotion_keeps. Qed.

Lemma latch_untargeted :
  targets "envelopes*" "latch" (remove_alias active (mkIndex ∅ [] ∅)) = false.
Proof.
  unfold targets, remove_alias. cbn [aliases].
  replace ((∅ : gset string) ∖ {[active]}) with (∅ : gset string) by set_solver.
  by rewrite elements_empty.
Qed.

Lemma setup_leaves_latch now w :
  quiet 2 w -> is_Some (elastic (setup now w).1 !! "latch").
Proof.
  intros Hq.
  destruct (elastic w !! "latch") as [ix|] eqn:Hl.
  { destruct (setup_latched now w Hq) as (w' & -> & He & _); [by eexists|].
    simpl. rewrite He, Hl. by eexists. }
  unfold setup. fold (generation now).
  destruct (quiet_perform 1 ConnectionSetup w Hq) as [-> Hq1].
  cbn [serve].
  destruct (quiet_perform 0 (IndicesCreate "latch" (Some 400%Z)) _ Hq1) as [-> _].
  open_world. rewrite Hl. simpl (_ =? _)%Z. cbv iota.
  set (w2 := with_elastic _ _).
  assert (H2 : elastic w2 !! "latch" = Some (mkIndex ∅ [] ∅))
    by (unfold w2, with_elastic; cbn [elastic]; by rewrite lookup_insert_eq).
  assert (Hne : "latch" ≠ generation now) by done.
  pose proof (createNewIndex_lookup (generation now) w2 "latch" Hne) as H3.
  destruct (createNewIndex (generation now) w2) as [w3 [e|]]; cbn [fst] in *.
  { rewrite H3, H2. by eexists. }
  rewrite H2 in H3.
  destruct (promotion_keeps (generation now) w3 "latch" _ H3) as (ix' & -> & _).
  - right. apply latch_untargeted.
  - by eexists.
Qed.

(** X13.  The latch is never released.  Once a [setup] has got as far as
    the latch request, whether or not it went on to succeed, every later
    [setup] that reaches the engine reports success after two requests and
    leaves the engine exactly as it found it: a set-up that failed half
    way is not repaired by running [setup] again. *)
Theorem setup_never_retries (now now' : N) (w : World) :
  quiet 2 w ->
  quiet 2 (setup now w).1 ->
  is_Some (elastic (setup now w).1 !! "latch")
  ∧ (setup now' (setup now w).1).2 = None
  ∧ elastic (setup now' (setup now w).1).1 = elastic (setup now w).1
  ∧ requests (setup now' (setup now w).1).1
    = requests (setup now w).1
      ++ [ConnectionSetup; IndicesCreate "latch" (Some 400%Z)].
Proof.
  intros Hq Hq'. pose proof (setup_leaves_latch now w Hq) as Hl.
  split; [done|].
  destruct (setup_latched now' _ Hq' Hl) as (w' & -> & ? & ?). done.
Qed.

(** X14.  [createNewIndex] creates the index and gives it the envelope
    mapping, or fails: when it succeeds the name was free and the engine
    has gained exactly that index, empty and mapped; when the name is
    taken and the request reaches the engine, it fails after that one
    request, without asking for a mapping; and whatever happens no other
    index is touched. *)
Theorem createNewIndex_outcome (indexName : string) (w : World) :
  (∀ w', createNewIndex indexName w = (w', None) ->
     elastic w !! indexName = None
     ∧ elastic w'
       = <[indexName := mkIndex ∅ [("envelope", envelopeMapping)] ∅]> (elastic w))
  ∧ (quiet 1 w -> is_Some (elastic w !! indexName) ->
     ∃ w' err, createNewIndex indexName w = (w', Some err)
               ∧ elastic w' = elastic w
               ∧ requests w' = requests w ++ [IndicesCreate indexName None])
  ∧ (∀ k, k ≠ indexName ->
       elastic (createNewIndex indexName w).1 !! k = elastic w !! k).
Proof.
  split; [|split].
  - intros w'. apply createNewIndex_ok.
  - intros Hq [ix Hix]. unfold createNewIndex.
    destruct (quiet_perform 0 (IndicesCreate indexName None) w Hq) as [-> _].
    cbn [serve]. open_world. rewrite Hix. by eexists _, _.
  - intros k. apply createNewIndex_lookup.
Qed.

End Rotation.

(** ** Removing content *)

Lemma with_alias_resolved es name ix :
  es !! name = Some ix -> active ∈ aliases ix -> name ∈ resolve active es.
Proof.
  intros Hl Ha. apply elem_of_resolve. exists ix. split; [done|].
  unfold targets. apply orb_true_iff. right. apply existsb_exists.
  exists active. split; [|done]. apply list_elem_of_In. by apply elem_of_elements.
Qed.

Section Removal.
Context {rt : Runtime}.

(** X15.  A [deleteContent] that reaches the blob store succeeds with
    one request; afterwards no object is stored under the encoded
    contentID, every other object is still there, and the search engine
    is untouched.  An error of the transport whose [statusCode] is not
    the number 404 is handed to the caller and nothing is removed. *)
Theorem deleteContent_removes_only (contentID : string) (w : World) :
  (quiet 1 w ->
   ∃ w1, deleteContent contentID w = (w1, None)
         ∧ (encodeURIComponent contentID ∉ contentFiles w1)
         ∧ (∀ n, n ≠ encodeURIComponent contentID ->
              (n ∈ contentFiles w1 ↔ n ∈ contentFiles w))
         ∧ elastic w1 = elastic w
         ∧ requests w1
           = requests w
             ++ [RemoveFile (contentContainer w) (encodeURIComponent contentID)])
  ∧ (∀ err rest, faults w = Some err :: rest ->
       strict_eq_num (statusCode err) 404 = false ->
       ∃ w1, deleteContent contentID w = (w1, Some err)
             ∧ contentFiles w1 = contentFiles w ∧ elastic w1 = elastic w).
Proof.
  split.
  - intros Hq. destruct (deleteContent_quiet 0 contentID w Hq)
      as (w1 & Hd & _ & _ & He & Hf).
    exists w1. split; [done|]. rewrite Hf. repeat split; try done.
    + rewrite elem_of_filter_neqb. naive_solver.
    + rewrite elem_of_filter_neqb. naive_solver.
    + rewrite elem_of_filter_neqb. naive_solver.
    + unfold deleteContent in Hd.
      destruct (quiet_perform 0
                  (RemoveFile (contentContainer w) (encodeURIComponent contentID)) w Hq)
        as [Hp _].
      rewrite Hp in Hd. cbn [serve] in Hd.
      destruct (bool_decide _); simpl in Hd; by injection Hd as <-.
  - intros err rest Hfl H404. unfold deleteContent, perform. rewrite Hfl, H404.
    by eexists.
Qed.

(** X16.  An [unindexContent] that reaches the search engine and
    reports success leaves no document under the contentID in any index
    that holds the active alias.  Whatever happens, no index appears or
    disappears, and aliases, mappings and every other document stay as
    they were. *)
Theorem unindexContent_removes_only (contentID : string) (w : World) :
  (quiet 1 w -> (unindexContent contentID w).2 = None ->
   ∀ name ix, elastic (unindexContent contentID w).1 !! name = Some ix ->
     active ∈ aliases ix -> docs ix !! contentID = None)
  ∧ (∀ name,
       match elastic w !! name with
       | Some ix =>
           ∃ ix', elastic (unindexContent contentID w).1 !! name = Some ix'
                  ∧ aliases ix' = aliases ix ∧ mappings ix' = mappings ix
                  ∧ ∀ id, id ≠ contentID -> docs ix' !! id = docs ix !! id
       | None => elastic (unindexContent contentID w).1 !! name = None
       end)
  ∧ contentFiles (unindexContent contentID w).1 = contentFiles w.
Proof.
  assert (Hsame : ∀ name,
    match elastic w !! name with
    | Some ix =>
        ∃ ix', elastic w !! name = Some ix'
               ∧ aliases ix' = aliases ix ∧ mappings ix' = mappings ix
               ∧ ∀ id, id ≠ contentID -> docs ix' !! id = docs ix !! id
    | None => elastic w !! name = None
    end).
  { intros name. destruct (elastic w !! name) as [ix|]; [|done]. by exists ix. }
  assert (Hserved :
    let s := serve (ElasticDelete active "envelope" contentID)
               (popped (ElasticDelete active "envelope" contentID) w) in
    (∀ name,
       match elastic w !! name with
       | Some ix =>
           ∃ ix', elastic s.1 !! name = Some ix'
                  ∧ aliases ix' = aliases ix ∧ mappings ix' = mappings ix
                  ∧ ∀ id, id ≠ contentID -> docs ix' !! id = docs ix !! id
       | None => elastic s.1 !! name = None
       end)
    ∧ contentFiles s.1 = contentFiles w
    ∧ (match s.2 with
       | Answered _ _ => True
       | Failed err => strict_eq_str (status err) "404" = true
       end ->
       ∀ name ix, elastic s.1 !! name = Some ix ->
         active ∈ aliases ix -> docs ix !! contentID = None)).
  { cbn [serve]. open_world.
    destruct (resolve active (elastic w)) as [|target [|other more]] eqn:Er.
    - simpl. split; [done|]. split; [done|]. intros _ name ix Hl Ha.
      pose proof (with_alias_resolved _ _ _ Hl Ha) as Hin. rewrite Er in Hin.
      by apply elem_of_nil in Hin.
    - destruct (elastic w !! target) as [tix|] eqn:Et.
      2:{ simpl. split; [done|]. split; [done|]. intros _ name ix Hl Ha.
          pose proof (with_alias_resolved _ _ _ Hl Ha) as Hin. rewrite Er in Hin.
          apply list_elem_of_singleton in Hin as ->. congruence. }
      destruct (docs tix !! contentID) as [doc|] eqn:Ed.
      + simpl. split; [|split; [done|]].
        * intros name. destruct (decide (name = target)) as [->|Hne].
          -- rewrite Et, lookup_insert_eq. eexists. split; [done|]. simpl.
             repeat split; try done. intros id Hid. by rewrite lookup_delete_ne.
          -- rewrite lookup_insert_ne by done.
             destruct (elastic w !! name) as [ix|]; [|done]. by exists ix.
        * intros _ name ix Hl Ha.
          destruct (decide (name = target)) as [->|Hne].
          -- rewrite lookup_insert_eq in Hl. injection Hl as <-. simpl.
             by rewrite lookup_delete_eq.
          -- rewrite lookup_insert_ne in Hl by done.
             pose proof (with_alias_resolved _ _ _ Hl Ha) as Hin. rewrite Er in Hin.
             by apply list_elem_of_singleton in Hin.
      + simpl. split; [done|]. split; [done|]. intros _ name ix Hl Ha.
        pose proof (with_alias_resolved _ _ _ Hl Ha) as Hin. rewrite Er in Hin.
        apply list_elem_of_singleton in Hin as ->. congruence.
    - simpl. split; [done|]. split; [done|]. done. }
  unfold unindexContent. fold active.
  split; [|split].
  - intros Hq.
    destruct (quiet_perform 0 (ElasticDelete active "envelope" contentID) w Hq) as [-> _].
    destruct Hserved as (_ & _ & Hpost).
    destruct (serve _ _) as [w1 [err|s l]]; simpl in *.
    + destruct (strict_eq_str (status err) "404") eqn:E; [|done]. intros _. by apply Hpost.
    + intros _. by apply Hpost.
  - intros name. unfold perform.
    destruct (faults w) as [|[e|] fs].
    + destruct Hserved as (Hfr & _ & _). specialize (Hfr name).
      destruct (serve _ _) as [w1 [err|s l]]; simpl in *;
        [by destruct (strict_eq_str _ _)|done].
    + simpl. specialize (Hsame name). by destruct (strict_eq_str _ _).
    + destruct Hserved as (Hfr & _ & _). specialize (Hfr name).
      destruct (serve _ _) as [w1 [err|s l]]; simpl in *;
        [by destruct (strict_eq_str _ _)|done].
  - unfold perform.
    destruct (faults w) as [|[e|] fs].
    + destruct Hserved as (_ & Hf & _).
      destruct (serve _ _) as [w1 [err|s l]]; simpl in *;
        [by destruct (strict_eq_str _ _)|done].
    + simpl. by destruct (strict_eq_str _ _).
    + destruct Hserved as (_ & Hf & _).
      destruct (serve _ _) as [w1 [err|s l]]; simpl in *;
        [by destruct (strict_eq_str _ _)|done].
Qed.

End Removal.

(** *** Worked instances *)

Lemma listContent_enumerates_witness :
  ∃ w' pages,
    listContent (rt := Example.posix) 2 (fun _ => true) Sample.long_container
    = Some (w', List.map Page pages ++ [Page []])
    ∧ concat pages = contentFiles Sample.long_container
    ∧ length (requests w') = 2%nat.
Proof.
  destruct (listContent_enumerates (rt := Example.posix) Sample.long_container
              (fun _ => true) 2)
    as (w' & pages & H & Hcat & _ & Hreq & _).
  - constructor.
  - vm_compute. reflexivity.
  - vm_compute. reflexivity.
  - done.
  - apply Nat.ltb_lt. vm_compute. reflexivity.
  - exists w', pages. split; [done|]. split; [done|]. rewrite Hreq.
    vm_compute. reflexivity.
Defined.

Lemma listContent_reads_only_witness :
  ∃ w' ds,
    listContent (rt := Example.posix) 1 (fun _ => true) Sample.store_down = Some (w', ds)
    ∧ contentFiles w' = contentFiles Sample.store_down
    ∧ pages_then_failure ds.
Proof.
  destruct (listContent (rt := Example.posix) 1 (fun _ => true) Sample.store_down)
    as [[w' ds]|] eqn:E; [|by vm_compute in E].
  exists w', ds. split; [done|].
  destruct (listContent_reads_only (rt := Example.posix) _ _ _ _ _ E) as (? & _ & _ & ?).
  done.
Defined.

Lemma listContent_stops_at_decoded_marker_witness :
  ∃ w' ids,
    listContent (rt := Example.posix) 2 (fun _ => true) Sample.encoded_container
    = Some (w', [Page ids; Page []])
    ∧ length ids = perPage
    ∧ length (contentFiles Sample.encoded_container) = S perPage.
Proof.
  destruct (mapM (decodeURIComponent (Runtime := Example.posix))
              (take perPage (contentFiles Sample.encoded_container)))
    as [ids|] eqn:Hdec; [|by vm_compute in Hdec].
  assert (Hlast : last ids = Some "X/9999")
    by (vm_compute in Hdec; injection Hdec as <-; vm_compute; reflexivity).
  assert (Hlen : length ids = perPage)
    by (vm_compute in Hdec; injection Hdec as <-; vm_compute; reflexivity).
  destruct (listContent_stops_at_decoded_marker (rt := Example.posix)
              Sample.encoded_container (fun _ => true) 2 ids "X/9999")
    as (w' & H & _).
  - by repeat constructor.
  - apply Nat.leb_le. vm_compute. reflexivity.
  - exact Hdec.
  - exact Hlast.
  - assert (Hb : forallb (fun n => negb (String.ltb "X/9999" n))
                    (contentFiles Sample.encoded_container) = true)
      by (vm_compute; reflexivity).
    apply Forall_forall. intros n Hn%list_elem_of_In.
    apply negb_true_iff. revert n Hn. by apply forallb_forall.
  - done.
  - lia.
  - exists w', ids. split; [done|]. split; [done|]. vm_compute. reflexivity.
Defined.

Lemma promotion_spares_witness :
  ∃ ix', elastic (makeIndexActive "envelopes_2" Example.rotating).1 !! "latch" = Some ix'
         ∧ docs ix' = ∅ ∧ mappings ix' = [].
Proof.
  apply (promotion_spares "envelopes_2" Example.rotating "latch" (mkIndex ∅ [] ∅)).
  - vm_compute. reflexivity.
  - right. apply latch_untargeted.
Defined.

Lemma setup_never_retries_witness :
  (setup 1478000000000 Sample.failing_third).2 = Some Sample.engine_down
  ∧ is_Some (elastic (setup 1478000000000 Sample.failing_third).1 !! "latch")
  ∧ (setup 1478000000001 (setup 1478000000000 Sample.failing_third).1).2 = None.
Proof.
  split; [vm_compute; reflexivity|].
  destruct (setup_never_retries 1478000000000 1478000000001 Sample.failing_third)
    as (Hl & Hs & _).
  - unfold quiet. simpl. by repeat constructor.
  - unfold quiet. vm_compute. constructor.
  - done.
Defined.

Lemma deleteContent_removes_only_witness :
  (∃ w1, deleteContent (rt := Example.posix) "X/a" Example.rotating = (w1, None)
         ∧ "X%2Fa" ∉ contentFiles w1)
  ∧ (∃ w1, deleteContent (rt := Example.posix) "X/a" Sample.store_down
           = (w1, Some Sample.server_error)
           ∧ contentFiles w1 = ["X%2Fa"]).
Proof.
  split.
  - destruct (proj1 (deleteContent_removes_only (rt := Example.posix) "X/a"
                       Example.rotating))
      as (w1 & Hd & Hn & _).
    + unfold quiet. simpl. constructor.
    + by exists w1.
  - destruct (proj2 (deleteContent_removes_only (rt := Example.posix) "X/a"
                       Sample.store_down) Sample.server_error [])
      as (w1 & Hd & Hf & _); [done|done|].
    by exists w1.
Defined.

Lemma unindexContent_removes_only_witness :
  ∃ ix, elastic (unindexContent "X/a" Example.rotating).1 !! "envelopes_1" = Some ix
        ∧ docs ix !! "X/a" = None.
Proof.
  destruct (elastic (unindexContent "X/a" Example.rotating).1 !! "envelopes_1")
    as [ix|] eqn:E; [|by vm_compute in E].
  exists ix. split; [done|].
  apply (proj1 (unindexContent_removes_only "X/a" Example.rotating)) with "envelopes_1".
  - unfold quiet. simpl. constructor.
  - vm_compute. reflexivity.
  - exact E.
  - vm_compute in E. injection E as <-.
    apply (bool_decide_unpack _). vm_compute. exact I.
Defined.

Lemma createNewIndex_outcome_witness :
  ∃ w' err, createNewIndex "envelopes_1" Example.rotating = (w', Some err)
            ∧ elastic w' = elastic Example.rotating.
Proof.
  destruct (proj1 (proj2 (createNewIndex_outcome "envelopes_1" Example.rotating)))
    as (w' & err & H & He & _).
  - unfold quiet. simpl. constructor.
  - vm_compute. by eexists.
  - by exists w', err.
Defined.

End DriverFacts.

(* ===================================================================== *)
(** * The request handlers for storing and removing one envelope          *)
(* ===================================================================== *)

Module RouteFacts.
Import Js Storage StoreRoute RemoveRoute.

Lemma first_error_None rs :
  Async.first_error rs = None ↔ Forall (fun r => r = None) rs.
Proof.
  induction rs as [|[e|] rs IH]; simpl.
  - split; [by constructor|done].
  - split; [done|]. by inversion 1.
  - rewrite IH. split; [by constructor|]. by inversion 1.
Qed.

Lemma first_error_Some rs err :
  Async.first_error rs = Some err -> Some err ∈ rs.
Proof.
  induction rs as [|[e|] rs IH]; simpl; [done| |].
  - intros [= ->]. by left.
  - intros H. right. by apply IH.
Qed.

Lemma handleError_truthy err : truthy_opt (statusCode (handleError err)) = true.
Proof.
  unfold handleError, or_else. cbn [statusCode].
  destruct (truthy_opt (statusCode err)) eqn:E1.
  - by rewrite E1.
  - destruct (truthy_opt (status err)) eqn:E2; by rewrite ?E2.
Qed.

(** X17.  [removeStagingEnvelopes] asks for exactly what it is given: on
    each of its three paths (no id, one id, several ids) the deletions
    from the document store name the given contentIDs, in order and once
    each, and so do the removals from the search index; it issues no
    other call. *)
Theorem removeStagingEnvelopes_covers (contentIDs : list string) :
  flat_map deleted_by (calls_of (Remove.removeStagingEnvelopes contentIDs))
  = contentIDs
  ∧ flat_map unindexed_by (calls_of (Remove.removeStagingEnvelopes contentIDs))
    = contentIDs
  ∧ Forall (fun c => match c with
                     | DeleteStagingEnvelope _ | BulkDeleteStagingEnvelopes _
                     | UnindexStagingEnvelope _ | BulkUnindexStagingEnvelopes _ => True
                     | _ => False
                     end)
      (calls_of (Remove.removeStagingEnvelopes contentIDs)).
Proof.
  destruct contentIDs as [|a [|b rest]]; simpl; rewrite ?app_nil_r;
    repeat split; by repeat constructor.
Qed.

Lemma covers ids :
  flat_map deleted_by (calls_of (Remove.removeStagingEnvelopes ids)) = ids
  ∧ flat_map unindexed_by (calls_of (Remove.removeStagingEnvelopes ids)) = ids.
Proof. destruct ids as [|a [|b rest]]; simpl; by rewrite ?app_nil_r. Qed.

Lemma completeRemoval_replies ids results :
  ((completeRemoval ids results).2 = [Sent 204; Next None]
   ∧ Forall (fun c => results c = None) (completeRemoval ids results).1)
  ∨ (∃ c err, c ∈ (completeRemoval ids results).1 ∧ results c = Some err
              ∧ (completeRemoval ids results).2 = [Next (Some (handleError err))]).
Proof.
  unfold completeRemoval. cbn [fst snd].
  destruct (Async.first_error _) as [err|] eqn:E.
  - right. apply first_error_Some in E.
    apply list_elem_of_In, in_map_iff in E as (c & Hc & Hin).
    exists c, err. by rewrite <- list_elem_of_In in Hin.
  - left. split; [done|]. apply first_error_None in E.
    by apply Forall_fmap in E.
Qed.

(** X18.  The removal handler answers every request once: either it
    sends 204 and calls [next()], which it does exactly when the listing
    (if a prefix was asked for) and every removal call succeeded, or it
    sends nothing and calls [next(err)] once, with an error whose
    [statusCode] is truthy: the error's own [statusCode] if it had one,
    else its [status], else 500. *)
Theorem remove_handler_answers_once (contentID : string) (prefix : option Json)
    (listing : Json -> Error + list string) (results : Call -> option Error) :
  let calls := (handler contentID prefix listing results).1 in
  let replies := (handler contentID prefix listing results).2 in
  (replies = [Sent 204; Next None]
   ∧ Forall (fun c => match c with
                      | ListStagingEnvelopes p => ∃ ids, listing p = inr ids
                      | _ => results c = None
                      end) calls)
  ∨ (∃ err0,
       replies = [Next (Some (handleError err0))]
       ∧ truthy_opt (statusCode (handleError err0)) = true
       ∧ statusCode (handleError err0)
         = (if truthy_opt (statusCode err0) then statusCode err0
            else if truthy_opt (status err0) then status err0
                 else Some (JNum 500))
       ∧ (listing (JStr contentID) = inl err0
          ∨ ∃ c, c ∈ calls ∧ results c = Some err0)).
Proof.
  assert (Hst : ∀ err0,
    statusCode (handleError err0)
    = (if truthy_opt (statusCode err0) then statusCode err0
       else if truthy_opt (status err0) then status err0 else Some (JNum 500))).
  { intros err0. unfold handleError, or_else. cbn [statusCode].
    destruct (truthy_opt (statusCode err0)) eqn:E1.
    - by rewrite E1.
    - by destruct (truthy_opt (status err0)) eqn:E2; rewrite ?E2. }
  assert (Hdel : ∀ ids,
    Forall (fun c => results c = None) (completeRemoval ids results).1 ->
    Forall (fun c => match c with
                     | ListStagingEnvelopes p => ∃ ids, listing p = inr ids
                     | _ => results c = None
                     end) (completeRemoval ids results).1).
  { intros ids. unfold completeRemoval. cbn [fst].
    destruct ids as [|a [|b rest]]; simpl; intros H; [done| |].
    - inversion H as [|? ? ? H']; subst. inversion H'; subst. by repeat constructor.
    - inversion H as [|? ? ? H']; subst. inversion H'; subst. by repeat constructor. }
  unfold handler. cbv zeta.
  destruct (negb (truthy_opt prefix)).
  - destruct (completeRemoval_replies [contentID] results)
      as [[Hr Hall]|(c & err & Hin & Hc & Hr)].
    + left. split; [done|]. by apply Hdel.
    + right. exists err. split; [done|]. split; [apply handleError_truthy|].
      split; [apply Hst|]. right. by exists c.
  - destruct (listing (JStr contentID)) as [err|ids] eqn:El.
    + right. exists err. simpl. split; [done|]. split; [apply handleError_truthy|].
      split; [apply Hst|]. by left.
    + pose proof (completeRemoval_replies ids results) as Hcr.
      pose proof (Hdel ids) as Hd.
      destruct (completeRemoval ids results) as [calls replies]. cbn [fst snd] in *.
      destruct Hcr as [[Hr Hall]|(c & err & Hin & Hc & Hr)].
      * left. split; [done|]. constructor; [by exists ids|]. by apply Hd.
      * right. exists err. split; [done|]. split; [apply handleError_truthy|].
        split; [apply Hst|]. right. exists c. split; [by right|done].
Qed.

(** X19.  What the removal handler removes.  Without a prefix it is
    the contentID of the request and nothing else; with a prefix it is
    every contentID the listing under that prefix hands over, and when
    the listing fails no removal is asked for at all.  The document store
    and the search index are always asked for the same ids. *)
Theorem remove_handler_removes (contentID : string) (prefix : option Json)
    (listing : Json -> Error + list string) (results : Call -> option Error) :
  let calls := (handler contentID prefix listing results).1 in
  flat_map deleted_by calls = flat_map unindexed_by calls
  ∧ flat_map deleted_by calls
    = (if truthy_opt prefix
       then match listing (JStr contentID) with
            | inr contentIDs => contentIDs
            | inl _ => []
            end
       else [contentID])
  ∧ List.filter (fun c => match c with ListStagingEnvelopes _ => true | _ => false end)
      calls
    = (if truthy_opt prefix then [ListStagingEnvelopes (JStr contentID)] else []).
Proof.
  unfold handler. simpl.
  destruct (truthy_opt prefix); simpl; [|done].
  destruct (listing (JStr contentID)) as [err|ids]; [done|].
  unfold completeRemoval. simpl.
  destruct (covers ids) as [Hd Hu]. rewrite Hd, Hu.
  split; [done|]. split; [done|]. by destruct ids as [|a [|b rest]].
Qed.

(** X20.  The store handler always asks for the two writes of the
    envelope, the document store first; it sends 204 and calls [next()]
    exactly when both succeed, and otherwise sends nothing and passes the
    error of a failed write to [next]. *)
Theorem store_handler_outcome (contentID : string) (envelope : Json)
    (results : Call -> option Error) :
  let calls := (StoreRoute.handler contentID envelope results).1 in
  let replies := (StoreRoute.handler contentID envelope results).2 in
  calls = [StoreStagingEnvelope contentID envelope;
           IndexStagingEnvelope contentID envelope]
  ∧ (replies = [Sent 204; Next None]
     ↔ results (StoreStagingEnvelope contentID envelope) = None
       ∧ results (IndexStagingEnvelope contentID envelope) = None)
  ∧ (replies = [Sent 204; Next None]
     ∨ ∃ c err, c ∈ calls ∧ results c = Some err ∧ replies = [Next (Some err)]).
Proof.
  unfold StoreRoute.handler, Store.storeStagingEnvelope. simpl.
  split; [done|].
  destruct (results (StoreStagingEnvelope contentID envelope)) as [e1|] eqn:E1.
  { split; [split; [done|by intros [? _]]|]. right.
    exists (StoreStagingEnvelope contentID envelope), e1.
    split; [by left|done]. }
  destruct (results (IndexStagingEnvelope contentID envelope)) as [e2|] eqn:E2.
  { split; [split; [done|by intros [_ ?]]|]. right.
    exists (IndexStagingEnvelope contentID envelope), e2.
    split; [by right; left|done]. }
  split; [done|by left].
Qed.

End RouteFacts.
